(** * AUTOS data scripts: body-class classifier and seeded VIN generator

    A shallow embedding of [src/data/scripts/body_class_classifier.py] and
    [src/data/scripts/generate_vin_data.py], with the properties of the
    specification stated and proved (or refuted) over it, followed by
    further properties of the two files and of the code that calls the
    classifier in [update_body_classes.py] and [test_classifier_sample.py].

    Conventions of the embedding:
    - a Python [int] is a [Z], and [str] of an [int] is its decimal text
      (CPython refuses the conversion beyond 4300 digits, [int_str_ok]); a
      Python [str] is a [string] whose characters are read as ASCII code
      points (case mapping and white space are the ASCII ones, [isascii]);
    - a Python [dict] that is iterated (the rule catalogs) is an association
      list in insertion order; a [dict] that is only read and updated by key
      (the body-class counters) is a [gmap];
    - a Python [float] is an IEEE-754 binary64 number, [spec_float] of the
      Standard Library with precision 53 and maximal exponent 1024;
    - a method that mutates [self] takes the object and returns the new one;
      a call that can raise returns a [result];
    - what the code reads from outside is an argument: the matcher of the
      [re] module is a function [re_search], the day of [datetime.now()] is
      a day number [today] (in a loop, a function of the iteration), and the
      text of [datetime.utcnow().isoformat()] a function of the iteration;
    - the generator carries a log [draws] of the call sites of
      [_seeded_random], which the class does not have and no result depends
      on; it serves to state the order of the draws. *)

From Stdlib Require Import ZArith List String Ascii Bool Lia.
From Stdlib Require Import SpecFloat QArith Sorted.
From Stdlib Require DecimalString DecimalPos DecimalZ.
From stdpp Require Import gmap strings list fin_maps.

Local Open Scope string_scope.
Local Open Scope Z_scope.

(* ===================================================================== *)
(** * Python strings *)
(* ===================================================================== *)

Module PyStr.

(** [str.isspace] on one ASCII character: TAB, LF, VT, FF, CR, the four
    separators FS GS RS US, and the space. *)
Definition is_space (c : ascii) : bool :=
  let n := N_of_ascii c in
  ((9 <=? n) && (n <=? 13) || (28 <=? n) && (n <=? 32))%N.

Definition lower_ascii (c : ascii) : ascii :=
  let n := N_of_ascii c in
  if ((65 <=? n) && (n <=? 90))%N then ascii_of_N (n + 32) else c.

Definition upper_ascii (c : ascii) : ascii :=
  let n := N_of_ascii c in
  if ((97 <=? n) && (n <=? 122))%N then ascii_of_N (n - 32) else c.

(** [s.isascii()]: every character is below 128. *)
Fixpoint isascii (s : string) : bool :=
  match s with
  | EmptyString => true
  | String c s' => (N_of_ascii c <? 128)%N && isascii s'
  end.

(** [s.lower()] and [s.upper()] of ASCII text ([isascii]). On other text
    Python also maps the letters outside ASCII, and its [upper] can make the
    text longer; a statement about the characters or the length of the
    result says that the text is ASCII. *)
Fixpoint lower (s : string) : string :=
  match s with
  | EmptyString => EmptyString
  | String c s' => String (lower_ascii c) (lower s')
  end.

Fixpoint upper (s : string) : string :=
  match s with
  | EmptyString => EmptyString
  | String c s' => String (upper_ascii c) (upper s')
  end.

(** [s.lstrip()], [s.rstrip()] and [s.strip()]. *)
Fixpoint lstrip (s : string) : string :=
  match s with
  | EmptyString => EmptyString
  | String c s' => if is_space c then lstrip s' else s
  end.

Fixpoint rstrip (s : string) : string :=
  match s with
  | EmptyString => EmptyString
  | String c s' =>
      match rstrip s' with
      | EmptyString => if is_space c then EmptyString else String c EmptyString
      | r => String c r
      end
  end.

Definition strip (s : string) : string := rstrip (lstrip s).

(** [needle in hay]: [needle] occurs in [hay] as a contiguous substring. *)
Fixpoint contains (needle hay : string) : bool :=
  String.prefix needle hay ||
  match hay with
  | EmptyString => false
  | String _ hay' => contains needle hay'
  end.

(** [any(word in s for word in words)]. *)
Definition any_in (words : list string) (s : string) : bool :=
  existsb (fun word => contains word s) words.

(** [s[:n]]. *)
Fixpoint take (n : nat) (s : string) : string :=
  match n, s with
  | S n', String c s' => String c (take n' s')
  | _, _ => EmptyString
  end.

(** [s[-1]] of a non-empty string ([None]: IndexError). *)
Fixpoint last_char (s : string) : option ascii :=
  match s with
  | EmptyString => None
  | String c EmptyString => Some c
  | String _ s' => last_char s'
  end.

(** [s[i]] for [0 <= i] ([None]: IndexError). *)
Fixpoint char_at (i : nat) (s : string) : option ascii :=
  match s, i with
  | EmptyString, _ => None
  | String c _, O => Some c
  | String _ s', S i' => char_at i' s'
  end.

(** [sys.get_int_max_str_digits()], as CPython sets it: [str] refuses an
    [int] of more decimal digits with ValueError. *)
Definition int_max_str_digits : Z := 4300.

(** The integers that [str] converts. *)
Definition int_str_ok (n : Z) : Prop := Z.abs n < 10 ^ int_max_str_digits.

(** [str(n)] for an [int] with [int_str_ok n]. *)
Definition str_of_int (n : Z) : string :=
  DecimalString.NilZero.string_of_int (Z.to_int n).

Fixpoint zeros (n : nat) : string :=
  match n with
  | O => EmptyString
  | S n' => String "0"%char (zeros n')
  end.

(** [s.zfill(width)]: zeros are inserted after a leading sign. *)
Definition zfill (width : nat) (s : string) : string :=
  let pad := zeros (width - String.length s)%nat in
  match s with
  | String c s' =>
      if (Ascii.eqb c "-"%char || Ascii.eqb c "+"%char)%bool
      then String c (pad +:+ s')
      else pad +:+ s
  | EmptyString => pad
  end.

(** The truth value of an [Optional[str]]: [None] and [''] are false. *)
Definition truthy (o : option string) : bool :=
  match o with
  | Some s => negb (String.eqb s "")
  | None => false
  end.

(** A word whose first and last characters are not white space. *)
Definition solid (w : string) : bool :=
  match w with
  | EmptyString => false
  | String c _ =>
      negb (is_space c) &&
      match last_char w with
      | Some d => negb (is_space d)
      | None => false
      end
  end.

End PyStr.

(** ** Decimal digits *)

Module Digits.

(** The decimal numeral [u] with the digit [a] in front. *)
Definition push_digit (a : Z) (u : Decimal.uint) : Decimal.uint :=
  if a =? 0 then Decimal.D0 u else if a =? 1 then Decimal.D1 u
  else if a =? 2 then Decimal.D2 u else if a =? 3 then Decimal.D3 u
  else if a =? 4 then Decimal.D4 u else if a =? 5 then Decimal.D5 u
  else if a =? 6 then Decimal.D6 u else if a =? 7 then Decimal.D7 u
  else if a =? 8 then Decimal.D8 u else Decimal.D9 u.

(** The six digits of a number between 100000 and 999999. *)
Definition six_digits (n : Z) : Decimal.uint :=
  push_digit (n / 100000)
    (push_digit (n / 10000 mod 10)
       (push_digit (n / 1000 mod 10)
          (push_digit (n / 100 mod 10)
             (push_digit (n / 10 mod 10)
                (push_digit (n mod 10) Decimal.Nil))))).

(** The character of a decimal digit. *)
Definition digit_char (a : Z) : ascii := ascii_of_N (48 + Z.to_N a).

End Digits.

(* ===================================================================== *)
(** * body_class_classifier.py *)
(* ===================================================================== *)

Module Classifier.
Import PyStr.

(** One entry of [historical_overrides.json]. *)
Record override := {
  ov_manufacturer : string;
  ov_model : string;
  ov_year_range : Z * Z;
  ov_body_class : string
}.

(** The value of one body class in [patterns['patterns']]; a missing key
    reads as the empty list ([data.get(..., [])]). *)
Record pattern_data := {
  exact_matches : list string;
  regex_patterns : list string
}.

(** [self.stats]. *)
Record statistics := {
  total : Z;
  historical_override : Z;
  exact_match : Z;
  regex_match : Z;
  manufacturer_default : Z;
  fallback : Z;
  by_body_class : gmap string Z
}.

(** A [BodyClassClassifier] object: the loaded catalogs and the counters.
    [compiled_patterns] has the keys and the order of [patterns]; the
    taxonomy is never read by [classify]. *)
Record classifier := {
  overrides : list override;
  patterns : list (string * pattern_data);
  manufacturer_defaults : list (string * list (string * string));
  stats : statistics
}.

Definition empty_stats : statistics :=
  {| total := 0; historical_override := 0; exact_match := 0;
     regex_match := 0; manufacturer_default := 0; fallback := 0;
     by_body_class := ∅ |}.

(** [__init__], after the three catalogs are loaded. *)
Definition init (ovs : list override) (pats : list (string * pattern_data))
    (defaults : list (string * list (string * string))) : classifier :=
  {| overrides := ovs; patterns := pats; manufacturer_defaults := defaults;
     stats := empty_stats |}.

Definition with_stats (c : classifier) (s : statistics) : classifier :=
  {| overrides := overrides c; patterns := patterns c;
     manufacturer_defaults := manufacturer_defaults c; stats := s |}.

(** [d.get(k)] on a dictionary kept in insertion order. *)
Fixpoint dict_get {V : Type} (d : list (string * V)) (k : string) : option V :=
  match d with
  | [] => None
  | (k', v) :: d' => if String.eqb k' k then Some v else dict_get d' k
  end.

Section WithRegex.

(** [re.compile(pattern, re.IGNORECASE).search(s) is not None]: the
    matcher of Python's [re] module, which the classifier only calls. *)
Variable re_search : string -> string -> bool.

Fixpoint _check_historical_override_loop (l : list override)
    (manufacturer model : string) (year : Z) : option string :=
  match l with
  | [] => None
  | o :: l' =>
      if String.eqb (lower (ov_manufacturer o)) (lower manufacturer)
         && String.eqb (lower (ov_model o)) (lower model)
         && ((fst (ov_year_range o) <=? year) && (year <=? snd (ov_year_range o)))
      then Some (ov_body_class o)
      else _check_historical_override_loop l' manufacturer model year
  end.

Definition _check_historical_override (c : classifier)
    (manufacturer model : string) (year : Z) : option string :=
  _check_historical_override_loop (overrides c) manufacturer model year.

Fixpoint _check_exact_match_loop (l : list (string * pattern_data))
    (model : string) : option string :=
  match l with
  | [] => None
  | (body_class, data) :: l' =>
      if existsb (fun exact_model => String.eqb (lower model) (lower exact_model))
           (exact_matches data)
      then Some body_class
      else _check_exact_match_loop l' model
  end.

Definition _check_exact_match (c : classifier) (model : string) : option string :=
  _check_exact_match_loop (patterns c) model.

Fixpoint _check_regex_match_loop (l : list (string * pattern_data))
    (model : string) : option string :=
  match l with
  | [] => None
  | (body_class, data) :: l' =>
      if existsb (fun pattern => re_search pattern model) (regex_patterns data)
      then Some body_class
      else _check_regex_match_loop l' model
  end.

Definition _check_regex_match (c : classifier) (model : string) : option string :=
  _check_regex_match_loop (patterns c) model.

Fixpoint partial_match (mfr_defaults : list (string * string)) (model : string)
    : option string :=
  match mfr_defaults with
  | [] => None
  | (model_pattern, body_class) :: l' =>
      if contains (lower model_pattern) (lower model)
      then Some body_class
      else partial_match l' model
  end.

Definition _check_manufacturer_default (c : classifier)
    (manufacturer model : string) : option string :=
  let mfr_defaults :=
    match dict_get (manufacturer_defaults c) manufacturer with
    | Some d => d
    | None => []
    end in
  match dict_get mfr_defaults model with
  | Some body_class => Some body_class
  | None => partial_match mfr_defaults model
  end.

Definition _fallback_classification (manufacturer model : string) (year : Z)
    : string :=
  let model_lower := lower model in
  if year <? 1930 then
    if any_in ["roadster"; "speedster"; "racer"] model_lower
    then "Roadster" else "Touring Car"
  else if any_in ["truck"; "pickup"; "150"; "250"; "350"] model_lower then "Pickup"
  else if any_in ["van"; "caravan"; "voyager"] model_lower then "Van"
  else if any_in ["sport"; "gt"; "gto"; "ss"; "r/t"] model_lower then "Sports Car"
  else if any_in ["wagon"; "estate"] model_lower then "Wagon"
  else "Sedan".

Definition _update_body_class_stats (s : statistics) (body_class : string)
    : statistics :=
  let counts :=
    match by_body_class s !! body_class with
    | Some _ => by_body_class s
    | None => <[body_class := 0]> (by_body_class s)
    end in
  let n := match counts !! body_class with Some n => n | None => 0 end in
  {| total := total s; historical_override := historical_override s;
     exact_match := exact_match s; regex_match := regex_match s;
     manufacturer_default := manufacturer_default s; fallback := fallback s;
     by_body_class := <[body_class := n + 1]> counts |}.

(** The five [self.stats[...] += 1] statements. *)
Definition bump_total (s : statistics) : statistics :=
  {| total := total s + 1; historical_override := historical_override s;
     exact_match := exact_match s; regex_match := regex_match s;
     manufacturer_default := manufacturer_default s; fallback := fallback s;
     by_body_class := by_body_class s |}.

Definition bump_historical_override (s : statistics) : statistics :=
  {| total := total s; historical_override := historical_override s + 1;
     exact_match := exact_match s; regex_match := regex_match s;
     manufacturer_default := manufacturer_default s; fallback := fallback s;
     by_body_class := by_body_class s |}.

Definition bump_exact_match (s : statistics) : statistics :=
  {| total := total s; historical_override := historical_override s;
     exact_match := exact_match s + 1; regex_match := regex_match s;
     manufacturer_default := manufacturer_default s; fallback := fallback s;
     by_body_class := by_body_class s |}.

Definition bump_regex_match (s : statistics) : statistics :=
  {| total := total s; historical_override := historical_override s;
     exact_match := exact_match s; regex_match := regex_match s + 1;
     manufacturer_default := manufacturer_default s; fallback := fallback s;
     by_body_class := by_body_class s |}.

Definition bump_manufacturer_default (s : statistics) : statistics :=
  {| total := total s; historical_override := historical_override s;
     exact_match := exact_match s; regex_match := regex_match s;
     manufacturer_default := manufacturer_default s + 1; fallback := fallback s;
     by_body_class := by_body_class s |}.

Definition bump_fallback (s : statistics) : statistics :=
  {| total := total s; historical_override := historical_override s;
     exact_match := exact_match s; regex_match := regex_match s;
     manufacturer_default := manufacturer_default s; fallback := fallback s + 1;
     by_body_class := by_body_class s |}.

(** [classify]: the result pair and the classifier with its counters
    updated. *)
Definition classify (c : classifier) (manufacturer model : string) (year : Z)
    : (string * string) * classifier :=
  let s := bump_total (stats c) in
  let manufacturer := strip manufacturer in
  let model := strip model in
  let override_class := _check_historical_override c manufacturer model year in
  if truthy override_class then
    let body := match override_class with Some b => b | None => "" end in
    ((body, "historical_override"),
     with_stats c (_update_body_class_stats (bump_historical_override s) body))
  else
  let exact_class := _check_exact_match c model in
  if truthy exact_class then
    let body := match exact_class with Some b => b | None => "" end in
    ((body, "exact_match"),
     with_stats c (_update_body_class_stats (bump_exact_match s) body))
  else
  let regex_class := _check_regex_match c model in
  if truthy regex_class then
    let body := match regex_class with Some b => b | None => "" end in
    ((body, "regex_match"),
     with_stats c (_update_body_class_stats (bump_regex_match s) body))
  else
  let default_class := _check_manufacturer_default c manufacturer model in
  if truthy default_class then
    let body := match default_class with Some b => b | None => "" end in
    ((body, "manufacturer_default"),
     with_stats c (_update_body_class_stats (bump_manufacturer_default s) body))
  else
  let fallback_class := _fallback_classification manufacturer model year in
  ((fallback_class, "fallback"),
   with_stats c (_update_body_class_stats (bump_fallback s) fallback_class)).

(** A run of calls on one classifier: the results in call order and the
    final object. *)
Fixpoint classify_all (c : classifier) (calls : list (string * string * Z))
    : list (string * string) * classifier :=
  match calls with
  | [] => ([], c)
  | (manufacturer, model, year) :: rest =>
      let '(r, c') := classify c manufacturer model year in
      let '(rs, c'') := classify_all c' rest in
      (r :: rs, c'')
  end.

(** [get_statistics]. *)
Definition get_statistics (c : classifier) : statistics := stats c.

(** The four data-driven tiers find nothing for the stripped inputs. *)
Definition no_rule_matches (c : classifier) (manufacturer model : string)
    (year : Z) : Prop :=
  truthy (_check_historical_override c (strip manufacturer) (strip model) year) = false
  /\ truthy (_check_exact_match c (strip model)) = false
  /\ truthy (_check_regex_match c (strip model)) = false
  /\ truthy (_check_manufacturer_default c (strip manufacturer) (strip model)) = false.

End WithRegex.

(** The sum of the counts in [stats['by_body_class']]. *)
Definition sum_counts (m : gmap string Z) : Z :=
  map_fold (fun _ n acc => n + acc) 0 m.

(** The sum of the five match-type counters. *)
Definition counters_sum (s : statistics) : Z :=
  historical_override s + exact_match s + regex_match s
  + manufacturer_default s + fallback s.

(** The invariant of the counters. *)
Definition stats_invariant (s : statistics) : Prop :=
  total s = counters_sum s /\ total s = sum_counts (by_body_class s).

(** The count of one body class, 0 when it has no entry. *)
Definition count_of (m : gmap string Z) (body_class : string) : Z :=
  match m !! body_class with Some n => n | None => 0 end.

(** What one call does to the counters: the total grows by one; each
    match-type counter grows by 0 or 1 and their sum by 1, so that exactly
    one of them grows; the count of one body class grows by one. *)
Definition one_more (s s' : statistics) : Prop :=
  total s' = total s + 1
  /\ counters_sum s' = counters_sum s + 1
  /\ (historical_override s' = historical_override s
      \/ historical_override s' = historical_override s + 1)
  /\ (exact_match s' = exact_match s \/ exact_match s' = exact_match s + 1)
  /\ (regex_match s' = regex_match s \/ regex_match s' = regex_match s + 1)
  /\ (manufacturer_default s' = manufacturer_default s
      \/ manufacturer_default s' = manufacturer_default s + 1)
  /\ (fallback s' = fallback s \/ fallback s' = fallback s + 1)
  /\ exists body_class,
       by_body_class s'
       = <[body_class := count_of (by_body_class s) body_class + 1]> (by_body_class s).

(** The keywords of the fallback tier before 1930. *)
Definition pre_1930_words : list string := ["roadster"; "speedster"; "racer"].

(** The wording of the specification, "the model contains the word,
    case-insensitive", written without [lower] and [contains]: two
    characters are the same letter when they are equal or are the capital
    and the small form of one ASCII letter. *)
Definition same_letter (a b : ascii) : Prop :=
  a = b
  \/ ((65 <= N_of_ascii a <= 90)%N /\ N_of_ascii b = (N_of_ascii a + 32)%N)
  \/ ((65 <= N_of_ascii b <= 90)%N /\ N_of_ascii a = (N_of_ascii b + 32)%N).

Inductive same_text : string -> string -> Prop :=
  | same_text_nil : same_text "" ""
  | same_text_cons a b s t :
      same_letter a b -> same_text s t -> same_text (String a s) (String b t).

Definition occurs_ignoring_case (word text : string) : Prop :=
  exists before middle after,
    text = before +:+ (middle +:+ after) /\ same_text middle word.

(** "The model contains roadster, speedster or racer (case-insensitive)". *)
Definition mentions_a_roadster (model : string) : Prop :=
  occurs_ignoring_case "roadster" model
  \/ occurs_ignoring_case "speedster" model
  \/ occurs_ignoring_case "racer" model.

(** The override entry applies to the query: the names agree, case apart,
    and the year lies in the range, both ends included. *)
Definition applies (o : override) (manufacturer model : string) (year : Z) : Prop :=
  lower (ov_manufacturer o) = lower manufacturer
  /\ lower (ov_model o) = lower model
  /\ fst (ov_year_range o) <= year <= snd (ov_year_range o).

(** The model is one of the exact names of the entry, case apart. *)
Definition names (data : pattern_data) (model : string) : Prop :=
  exists exact_model,
    In exact_model (exact_matches data) /\ lower model = lower exact_model.

(** The body classes that the fallback tier can answer. *)
Definition fallback_classes : list string :=
  ["Roadster"; "Touring Car"; "Pickup"; "Van"; "Sports Car"; "Wagon"; "Sedan"].

(** The body classes that the catalogs hold: of the overrides, the keys of
    [patterns], and the values of the manufacturer defaults. *)
Definition catalog_classes (c : classifier) : list string :=
  (map ov_body_class (overrides c)
   ++ map fst (patterns c)
   ++ concat (map (fun d => map snd (snd d)) (manufacturer_defaults c)))%list.

(** [stats[key]] for the key of a match type. *)
Definition counter (key : string) (s : statistics) : Z :=
  if String.eqb key "historical_override" then historical_override s
  else if String.eqb key "exact_match" then exact_match s
  else if String.eqb key "regex_match" then regex_match s
  else if String.eqb key "manufacturer_default" then manufacturer_default s
  else if String.eqb key "fallback" then fallback s
  else 0.

(** The five match types. *)
Definition match_types : list string :=
  ["historical_override"; "exact_match"; "regex_match"; "manufacturer_default";
   "fallback"].

End Classifier.

(* ===================================================================== *)
(** * update_body_classes.py *)
(* ===================================================================== *)

Module UpdateBodyClasses.
Import PyStr Classifier.

(** The keys of a document's [_source] that the script reads; [None] is a
    missing key. *)
Record source := {
  s_manufacturer : option string;
  s_model : option string;
  s_year : option Z
}.

(** One element of [documents]. *)
Record document := {
  _id : string;
  _source : source
}.

(** [d.get(key, default)]. *)
Definition get_or {A : Type} (o : option A) (default : A) : A :=
  match o with
  | Some a => a
  | None => default
  end.

(** One bulk action; the three [ua_body_class...] fields are its ['doc']. *)
Record update_action := {
  ua_op_type : string;
  ua_index : string;
  ua_id : string;
  ua_body_class : string;
  ua_body_class_updated_at : string;
  ua_body_class_match_type : string
}.

(** One row of the classification report. *)
Record report_row := {
  rr_vehicle_id : string;
  rr_manufacturer : string;
  rr_model : string;
  rr_year : Z;
  rr_body_class : string;
  rr_match_type : string
}.

Section WithRegexAndClock.

Variable re_search : string -> string -> bool.

(** [datetime.utcnow().isoformat()] as read in iteration [i] of the loop. *)
Variable utcnow_isoformat : nat -> string.

(** The loop of [classify_and_prepare_updates], from iteration [i]. *)
Fixpoint classify_and_prepare_updates_loop (i : nat) (documents : list document)
    (classifier : Classifier.classifier) (update_actions : list update_action)
    (classification_report : list report_row)
    : (list update_action * list report_row) * Classifier.classifier :=
  match documents with
  | [] => ((update_actions, classification_report), classifier)
  | doc :: rest =>
      let source := _source doc in
      let manufacturer := get_or (s_manufacturer source) "Unknown" in
      let model := get_or (s_model source) "Unknown" in
      let year := get_or (s_year source) 2000 in
      let '((body_class, match_type), classifier) :=
        classify re_search classifier manufacturer model year in
      let update_actions :=
        (update_actions ++
         [{| ua_op_type := "update";
             ua_index := "autos-unified";
             ua_id := _id doc;
             ua_body_class := body_class;
             ua_body_class_updated_at := utcnow_isoformat i;
             ua_body_class_match_type := match_type |}])%list in
      let classification_report :=
        (classification_report ++
         [{| rr_vehicle_id := _id doc;
             rr_manufacturer := manufacturer;
             rr_model := model;
             rr_year := year;
             rr_body_class := body_class;
             rr_match_type := match_type |}])%list in
      classify_and_prepare_updates_loop (S i) rest classifier update_actions
        classification_report
  end.

Definition classify_and_prepare_updates (documents : list document)
    (classifier : Classifier.classifier)
    : (list update_action * list report_row) * Classifier.classifier :=
  classify_and_prepare_updates_loop 0 documents classifier [] [].

End WithRegexAndClock.

(** The arguments with which a document is classified. *)
Definition call_of (doc : document) : string * string * Z :=
  (get_or (s_manufacturer (_source doc)) "Unknown",
   get_or (s_model (_source doc)) "Unknown",
   get_or (s_year (_source doc)) 2000).

(** The pair a report row records, and the pair an update action writes. *)
Definition row_result (r : report_row) : string * string :=
  (rr_body_class r, rr_match_type r).

Definition action_result (a : update_action) : string * string :=
  (ua_body_class a, ua_body_class_match_type a).

(** Sample documents. *)
Definition doc_mustang : document :=
  {| _id := "nhtsa-ford-mustang-1967";
     _source := {| s_manufacturer := Some "Ford"; s_model := Some "Mustang";
                   s_year := Some 1967 |} |}.

Definition doc_bare : document :=
  {| _id := "nhtsa-unknown";
     _source := {| s_manufacturer := None; s_model := None; s_year := None |} |}.

End UpdateBodyClasses.

(* ===================================================================== *)
(** * test_classifier_sample.py *)
(* ===================================================================== *)

Module ClassifierSample.
Import PyStr.

(** The column text of a model name in [test_classifier_on_sample]:
    [model[:24] if len(model) <= 24 else model[:21] + '...']. *)
Definition model_display (model : string) : string :=
  if (String.length model <=? 24)%nat then take 24 model
  else take 21 model +:+ "...".

End ClassifierSample.

(* ===================================================================== *)
(** * Python exceptions and floats *)
(* ===================================================================== *)

Inductive exn : Set :=
  | IndexError | KeyError | OverflowError | ValueError | ZeroDivisionError.

(** The outcome of a call: a value, or a raised exception. *)
Inductive result (A : Type) : Type :=
  | Ok (a : A)
  | Raise (e : exn).
Arguments Ok {A} a.
Arguments Raise {A} e.

Definition rbind {A B : Type} (r : result A) (k : A -> result B) : result B :=
  match r with
  | Ok a => k a
  | Raise e => Raise e
  end.

Module PyFloat.

Definition prec : Z := 53.
Definition emax : Z := 1024.

Abbreviation float := spec_float.

Definition fmul : float -> float -> float := SFmul prec emax.
Definition fadd : float -> float -> float := SFadd prec emax.
Definition fsub : float -> float -> float := SFsub prec emax.
Definition flt : float -> float -> bool := SFltb.
Definition fle : float -> float -> bool := SFleb.
Definition fgt (x y : float) : bool := SFltb y x.

(** An integer as a significand with exponent 0, before any rounding. *)
Definition raw (z : Z) : float :=
  match z with
  | Z0 => S754_zero false
  | Zpos p => S754_finite false p 0
  | Zneg p => S754_finite true p 0
  end.

(** The binary64 number nearest to [a * 2^e] (ties to even); infinite when
    that is too large. *)
Definition dyadic (a e : Z) : float := binary_normalize prec emax a e false.

(** The binary64 number nearest to the integer [z]. *)
Definition of_Z (z : Z) : float := dyadic z 0.

Definition is_infinity (x : float) : bool :=
  match x with S754_infinity _ => true | _ => false end.

(** The conversion of an [int] operand of a float operation. *)
Definition float_of_int (z : Z) : result float :=
  let x := of_Z z in
  if is_infinity x then Raise OverflowError else Ok x.

(** [a / b] on two [int]s: the exact quotient, rounded once. *)
Definition int_truediv (a b : Z) : result float :=
  if b =? 0 then Raise ZeroDivisionError
  else
    let x := SFdiv prec emax (raw a) (raw b) in
    if is_infinity x then Raise OverflowError else Ok x.

(** A decimal literal [n/d] of the source text, e.g. [0.05] is
    [decimal 5 100]: the binary64 number nearest to it. *)
Definition decimal (n d : Z) : float := SFdiv prec emax (raw n) (raw d).

(** [int(x)]: truncation toward zero. *)
Definition int_of_float (x : float) : result Z :=
  match x with
  | S754_zero _ => Ok 0
  | S754_finite s m e =>
      let a := Z.shiftl (Zpos m) e in
      Ok (if s then - a else a)
  | S754_infinity _ => Raise OverflowError
  | S754_nan => Raise ValueError
  end.

(** The rational value of a finite float. *)
Definition to_Q (x : float) : Q :=
  match x with
  | S754_finite s m e =>
      let v := if 0 <=? e then inject_Z (Zpos m * 2 ^ e)
               else Qmake (Zpos m) (Z.to_pos (2 ^ (- e))) in
      if s then Qopp v else v
  | _ => 0%Q
  end.

Abbreviation fexp := (SpecFloat.fexp prec emax).

(** A zero, or a finite number in canonical form whose magnitude is below
    [2^n]. *)
Definition nice (n : Z) (x : float) : Prop :=
  match x with
  | S754_zero _ => True
  | S754_finite _ m e =>
      fexp (Zdigits2 (Zpos m) + e) = e /\ e <= 971 /\ Zdigits2 (Zpos m) + e <= n
  | _ => False
  end.

(** A zero, or a finite number whose sign bit is [s]. *)
Definition has_sign (s : bool) (x : float) : Prop :=
  match x with
  | S754_zero _ => True
  | S754_finite s' _ _ => s' = s
  | _ => False
  end.

(** [nice], as a test. *)
Definition niceb (n : Z) (x : float) : bool :=
  match x with
  | S754_zero _ => true
  | S754_finite _ m e =>
      (fexp (Zdigits2 (Zpos m) + e) =? e) && (e <=? 971)
      && (Zdigits2 (Zpos m) + e <=? n)
  | _ => false
  end.

End PyFloat.

(* ===================================================================== *)
(** * generate_vin_data.py *)
(* ===================================================================== *)

(** Python's [l[i]]: a negative index counts from the end. *)
Definition py_index {A : Type} (l : list A) (i : Z) : result A :=
  let n := Z.of_nat (length l) in
  let j := if i <? 0 then i + n else i in
  if (j <? 0) || (n <=? j) then Raise IndexError
  else match nth_error l (Z.to_nat j) with
       | Some a => Ok a
       | None => Raise IndexError
       end.

Module VINGenerator.
Import PyStr PyFloat.

(** The call sites of [_seeded_random], in the order of the source text. *)
Inductive draw_site : Set :=
  | PlantLetter          (* generate_pre_1981_vin *)
  | MileageRate          (* generate_mileage: avg_miles_per_year *)
  | MileageRoll          (* generate_mileage: roll *)
  | ConditionRoll        (* generate_condition *)
  | StateRoll            (* generate_state *)
  | ColorPick            (* generate_color *)
  | OptionCount          (* generate_options: option_count *)
  | OptionPick           (* generate_options: one loop iteration *)
  | ValueVariance        (* calculate_value *)
  | ServiceOffset        (* generate_instance: days_ago *)
  | MileageVerified      (* generate_instance: 'mileage_verified' *)
  | RegistrationStatus   (* generate_instance: 'registration_status' *)
  | TitleStatus          (* generate_instance: 'title_status' *)
  | MatchingNumbers.     (* generate_instance: 'matching_numbers' *)

(** A [VINGenerator] object. [draws] is not a field of the class: it
    records, oldest first, which call site made each call of
    [_seeded_random], so that the order of the draws can be stated. *)
Record generator := {
  seed : Z;
  state : Z;
  draws : list draw_site
}.

(** [__init__]. *)
Definition init (seed : Z) : generator :=
  {| seed := seed; state := seed; draws := [] |}.

(** A method of the generator: it reads and updates [self] and returns a
    value or raises. *)
Definition Gen (A : Type) : Type := generator -> result (A * generator).

Definition ret {A : Type} (a : A) : Gen A := fun g => Ok (a, g).

Definition bind {A B : Type} (m : Gen A) (k : A -> Gen B) : Gen B :=
  fun g =>
    match m g with
    | Ok (a, g') => k a g'
    | Raise e => Raise e
    end.

Definition lift {A : Type} (r : result A) : Gen A :=
  fun g =>
    match r with
    | Ok a => Ok (a, g)
    | Raise e => Raise e
    end.

Notation "x <- m ;; k" := (bind m (fun x => k))
  (at level 100, m at next level, right associativity).

(** The state after one step of the linear congruential generator. *)
Definition lcg_next (s : Z) : Z := (s * 1664525 + 1013904223) mod 4294967296.

Definition _seeded_random (site : draw_site) : Gen float :=
  fun g =>
    let g' := {| seed := seed g;
                 state := lcg_next (state g);
                 draws := draws g ++ [site] |} in
    rbind (int_truediv (state g') 4294967296) (fun x => Ok (x, g')).

(** [hash_string]: [ord] of an ASCII character is its code. *)
Fixpoint hash_string_loop (s : string) (hash_val : Z) : Z :=
  match s with
  | EmptyString => hash_val
  | String char s' =>
      let hash_val := (Z.shiftl hash_val 5 - hash_val) + Z.of_N (N_of_ascii char) in
      hash_string_loop s' (Z.land hash_val 4294967295)
  end.

Definition hash_string (s : string) : Z := Z.abs (hash_string_loop s 0).

Definition plants : list ascii := ["R"; "F"; "T"; "D"; "A"]%char.

Definition len {A : Type} (l : list A) : Z := Z.of_nat (length l).

Definition serial_of (index : Z) : string := zfill 6 (str_of_int (100000 + index)).

Definition generate_pre_1981_vin (manufacturer : string) (year index : Z)
    : Gen string :=
  year_code <- lift (match last_char (str_of_int year) with
                     | Some c => Ok c
                     | None => Raise IndexError
                     end) ;;
  r <- _seeded_random PlantLetter ;;
  i <- lift (int_of_float (fmul r (of_Z (len plants)))) ;;
  plant <- lift (py_index plants i) ;;
  let serial := serial_of index in
  ret (String year_code (String plant ("01C" +:+ serial))).

Definition year_codes : string := "ABCDEFGHJKLMNPRSTVWXY123456789".

(** [s[i]] on a string, as [py_index] on its characters. *)
Definition str_index (s : string) (i : Z) : result ascii :=
  py_index (list_ascii_of_string s) i.

Definition generate_post_1981_vin (manufacturer : string) (year index : Z)
    : Gen string :=
  let country := "1" in
  let mfr_code := upper (take 2 manufacturer) in
  let year_index := (year - 1980) mod Z.of_nat (String.length year_codes) in
  year_code <- lift (str_index year_codes year_index) ;;
  let plant := "F" in
  let serial := serial_of index in
  ret (country +:+ mfr_code +:+ "BP40E9" +:+ String year_code (plant +:+ serial)).

Definition generate_mileage (year : Z) : Gen Z :=
  let age := 2025 - year in
  r <- _seeded_random MileageRate ;;
  let avg_miles_per_year := fadd (of_Z 5000) (fmul r (of_Z 7000)) in
  age_f <- lift (float_of_int age) ;;
  let base_mileage := fmul age_f avg_miles_per_year in
  roll <- _seeded_random MileageRoll ;;
  if flt roll (decimal 20 100) then lift (int_of_float (fmul base_mileage (decimal 3 10)))
  else if flt roll (decimal 70 100) then lift (int_of_float (fmul base_mileage (decimal 8 10)))
  else if flt roll (decimal 95 100) then lift (int_of_float (fmul base_mileage (decimal 15 10)))
  else lift (int_of_float (fmul base_mileage (decimal 25 10))).

(** The dictionary [{'rating': ..., 'description': ...}]. *)
Record condition := {
  rating : Z;
  description : string
}.

Definition generate_condition : Gen condition :=
  roll <- _seeded_random ConditionRoll ;;
  if flt roll (decimal 5 100) then ret {| rating := 5; description := "Concours" |}
  else if flt roll (decimal 20 100) then ret {| rating := 4; description := "Excellent" |}
  else if flt roll (decimal 55 100) then ret {| rating := 3; description := "Good" |}
  else if flt roll (decimal 85 100) then ret {| rating := 2; description := "Fair" |}
  else ret {| rating := 1; description := "Project" |}.

Definition states : list (string * Z) :=
  [("CA", 15); ("TX", 8); ("FL", 7); ("AZ", 5);
   ("OH", 4); ("MI", 4); ("NY", 3); ("PA", 3)].

(** The loop of [generate_state]; [None] when it runs to its end. *)
Fixpoint generate_state_loop (l : list (string * Z)) (roll : float) : option string :=
  match l with
  | [] => None
  | (code, weight) :: l' =>
      let roll := fsub roll (of_Z weight) in
      if fle roll (of_Z 0) then Some code else generate_state_loop l' roll
  end.

Definition generate_state : Gen string :=
  let total_weight := fold_right Z.add 0 (map snd states) in
  r <- _seeded_random StateRoll ;;
  let roll := fmul r (of_Z total_weight) in
  match generate_state_loop states roll with
  | Some code => ret code
  | None => ret "CA"
  end.

Definition pre_1970_colors : list string :=
  ["Wimbledon White"; "Candy Apple Red"; "Springtime Yellow";
   "Arcadian Blue"; "Ivy Gold"; "Silver Smoke Gray"].

Definition post_1970_colors : list string :=
  ["Bright Red"; "Black"; "White"; "Silver Metallic";
   "Dark Blue Metallic"; "Green Metallic"].

Definition generate_color (year : Z) : Gen string :=
  let colors := if year <? 1970 then pre_1970_colors else post_1970_colors in
  r <- _seeded_random ColorPick ;;
  i <- lift (int_of_float (fmul r (of_Z (len colors)))) ;;
  lift (py_index colors i).

Definition all_options : list string :=
  ["Power Steering"; "Power Disc Brakes"; "Air Conditioning";
   "GT Equipment Group"; "Interior Decor Group"; "Rally Pac Gauges";
   "AM/FM Radio"; "Tinted Glass"].

(** [option in selected_options]. *)
Definition mem_str (x : string) (l : list string) : bool :=
  existsb (String.eqb x) l.

(** [n] iterations of the loop of [generate_options]. *)
Fixpoint generate_options_loop (n : nat) (selected_options : list string)
    : Gen (list string) :=
  match n with
  | O => ret selected_options
  | S n' =>
      r <- _seeded_random OptionPick ;;
      i <- lift (int_of_float (fmul r (of_Z (len all_options)))) ;;
      option <- lift (py_index all_options i) ;;
      generate_options_loop n'
        (if mem_str option selected_options then selected_options
         else selected_options ++ [option])
  end.

Definition generate_options (condition_rating : Z) : Gen (list string) :=
  r <- _seeded_random OptionCount ;;
  rating_f <- lift (float_of_int condition_rating) ;;
  option_count <- lift (int_of_float (fmul (fmul rating_f r) (of_Z 3))) ;;
  generate_options_loop (Z.to_nat (Z.min option_count (len all_options))) [].

(** [base_values[condition_rating]]. *)
Definition base_values (condition_rating : Z) : result Z :=
  if condition_rating =? 5 then Ok 100000
  else if condition_rating =? 4 then Ok 65000
  else if condition_rating =? 3 then Ok 40000
  else if condition_rating =? 2 then Ok 25000
  else if condition_rating =? 1 then Ok 15000
  else Raise KeyError.

(** The variable [value] of [calculate_value] holds an [int] until a
    float is multiplied in. *)
Inductive number : Type :=
  | Int (z : Z)
  | Float (x : float).

Definition number_mul_float (v : number) (y : float) : result float :=
  match v with
  | Int z => rbind (float_of_int z) (fun x => Ok (fmul x y))
  | Float x => Ok (fmul x y)
  end.

Definition number_add_int (v : number) (n : Z) : result number :=
  match v with
  | Int z => Ok (Int (z + n))
  | Float x => rbind (float_of_int n) (fun y => Ok (Float (fadd x y)))
  end.

Definition calculate_value (condition_rating mileage : Z) (options : list string)
    : Gen Z :=
  value <- lift (base_values condition_rating) ;;
  value <- lift (if mileage <? 50000
                 then rbind (number_mul_float (Int value) (decimal 12 10))
                            (fun x => Ok (Float x))
                 else if 150000 <? mileage
                 then rbind (number_mul_float (Int value) (decimal 8 10))
                            (fun x => Ok (Float x))
                 else Ok (Int value)) ;;
  value <- lift (number_add_int value (len options * 2000)) ;;
  r <- _seeded_random ValueVariance ;;
  value <- lift (number_mul_float value (fadd (decimal 9 10) (fmul r (decimal 2 10)))) ;;
  lift (int_of_float value).

(** The vehicle record read from the index. *)
Record vehicle := {
  vehicle_id : string;
  manufacturer : string;
  model : string;
  year : Z;
  body_class : string;
  instance_count : Z
}.

(** The dictionary returned by [generate_instance]. [last_service_date]
    is the day whose ['%Y-%m-%d'] text the record holds, counted in days
    as [date.toordinal] counts them. *)
Record instance := {
  vin : string;
  i_manufacturer : string;
  i_model : string;
  i_year : Z;
  i_body_class : string;
  i_vehicle_id : string;
  condition_rating : Z;
  condition_description : string;
  mileage : Z;
  mileage_verified : bool;
  registered_state : string;
  registration_status : string;
  title_status : string;
  exterior_color : string;
  factory_options : list string;
  estimated_value : Z;
  matching_numbers : bool;
  last_service_date : Z
}.

(** [generate_instance]; [today] is the day of [datetime.now()]. *)
Definition generate_instance (today : Z) (vehicle_data : vehicle) (index : Z)
    : Gen instance :=
  let manufacturer := manufacturer vehicle_data in
  let model := model vehicle_data in
  let year := year vehicle_data in
  let body_class := body_class vehicle_data in
  let vehicle_id := vehicle_id vehicle_data in
  vin <- (if year <=? 1980
          then generate_pre_1981_vin manufacturer year index
          else generate_post_1981_vin manufacturer year index) ;;
  condition <- generate_condition ;;
  mileage <- generate_mileage year ;;
  state <- generate_state ;;
  color <- generate_color year ;;
  options <- generate_options (rating condition) ;;
  value <- calculate_value (rating condition) mileage options ;;
  r <- _seeded_random ServiceOffset ;;
  days_ago <- lift (int_of_float (fmul r (of_Z 180))) ;;
  let last_service := today - days_ago in
  r_verified <- _seeded_random MileageVerified ;;
  r_registration <- _seeded_random RegistrationStatus ;;
  r_title <- _seeded_random TitleStatus ;;
  r_matching <- _seeded_random MatchingNumbers ;;
  ret {| vin := vin;
         i_manufacturer := manufacturer;
         i_model := model;
         i_year := year;
         i_body_class := body_class;
         i_vehicle_id := vehicle_id;
         condition_rating := rating condition;
         condition_description := description condition;
         mileage := mileage;
         mileage_verified := fgt r_verified (decimal 2 10);
         registered_state := state;
         registration_status :=
           if fgt r_registration (decimal 55 100) then "Active" else "Historic";
         title_status := if fgt r_title (decimal 1 10) then "Clean" else "Rebuilt";
         exterior_color := color;
         factory_options := options;
         estimated_value := value;
         matching_numbers := fgt r_matching (decimal 4 10);
         last_service_date := last_service |}.

(** ** Notions used to state the properties *)

(** The generator after one more draw made at [site]. *)
Definition after_draw (g : generator) (site : draw_site) : generator :=
  {| seed := seed g; state := lcg_next (state g); draws := draws g ++ [site] |}.

(** The generator after the draws made at [sites], in that order. *)
Definition after_draws (g : generator) (sites : list draw_site) : generator :=
  fold_left after_draw sites g.

(** The draws of one call after the VIN is built: [n] options are picked. *)
Definition attribute_draws (n : nat) : list draw_site :=
  ([ConditionRoll; MileageRate; MileageRoll; StateRoll; ColorPick; OptionCount]
   ++ repeat OptionPick n
   ++ [ValueVariance; ServiceOffset; MileageVerified; RegistrationStatus;
       TitleStatus; MatchingNumbers])%list.

(** The VIN step of [generate_instance]. *)
Definition generate_vin (vehicle_data : vehicle) (index : Z) : Gen string :=
  if year vehicle_data <=? 1980
  then generate_pre_1981_vin (manufacturer vehicle_data) (year vehicle_data) index
  else generate_post_1981_vin (manufacturer vehicle_data) (year vehicle_data) index.

(** The magnitude of an [int] or [float] value. *)
Definition number_nice (n : Z) (v : number) : Prop :=
  match v with
  | Int z => Z.abs z < 2 ^ (n - 1) /\ 1 <= n
  | Float x => nice n x
  end.

(** The record with its service date blanked. *)
Definition without_date (r : instance) : instance :=
  {| vin := vin r;
     i_manufacturer := i_manufacturer r;
     i_model := i_model r;
     i_year := i_year r;
     i_body_class := i_body_class r;
     i_vehicle_id := i_vehicle_id r;
     condition_rating := condition_rating r;
     condition_description := condition_description r;
     mileage := mileage r;
     mileage_verified := mileage_verified r;
     registered_state := registered_state r;
     registration_status := registration_status r;
     title_status := title_status r;
     exterior_color := exterior_color r;
     factory_options := factory_options r;
     estimated_value := estimated_value r;
     matching_numbers := matching_numbers r;
     last_service_date := 0 |}.

(** What a call leaves when the day it was made on is forgotten: the
    exception, or the record without its date, the number of days the date
    lies back, and the generator. *)
Definition outcome (today : Z) (res : result (instance * generator))
    : result (instance * Z * generator) :=
  match res with
  | Ok (r, g') => Ok (without_date r, today - last_service_date r, g')
  | Raise e => Raise e
  end.

(** The order of the draws that the specification lists: the four flags
    before the service-date offset, and nothing before the condition roll. *)
Definition claimed_draws (n : nat) : list draw_site :=
  ([ConditionRoll; MileageRate; MileageRoll; StateRoll; ColorPick; OptionCount]
   ++ repeat OptionPick n
   ++ [ValueVariance; MileageVerified; RegistrationStatus; TitleStatus;
       MatchingNumbers; ServiceOffset])%list.

(** The year code of a post-1981 VIN is the character of [year_codes] at
    index [(year - 1980) mod size]. *)
Definition year_code_at (size year : Z) : Prop :=
  forall manufacturer index g,
  exists year_code,
    str_index year_codes ((year - 1980) mod size) = Ok year_code
    /\ generate_post_1981_vin manufacturer year index g
       = Ok ("1" +:+ upper (take 2 manufacturer) +:+ "BP40E9"
             +:+ String year_code ("F" +:+ serial_of index), g).

(** Sample vehicles. *)
Definition mustang_1967 : vehicle :=
  {| vehicle_id := "ford-mustang-1967"; manufacturer := "Ford";
     model := "Mustang"; year := 1967; body_class := "Coupe";
     instance_count := 10 |}.

Definition f150_2020 : vehicle :=
  {| vehicle_id := "ford-f150-2020"; manufacturer := "Ford";
     model := "F-150"; year := 2020; body_class := "Pickup";
     instance_count := 10 |}.

Definition fairmont_1980 : vehicle :=
  {| vehicle_id := "ford-fairmont-1980"; manufacturer := "Ford";
     model := "Fairmont"; year := 1980; body_class := "Sedan";
     instance_count := 4 |}.

Definition escort_1981 : vehicle :=
  {| vehicle_id := "ford-escort-1981"; manufacturer := "Ford";
     model := "Escort"; year := 1981; body_class := "Hatchback";
     instance_count := 6 |}.

Definition focus_2011 : vehicle :=
  {| vehicle_id := "ford-focus-2011"; manufacturer := "Ford";
     model := "Focus"; year := 2011; body_class := "Sedan";
     instance_count := 8 |}.

(** A vehicle whose manufacturer name has one letter. *)
Definition f_coupe_1981 : vehicle :=
  {| vehicle_id := "f-coupe-1981"; manufacturer := "F";
     model := "Coupe"; year := 1981; body_class := "Coupe";
     instance_count := 5 |}.

End VINGenerator.

(** ** distribute_vins_across_vehicles *)

Module Distribution.
Import PyFloat.
Import VINGenerator(vehicle, instance_count, len).

Notation "x <~ m ;; k" := (rbind m (fun x => k))
  (at level 100, m at next level, right associativity).

(** One element [{'vehicle': ..., 'vin_count': ...}] of the distribution. *)
Record allocation := {
  a_vehicle : vehicle;
  vin_count : Z
}.

Definition min_vins_per_vehicle : Z := 5.

(** [sum(v['instance_count'] for v in vehicles)]. *)
Definition total_instances_of (vehicles : list vehicle) : Z :=
  fold_right Z.add 0 (map instance_count vehicles).

(** [sum(d['vin_count'] for d in distribution)]. *)
Definition total_vins (distribution : list allocation) : Z :=
  fold_right Z.add 0 (map vin_count distribution).

(** The first loop: the proportional share of every vehicle, raised to the
    minimum. *)
Fixpoint proportional (vehicles : list vehicle) (target_count total_instances : Z)
    : result (list allocation) :=
  match vehicles with
  | [] => Ok []
  | vehicle :: rest =>
      proportion <~ int_truediv (instance_count vehicle) total_instances ;;
      target_f <~ float_of_int target_count ;;
      share <~ int_of_float (fmul target_f proportion) ;;
      let allocated_vins := Z.max min_vins_per_vehicle share in
      distribution <~ proportional rest target_count total_instances ;;
      Ok ({| a_vehicle := vehicle; vin_count := allocated_vins |} :: distribution)
  end.

(** [distribution.sort(key=..., reverse=True)]: stable, largest
    [instance_count] first. *)
Fixpoint insert_desc (d : allocation) (l : list allocation) : list allocation :=
  match l with
  | [] => [d]
  | d' :: l' =>
      if instance_count (a_vehicle d') <=? instance_count (a_vehicle d)
      then d :: l
      else d' :: insert_desc d l'
  end.

Definition sort_desc (l : list allocation) : list allocation :=
  fold_right insert_desc [] l.

(** [a % b] on [int]s. *)
Definition py_mod (a b : Z) : result Z :=
  if b =? 0 then Raise ZeroDivisionError else Ok (a mod b).

Definition add_vins (delta : Z) (d : allocation) : allocation :=
  {| a_vehicle := a_vehicle d; vin_count := vin_count d + delta |}.

(** One iteration of [for i in range(diff)]. *)
Definition add_step (distribution : list allocation) (i : Z)
    : result (list allocation) :=
  j <~ py_mod i (len distribution) ;;
  d <~ py_index distribution j ;;
  Ok (<[Z.to_nat j := add_vins 1 d]> distribution).

(** One iteration of [for i in range(abs(diff))]. *)
Definition remove_step (distribution : list allocation) (i : Z)
    : result (list allocation) :=
  j <~ py_mod i (len distribution) ;;
  d <~ py_index distribution j ;;
  if min_vins_per_vehicle <? vin_count d
  then Ok (<[Z.to_nat j := add_vins (-1) d]> distribution)
  else Ok distribution.

(** [for i in range(n): distribution = step(distribution, i)], from
    [i = start]. *)
Fixpoint for_range (step : list allocation -> Z -> result (list allocation))
    (n : nat) (start : Z) (distribution : list allocation)
    : result (list allocation) :=
  match n with
  | O => Ok distribution
  | S n' =>
      distribution <~ step distribution start ;;
      for_range step n' (start + 1) distribution
  end.

Definition distribute_vins_across_vehicles (vehicles : list vehicle)
    (target_count : Z) : result (list allocation) :=
  let total_instances := total_instances_of vehicles in
  distribution <~ proportional vehicles target_count total_instances ;;
  let current_total := total_vins distribution in
  if current_total =? target_count then Ok distribution
  else
    let distribution := sort_desc distribution in
    let diff := target_count - current_total in
    if 0 <? diff
    then for_range add_step (Z.to_nat diff) 0 distribution
    else for_range remove_step (Z.to_nat (Z.abs diff)) 0 distribution.

(** Every allocation is at least the minimum. *)
Definition all_at_least_min (distribution : list allocation) : Prop :=
  Forall (fun d => min_vins_per_vehicle <= vin_count d) distribution.

(** A vehicle with the given [instance_count]. *)
Definition vehicle_of_count (n : Z) : vehicle :=
  {| VINGenerator.vehicle_id := "v"; VINGenerator.manufacturer := "Ford";
     VINGenerator.model := "Mustang"; VINGenerator.year := 1967;
     VINGenerator.body_class := "Coupe"; VINGenerator.instance_count := n |}.

End Distribution.

(** ** generate_all_vins *)

Module Pipeline.
Import VINGenerator Distribution.

Section WithClock.

(** The day of [datetime.now()] in the call of [generate_instance] that is
    made when [all_vins] holds [n] records. *)
Variable day_of_call : nat -> Z.

(** [for i in range(vin_count)], with [n] iterations left from [i]. *)
Fixpoint generate_vehicle_vins (n : nat) (vehicle : VINGenerator.vehicle) (i : Z)
    (generator : VINGenerator.generator) (all_vins : list instance)
    : result (list instance * VINGenerator.generator) :=
  match n with
  | O => Ok (all_vins, generator)
  | S n' =>
      match generate_instance (day_of_call (length all_vins)) vehicle i generator with
      | Ok (vin_instance, generator) =>
          generate_vehicle_vins n' vehicle (i + 1) generator
            (all_vins ++ [vin_instance])%list
      | Raise e => Raise e
      end
  end.

(** [for idx, item in enumerate(distribution)]. *)
Fixpoint generate_all_vins_loop (distribution : list allocation)
    (all_vins : list instance) : result (list instance) :=
  match distribution with
  | [] => Ok all_vins
  | item :: rest =>
      let vehicle := a_vehicle item in
      let vin_count := vin_count item in
      let seed := hash_string (vehicle_id vehicle) in
      let generator := init seed in
      match generate_vehicle_vins (Z.to_nat vin_count) vehicle 0 generator all_vins with
      | Ok (all_vins, _) => generate_all_vins_loop rest all_vins
      | Raise e => Raise e
      end
  end.

Definition generate_all_vins (distribution : list allocation)
    : result (list instance) :=
  generate_all_vins_loop distribution [].

End WithClock.

(** The record was generated for the vehicle: its five copied fields are
    the vehicle's. *)
Definition made_for (v : vehicle) (r : instance) : Prop :=
  i_vehicle_id r = vehicle_id v /\ i_manufacturer r = manufacturer v
  /\ i_model r = model v /\ i_year r = year v /\ i_body_class r = body_class v.

End Pipeline.

(* ===================================================================== *)
(** * Facts about strings *)
(* ===================================================================== *)

Section StringFacts.
Import PyStr.

Lemma is_space_lower_ascii c : is_space (lower_ascii c) = is_space c.
Proof.
  destruct c as [[] [] [] [] [] [] [] []]; reflexivity.
Qed.

Lemma lower_lstrip s : lower (lstrip s) = lstrip (lower s).
Proof.
  induction s as [|c s IH]; simpl; [reflexivity|].
  rewrite is_space_lower_ascii. destruct (is_space c); [exact IH | reflexivity].
Qed.

Lemma lower_rstrip s : lower (rstrip s) = rstrip (lower s).
Proof.
  induction s as [|c s IH]; simpl; [reflexivity|].
  rewrite <- IH, is_space_lower_ascii.
  destruct (rstrip s); simpl; [destruct (is_space c)|]; reflexivity.
Qed.

Lemma lower_strip s : lower (strip s) = strip (lower s).
Proof. unfold strip. now rewrite lower_rstrip, lower_lstrip. Qed.

Lemma prefix_cons a w c s :
  String.prefix (String a w) (String c s) = Ascii.eqb a c && String.prefix w s.
Proof.
  simpl. destruct (Ascii.eqb_spec a c) as [->|Hne].
  - destruct (ascii_dec c c); [reflexivity | contradiction].
  - destruct (ascii_dec a c); [contradiction | reflexivity].
Qed.

Lemma prefix_nil s : String.prefix "" s = true.
Proof. destruct s; reflexivity. Qed.

Lemma prefix_spec w : forall s,
  String.prefix w s = true <-> exists q, s = w +:+ q.
Proof.
  induction w as [|a w IH]; intros s.
  - rewrite prefix_nil. split; [|reflexivity]. intros _. now exists s.
  - destruct s as [|c s].
    + split; [discriminate|]. intros [q Hq]. discriminate Hq.
    + cbn [String.prefix]. destruct (Ascii.ascii_dec a c) as [->|Hne].
      * rewrite IH. split; intros [q Hq]; exists q.
        -- now rewrite Hq.
        -- change (String c w +:+ q) with (String c (w +:+ q)) in Hq. congruence.
      * split; [discriminate|]. intros [q Hq].
        change (String a w +:+ q) with (String a (w +:+ q)) in Hq. congruence.
Qed.

Lemma append_assoc (a b c : string) : (a +:+ b) +:+ c = a +:+ (b +:+ c).
Proof.
  induction a as [|x a IH]; [reflexivity|].
  change (String x ((a +:+ b) +:+ c) = String x (a +:+ (b +:+ c))). now rewrite IH.
Qed.

Lemma contains_spec w : forall s,
  contains w s = true <-> exists p q, s = p +:+ (w +:+ q).
Proof.
  induction s as [|c s IH].
  - cbn [contains]. rewrite orb_false_r, prefix_spec. split.
    + intros [q Hq]. now exists "", q.
    + intros (p & q & H). destruct p as [|x p]; [now exists q|discriminate H].
  - cbn [contains]. rewrite orb_true_iff, prefix_spec, IH. split.
    + intros [[q Hq] | (p & q & Hpq)].
      * now exists "", q.
      * exists (String c p), q. now rewrite Hpq.
    + intros (p & q & H). destruct p as [|x p].
      * left. now exists q.
      * right. exists p, q.
        change (String x p +:+ (w +:+ q)) with (String x (p +:+ (w +:+ q))) in H.
        congruence.
Qed.

Lemma contains_lstrip w s :
  solid w = true -> contains w (lstrip s) = contains w s.
Proof.
  intros Hw. destruct w as [|a w]; [discriminate|].
  apply andb_prop in Hw as [Ha _]. apply negb_true_iff in Ha.
  induction s as [|c s IH]; [reflexivity|].
  cbn [lstrip]. destruct (is_space c) eqn:Hc; [|reflexivity].
  rewrite IH. cbn [contains]. rewrite prefix_cons.
  destruct (Ascii.eqb_spec a c) as [->|]; [congruence | reflexivity].
Qed.

Lemma prefix_rstrip w s :
  (exists d, last_char w = Some d /\ is_space d = false) ->
  String.prefix w (rstrip s) = String.prefix w s.
Proof.
  revert w. induction s as [|c s IH]; intros w Hw; [reflexivity|].
  destruct w as [|a w]; [destruct Hw as (d & Hd & _); discriminate|].
  rewrite prefix_cons. cbn [rstrip].
  destruct w as [|b w].
  - destruct Hw as (d & Hd & Hsp). injection Hd as <-.
    destruct (rstrip s).
    + destruct (is_space c) eqn:Hc.
      * simpl. destruct (Ascii.eqb_spec a c) as [->|]; [congruence | reflexivity].
      * now rewrite prefix_cons, !prefix_nil.
    + now rewrite prefix_cons, !prefix_nil.
  - assert (Hw' : exists d, last_char (String b w) = Some d /\ is_space d = false).
    { destruct Hw as (d & Hd & Hsp). exists d. split; [exact Hd | exact Hsp]. }
    specialize (IH _ Hw'). rewrite <- IH.
    destruct (rstrip s).
    + rewrite andb_false_r.
      destruct (is_space c); simpl; [reflexivity|].
      destruct (ascii_dec a c); reflexivity.
    + now rewrite prefix_cons.
Qed.

Lemma contains_rstrip w s :
  solid w = true -> contains w (rstrip s) = contains w s.
Proof.
  intros Hw.
  assert (Hlast : exists d, last_char w = Some d /\ is_space d = false).
  { destruct w as [|a w]; [discriminate|]. apply andb_prop in Hw as [_ Hl].
    destruct (last_char (String a w)) as [d|]; [|discriminate].
    exists d. split; [reflexivity|]. now apply negb_true_iff. }
  assert (Hne : String.prefix w "" = false).
  { destruct w; [discriminate | reflexivity]. }
  induction s as [|c s IH]; [reflexivity|].
  cbn [contains]. rewrite <- IH, <- (prefix_rstrip w (String c s) Hlast).
  cbn [rstrip]. destruct (rstrip s) eqn:Hr.
  - destruct (is_space c); cbn [contains]; rewrite ?Hne; simpl;
      now rewrite ?orb_false_r.
  - reflexivity.
Qed.

Lemma contains_strip w s :
  solid w = true -> contains w (strip s) = contains w s.
Proof.
  intros Hw. unfold strip. now rewrite contains_rstrip, contains_lstrip.
Qed.

Lemma any_in_lower_strip words s :
  forallb solid words = true ->
  any_in words (lower (strip s)) = any_in words (lower s).
Proof.
  intros Hw. unfold any_in. rewrite lower_strip.
  induction words as [|w words IH]; [reflexivity|].
  simpl in *. apply andb_prop in Hw as [Hw Hws].
  now rewrite contains_strip, IH.
Qed.

End StringFacts.

(* ===================================================================== *)
(** * The classifier *)
(* ===================================================================== *)

Section ClassifierFacts.
Import PyStr Classifier.

Variable re_search : string -> string -> bool.

Lemma sum_counts_empty : sum_counts ∅ = 0.
Proof. unfold sum_counts. apply map_fold_empty. Qed.

Lemma sum_counts_insert_fresh (m : gmap string Z) k n :
  m !! k = None -> sum_counts (<[k := n]> m) = n + sum_counts m.
Proof.
  intros Hk. unfold sum_counts.
  rewrite map_fold_insert_L; [reflexivity | intros; lia | exact Hk].
Qed.

Lemma sum_counts_insert (m : gmap string Z) k n :
  sum_counts (<[k := n]> m) = sum_counts m - count_of m k + n.
Proof.
  unfold count_of. destruct (m !! k) as [old|] eqn:Hk.
  - rewrite <- (insert_delete_id m k old Hk) at 2.
    rewrite <- insert_delete_eq.
    rewrite !sum_counts_insert_fresh by apply lookup_delete_eq. lia.
  - rewrite sum_counts_insert_fresh by exact Hk. lia.
Qed.

Lemma update_by_body_class s b :
  by_body_class (_update_body_class_stats s b)
  = <[b := count_of (by_body_class s) b + 1]> (by_body_class s).
Proof.
  unfold _update_body_class_stats, count_of. cbn [by_body_class].
  destruct (by_body_class s !! b) as [n|] eqn:Hb.
  - now rewrite Hb.
  - now rewrite lookup_insert_eq, insert_insert_eq.
Qed.

Lemma update_sum_counts s b :
  sum_counts (by_body_class (_update_body_class_stats s b))
  = sum_counts (by_body_class s) + 1.
Proof. rewrite update_by_body_class, sum_counts_insert. lia. Qed.

Lemma classify_one_more c manufacturer model year :
  one_more (stats c) (stats (snd (classify re_search c manufacturer model year))).
Proof.
  unfold classify, one_more, counters_sum.
  repeat match goal with
         | |- context [if ?b then _ else _] => destruct b
         end;
    cbn [snd stats with_stats]; rewrite update_by_body_class;
    cbn; (repeat split; try lia; eauto).
Qed.

Lemma one_more_invariant s s' :
  stats_invariant s -> one_more s s' -> stats_invariant s'.
Proof.
  intros [Hc Hb] (Ht & Hs & _ & _ & _ & _ & _ & b & Hm).
  split; [lia|]. rewrite Hm, sum_counts_insert. lia.
Qed.

Lemma classify_all_invariant calls : forall c,
  stats_invariant (stats c) ->
  stats_invariant (stats (snd (classify_all re_search c calls))).
Proof.
  induction calls as [|[[m md] y] calls IH]; intros c Hc; [exact Hc|].
  cbn [classify_all].
  pose proof (classify_one_more c m md y) as Hstep.
  destruct (classify re_search c m md y) as [r c'] eqn:Hcl.
  specialize (IH c' (one_more_invariant _ _ Hc Hstep)).
  destruct (classify_all re_search c' calls) as [rs c'']. exact IH.
Qed.

Lemma classify_fallback c manufacturer model year :
  no_rule_matches re_search c manufacturer model year ->
  fst (classify re_search c manufacturer model year)
  = (_fallback_classification (strip manufacturer) (strip model) year, "fallback").
Proof.
  intros (H1 & H2 & H3 & H4). unfold classify.
  now rewrite H1, H2, H3, H4.
Qed.

Lemma truthy_some o : truthy o = true -> exists b, o = Some b /\ b <> "".
Proof.
  destruct o as [b|]; [|discriminate]. intros H. exists b. split; [reflexivity|].
  intros ->. discriminate.
Qed.

Lemma fallback_nonempty manufacturer model year :
  _fallback_classification manufacturer model year <> "".
Proof.
  unfold _fallback_classification.
  repeat match goal with
         | |- context [if ?b then _ else _] => destruct b
         end; discriminate.
Qed.

End ClassifierFacts.

(** C10. From a freshly constructed classifier, after any sequence of
    [classify] calls, [stats['total']] equals the sum of the five match-type
    counters and the sum of the counts in [stats['by_body_class']]; and one
    call, on any classifier, adds one to the total, one to exactly one of the
    five counters (each grows by 0 or 1 and their sum by 1), and one to the
    count of exactly one body class. *)
Theorem stats_invariant_after_calls
    (re_search : string -> string -> bool)
    (ovs : list Classifier.override)
    (pats : list (string * Classifier.pattern_data))
    (defaults : list (string * list (string * string)))
    (calls : list (string * string * Z)) :
  Classifier.stats_invariant
    (Classifier.stats
       (snd (Classifier.classify_all re_search (Classifier.init ovs pats defaults) calls)))
  /\ forall c manufacturer model year,
       Classifier.one_more (Classifier.stats c)
         (Classifier.stats (snd (Classifier.classify re_search c manufacturer model year))).
Proof.
  split.
  - apply classify_all_invariant. split; cbn.
    + reflexivity.
    + now rewrite sum_counts_empty.
  - intros. apply classify_one_more.
Qed.

(** C9. [classify] returns a pair for every manufacturer, model and year;
    the body class is never empty; a tier that finds nothing hands over to
    the next one, and when all four find nothing the fallback tier answers. *)
Theorem classify_always_returns
    (re_search : string -> string -> bool) (c : Classifier.classifier)
    (manufacturer model : string) (year : Z) :
  let m := PyStr.strip manufacturer in
  let md := PyStr.strip model in
  let t1 := Classifier._check_historical_override c m md year in
  let t2 := Classifier._check_exact_match c md in
  let t3 := Classifier._check_regex_match re_search c md in
  let t4 := Classifier._check_manufacturer_default c m md in
  exists body_class match_type,
    fst (Classifier.classify re_search c manufacturer model year)
    = (body_class, match_type)
    /\ body_class <> ""
    /\ ((t1 = Some body_class /\ match_type = "historical_override")
        \/ (PyStr.truthy t1 = false /\ t2 = Some body_class
            /\ match_type = "exact_match")
        \/ (PyStr.truthy t1 = false /\ PyStr.truthy t2 = false
            /\ t3 = Some body_class /\ match_type = "regex_match")
        \/ (PyStr.truthy t1 = false /\ PyStr.truthy t2 = false
            /\ PyStr.truthy t3 = false /\ t4 = Some body_class
            /\ match_type = "manufacturer_default")
        \/ (PyStr.truthy t1 = false /\ PyStr.truthy t2 = false
            /\ PyStr.truthy t3 = false /\ PyStr.truthy t4 = false
            /\ body_class = Classifier._fallback_classification m md year
            /\ match_type = "fallback")).
Proof.
  intros m md t1 t2 t3 t4. unfold Classifier.classify.
  fold m md. fold t1 t2 t3 t4.
  destruct (PyStr.truthy t1) eqn:H1.
  { destruct (truthy_some _ H1) as (b & -> & Hb). exists b, "historical_override".
    cbn [fst]. repeat split; [exact Hb | left; split; reflexivity]. }
  destruct (PyStr.truthy t2) eqn:H2.
  { destruct (truthy_some _ H2) as (b & -> & Hb). exists b, "exact_match".
    cbn [fst]. repeat split; [exact Hb | right; left; repeat split]. }
  destruct (PyStr.truthy t3) eqn:H3.
  { destruct (truthy_some _ H3) as (b & -> & Hb). exists b, "regex_match".
    cbn [fst]. repeat split; [exact Hb | right; right; left; repeat split]. }
  destruct (PyStr.truthy t4) eqn:H4.
  { destruct (truthy_some _ H4) as (b & -> & Hb). exists b, "manufacturer_default".
    cbn [fst]. repeat split; [exact Hb | right; right; right; left; repeat split]. }
  exists (Classifier._fallback_classification m md year), "fallback".
  cbn [fst]. repeat split; [apply fallback_nonempty | repeat right; repeat split].
Qed.

(** ** The wording "contains, case-insensitive" and the code's test *)

Section CaseFacts.
Import PyStr Classifier.

Lemma lower_append s t : lower (s +:+ t) = lower s +:+ lower t.
Proof.
  induction s as [|c s IH]; [reflexivity|].
  change (String (lower_ascii c) (lower (s +:+ t))
          = String (lower_ascii c) (lower s +:+ lower t)).
  now rewrite IH.
Qed.

(** A text whose lower-case form is [p] followed by [r] is a text of
    lower-case form [p] followed by one of lower-case form [r]. *)
Lemma lower_split p : forall text r,
  lower text = p +:+ r ->
  exists t1 t2, text = t1 +:+ t2 /\ lower t1 = p /\ lower t2 = r.
Proof.
  induction p as [|a p IH]; intros text r H.
  - exists "", text. now repeat split.
  - destruct text as [|c text]; [discriminate H|].
    change (String (lower_ascii c) (lower text) = String a (p +:+ r)) in H.
    injection H as Hc Ht. destruct (IH text r Ht) as (t1 & t2 & -> & H1 & H2).
    exists (String c t1), t2. repeat split; [|exact H2].
    cbn [lower]. now rewrite Hc, H1.
Qed.

Lemma lower_ascii_code c :
  N_of_ascii (lower_ascii c)
  = (if ((65 <=? N_of_ascii c) && (N_of_ascii c <=? 90))%N
     then N_of_ascii c + 32 else N_of_ascii c)%N.
Proof.
  unfold lower_ascii. pose proof (N_ascii_bounded c) as Hb.
  destruct ((65 <=? N_of_ascii c) && (N_of_ascii c <=? 90))%N eqn:Hc; [|reflexivity].
  apply andb_prop in Hc as [_ Hc]. apply N.leb_le in Hc.
  apply N_ascii_embedding. lia.
Qed.

Lemma N_of_ascii_inj a b : N_of_ascii a = N_of_ascii b -> a = b.
Proof.
  intros H. rewrite <- (ascii_N_embedding a), <- (ascii_N_embedding b). now rewrite H.
Qed.

(** On a small letter or a character that is no letter, "the same letter"
    is what [lower] tests. *)
Lemma same_letter_lower a b :
  lower_ascii b = b -> (same_letter a b <-> lower_ascii a = b).
Proof.
  intros Hb. apply (f_equal N_of_ascii) in Hb. rewrite lower_ascii_code in Hb.
  split.
  - intros [-> | [[Ha Hab] | [Hb' Hab]]].
    + now apply N_of_ascii_inj; rewrite lower_ascii_code.
    + apply N_of_ascii_inj. rewrite lower_ascii_code.
      replace ((65 <=? N_of_ascii a) && (N_of_ascii a <=? 90))%N with true;
        [now rewrite Hab|].
      symmetry. apply andb_true_intro. split; apply N.leb_le; lia.
    + replace ((65 <=? N_of_ascii b) && (N_of_ascii b <=? 90))%N with true in Hb;
        [lia|].
      symmetry. apply andb_true_intro. split; apply N.leb_le; lia.
  - intros <-. unfold same_letter. rewrite lower_ascii_code.
    destruct ((65 <=? N_of_ascii a) && (N_of_ascii a <=? 90))%N eqn:Hc.
    + apply andb_prop in Hc as [H1 H2]. apply N.leb_le in H1, H2.
      right. left. split; [lia | reflexivity].
    + left. apply N_of_ascii_inj. rewrite lower_ascii_code, Hc. reflexivity.
Qed.

Lemma same_text_lower word : lower word = word ->
  forall text, same_text text word <-> lower text = word.
Proof.
  induction word as [|b word IH]; intros Hw text.
  - split.
    + intros H. now inversion H.
    + destruct text; [constructor | discriminate].
  - cbn [lower] in Hw. injection Hw as Hb Hw. split.
    + intros H. inversion H as [|a b' t w' Hab Htw]; subst.
      cbn [lower]. f_equal; [now apply same_letter_lower | now apply IH].
    + destruct text as [|a text]; [discriminate|]. cbn [lower]. intros [= Ha Ht].
      constructor; [now apply same_letter_lower | now apply IH].
Qed.

Lemma occurs_contains word text :
  lower word = word ->
  (occurs_ignoring_case word text <-> contains word (lower text) = true).
Proof.
  intros Hw. rewrite contains_spec. split.
  - intros (before & middle & after & -> & Hm).
    apply (same_text_lower word Hw) in Hm.
    exists (lower before), (lower after). now rewrite !lower_append, Hm.
  - intros (p & q & H).
    destruct (lower_split _ _ _ H) as (before & rest & -> & _ & Hrest).
    destruct (lower_split _ _ _ Hrest) as (middle & after & -> & Hm & _).
    exists before, middle, after. split; [reflexivity|].
    now apply (same_text_lower word Hw).
Qed.

Lemma mentions_a_roadster_test model :
  mentions_a_roadster model
  <-> any_in ["roadster"; "speedster"; "racer"] (lower model) = true.
Proof.
  unfold mentions_a_roadster, any_in. cbn [existsb].
  rewrite !orb_true_iff, !occurs_contains by reflexivity.
  split; [intros [H | [H | H]] | intros [H | [H | [H | H]]]];
    try discriminate; tauto.
Qed.

End CaseFacts.

(** C8. When no override, exact-match, regex or manufacturer-default rule
    matches and the year is before 1930, [classify] answers
    ("Roadster", "fallback") when the model contains "roadster", "speedster"
    or "racer", upper and lower case taken as the same, and
    ("Touring Car", "fallback") when it does not; so the body class is
    "Roadster" exactly when the model contains one of the three words. *)
Theorem fallback_pre_1930
    (re_search : string -> string -> bool) (c : Classifier.classifier)
    (manufacturer model : string) (year : Z) :
  Classifier.no_rule_matches re_search c manufacturer model year ->
  year < 1930 ->
  (Classifier.mentions_a_roadster model ->
   fst (Classifier.classify re_search c manufacturer model year)
   = ("Roadster", "fallback"))
  /\ (~ Classifier.mentions_a_roadster model ->
      fst (Classifier.classify re_search c manufacturer model year)
      = ("Touring Car", "fallback"))
  /\ (fst (fst (Classifier.classify re_search c manufacturer model year)) = "Roadster"
      <-> Classifier.mentions_a_roadster model).
Proof.
  intros Hno Hy. rewrite (classify_fallback _ _ _ _ _ Hno).
  unfold Classifier._fallback_classification.
  apply Z.ltb_lt in Hy. rewrite Hy.
  rewrite any_in_lower_strip by reflexivity.
  rewrite mentions_a_roadster_test.
  destruct (PyStr.any_in ["roadster"; "speedster"; "racer"] (PyStr.lower model)).
  - repeat split; try reflexivity; intros H; congruence.
  - repeat split; try reflexivity; intros H; try congruence; discriminate H.
Qed.

Lemma fallback_pre_1930_witness :
  fst (Classifier.classify (fun _ _ => false) (Classifier.init [] [] [])
         "Stutz" " Bearcat SPEEDster " 1914)
  = ("Roadster", "fallback")
  /\ fst (Classifier.classify (fun _ _ => false) (Classifier.init [] [] [])
            "Ford" "Model T Runabout" 1914)
     = ("Touring Car", "fallback").
Proof.
  split.
  - apply (fallback_pre_1930 (fun _ _ => false) (Classifier.init [] [] [])
             "Stutz" " Bearcat SPEEDster " 1914).
    + repeat split.
    + lia.
    + right. left. exists " Bearcat ", "SPEEDster", " ". split; [reflexivity|].
      repeat (constructor;
              [first [left; reflexivity
                     | right; left; split; [split; discriminate | reflexivity]]|]).
      constructor.
  - apply (fallback_pre_1930 (fun _ _ => false) (Classifier.init [] [] [])
             "Ford" "Model T Runabout" 1914).
    + repeat split.
    + lia.
    + intros H. apply mentions_a_roadster_test in H. discriminate H.
Defined.

(** C3 (as the code behaves). With "F-Series" -> "Pickup" as the only
    manufacturer default of "Ford" and no other rule, the key "f-series" is
    not a substring of "f-150": the manufacturer-default tier finds nothing
    and the answer comes from the fallback tier, by the keyword "150". *)
Theorem f150_is_classified_by_fallback (re_search : string -> string -> bool) :
  let c := Classifier.init [] [] [("Ford", [("F-Series", "Pickup")])] in
  Classifier._check_manufacturer_default c "Ford" "F-150" = None
  /\ PyStr.contains (PyStr.lower "F-Series") (PyStr.lower "F-150") = false
  /\ fst (Classifier.classify re_search c "Ford" "F-150" 2020) = ("Pickup", "fallback").
Proof. repeat split. Qed.

(* ===================================================================== *)
(** * Facts about binary64 arithmetic *)
(* ===================================================================== *)

Section FloatFacts.
Import PyFloat.

(** ** Number of binary digits *)

Lemma digits2_pos_bounds (p : positive) :
  2 ^ (Zpos (digits2_pos p) - 1) <= Zpos p < 2 ^ Zpos (digits2_pos p).
Proof.
  induction p as [p IH|p IH|]; cbn [digits2_pos].
  - rewrite Pos2Z.inj_succ.
    replace (Z.succ (Zpos (digits2_pos p)) - 1) with (Z.succ (Zpos (digits2_pos p) - 1)) by lia.
    rewrite !Z.pow_succ_r by lia. lia.
  - rewrite Pos2Z.inj_succ.
    replace (Z.succ (Zpos (digits2_pos p)) - 1) with (Z.succ (Zpos (digits2_pos p) - 1)) by lia.
    rewrite !Z.pow_succ_r by lia. lia.
  - cbn. lia.
Qed.

Lemma Zdigits2_bounds m :
  0 < m -> 2 ^ (Zdigits2 m - 1) <= m < 2 ^ Zdigits2 m.
Proof.
  destruct m as [|p|p]; try lia. intros _. apply digits2_pos_bounds.
Qed.

Lemma Zdigits2_pos m : 0 < m -> 0 < Zdigits2 m.
Proof. destruct m; cbn; lia. Qed.

Lemma Zdigits2_nonneg m : 0 <= Zdigits2 m.
Proof. destruct m; cbn; lia. Qed.

Lemma Zdigits2_unique m n :
  0 < m -> 2 ^ (n - 1) <= m < 2 ^ n -> Zdigits2 m = n.
Proof.
  intros Hm [Hlo Hhi]. pose proof (Zdigits2_bounds m Hm) as [Hlo' Hhi'].
  pose proof (Zdigits2_pos m Hm) as Hd.
  assert (0 < n).
  { destruct (Z_lt_le_dec 0 n) as [|Hn]; [assumption|].
    assert (2 ^ n <= 1).
    { destruct (Z.eq_dec n 0) as [->|]; [cbn; lia|].
      rewrite Z.pow_neg_r by lia. lia. }
    lia. }
  destruct (Z_lt_le_dec (Zdigits2 m) n) as [Hlt|Hge].
  - assert (2 ^ Zdigits2 m <= 2 ^ (n - 1)) by (apply Z.pow_le_mono_r; lia). lia.
  - destruct (Z_lt_le_dec n (Zdigits2 m)) as [Hlt|Hle]; [|lia].
    assert (2 ^ n <= 2 ^ (Zdigits2 m - 1)) by (apply Z.pow_le_mono_r; lia). lia.
Qed.

Lemma Zdigits2_le m n : 0 <= m -> 0 <= n -> m < 2 ^ n -> Zdigits2 m <= n.
Proof.
  intros Hm Hn Hlt. destruct (Z.eq_dec m 0) as [->|Hne]; [cbn; lia|].
  pose proof (Zdigits2_bounds m ltac:(lia)) as [Hlo _].
  destruct (Z_lt_le_dec n (Zdigits2 m)) as [Hgt|]; [|lia].
  assert (2 ^ n <= 2 ^ (Zdigits2 m - 1)) by (apply Z.pow_le_mono_r; lia). lia.
Qed.

Lemma Zdigits2_mono a b : 0 <= a <= b -> Zdigits2 a <= Zdigits2 b.
Proof.
  intros [Ha Hab]. destruct (Z.eq_dec b 0) as [->|Hb].
  - replace a with 0 by lia. lia.
  - apply Zdigits2_le; [lia | apply Zdigits2_nonneg |].
    pose proof (Zdigits2_bounds b ltac:(lia)). lia.
Qed.

Lemma Zdigits2_succ m : 0 <= m -> Zdigits2 (m + 1) <= Zdigits2 m + 1.
Proof.
  intros Hm. destruct (Z.eq_dec m 0) as [->|Hne]; [change (1 <= 0 + 1); lia|].
  pose proof (Zdigits2_bounds m ltac:(lia)) as [_ Hhi].
  pose proof (Zdigits2_nonneg m).
  apply Zdigits2_le; [lia | lia |].
  rewrite Z.pow_add_r by lia. lia.
Qed.

Lemma Zdigits2_mul_pow2 m k :
  0 < m -> 0 <= k -> Zdigits2 (m * 2 ^ k) = Zdigits2 m + k.
Proof.
  intros Hm Hk. pose proof (Zdigits2_bounds m Hm) as [Hlo Hhi].
  pose proof (Zdigits2_pos m Hm).
  assert (0 < 2 ^ k) by (apply Z.pow_pos_nonneg; lia).
  apply Zdigits2_unique; [nia|].
  replace (Zdigits2 m + k - 1) with ((Zdigits2 m - 1) + k) by lia.
  rewrite !Z.pow_add_r by lia. nia.
Qed.

Lemma Zdigits2_div_pow2 m k :
  0 < m -> 0 <= k -> 0 < m / 2 ^ k -> Zdigits2 (m / 2 ^ k) = Zdigits2 m - k.
Proof.
  intros Hm Hk Hq. pose proof (Zdigits2_bounds m Hm) as [Hlo Hhi].
  assert (Hpk : 0 < 2 ^ k) by (apply Z.pow_pos_nonneg; lia).
  assert (Hkd : k < Zdigits2 m).
  { destruct (Z_lt_le_dec k (Zdigits2 m)) as [|Hge]; [assumption|].
    assert (2 ^ Zdigits2 m <= 2 ^ k) by (apply Z.pow_le_mono_r; lia).
    rewrite Z.div_small in Hq by lia. lia. }
  apply Zdigits2_unique; [assumption|]. split.
  - apply Z.div_le_lower_bound; [assumption|].
    rewrite <- Z.pow_add_r by lia.
    replace (k + (Zdigits2 m - k - 1)) with (Zdigits2 m - 1) by lia. exact Hlo.
  - apply Z.div_lt_upper_bound; [assumption|].
    rewrite <- Z.pow_add_r by lia.
    replace (k + (Zdigits2 m - k)) with (Zdigits2 m) by lia. exact Hhi.
Qed.

Lemma Zdigits2_mul a b :
  0 < a -> 0 < b ->
  Zdigits2 a + Zdigits2 b - 1 <= Zdigits2 (a * b) <= Zdigits2 a + Zdigits2 b.
Proof.
  intros Ha Hb.
  pose proof (Zdigits2_bounds a Ha) as [Hla Hha].
  pose proof (Zdigits2_bounds b Hb) as [Hlb Hhb].
  pose proof (Zdigits2_pos a Ha). pose proof (Zdigits2_pos b Hb).
  assert (Hab : 0 < a * b) by nia.
  pose proof (Zdigits2_bounds (a * b) Hab) as [Hl Hh].
  assert (H1 : 2 ^ (Zdigits2 a - 1 + (Zdigits2 b - 1)) <= a * b).
  { rewrite Z.pow_add_r by lia.
    assert (0 < 2 ^ (Zdigits2 a - 1)) by (apply Z.pow_pos_nonneg; lia).
    assert (0 < 2 ^ (Zdigits2 b - 1)) by (apply Z.pow_pos_nonneg; lia). nia. }
  assert (H2 : a * b < 2 ^ (Zdigits2 a + Zdigits2 b)).
  { rewrite Z.pow_add_r by lia. nia. }
  split.
  - destruct (Z_lt_le_dec (Zdigits2 (a * b)) (Zdigits2 a + Zdigits2 b - 1)) as [Hlt|]; [|lia].
    assert (2 ^ Zdigits2 (a * b) <= 2 ^ (Zdigits2 a - 1 + (Zdigits2 b - 1)))
      by (apply Z.pow_le_mono_r; lia). lia.
  - apply Zdigits2_le; lia.
Qed.

(** ** Shifting and rounding *)

Lemma fexp_eq x : fexp x = Z.max (x - 53) (-1074).
Proof. reflexivity. Qed.

Ltac fexp_lia :=
  unfold SpecFloat.fexp, SpecFloat.emin, prec, emax in *; lia.

Lemma fexp_mono x y : x <= y -> fexp x <= fexp y.
Proof. fexp_lia. Qed.

Lemma pow2_xO p : 2 ^ Zpos p~0 = 2 ^ Zpos p * 2 ^ Zpos p.
Proof.
  replace (Zpos p~0) with (Zpos p + Zpos p) by lia. apply Z.pow_add_r; lia.
Qed.

Lemma pow2_xI p : 2 ^ Zpos p~1 = 2 * (2 ^ Zpos p * 2 ^ Zpos p).
Proof.
  replace (Zpos p~1) with (1 + (Zpos p + Zpos p)) by lia.
  rewrite !Z.pow_add_r by lia. reflexivity.
Qed.

Lemma shr_1_m r : 0 <= shr_m r -> shr_m (shr_1 r) = shr_m r / 2.
Proof.
  destruct r as [m r s]. cbn [shr_m]. intros Hm.
  destruct m as [|[p|p|]|]; try lia; cbn [shr_1 shr_m];
    rewrite <- Z.div2_div; reflexivity.
Qed.

Lemma iter_shr_1_m p : forall r,
  0 <= shr_m r -> shr_m (SpecFloat.iter_pos shr_1 p r) = shr_m r / 2 ^ Zpos p.
Proof.
  assert (Hnn : forall q r, 0 <= shr_m r -> 0 <= shr_m r / 2 ^ Zpos q).
  { intros q r Hr. apply Z.div_pos; [exact Hr | apply Z.pow_pos_nonneg; lia]. }
  induction p as [p IH|p IH|]; intros r Hr; cbn [SpecFloat.iter_pos].
  - assert (H1 : 0 <= shr_m (shr_1 r)).
    { rewrite shr_1_m by exact Hr. apply Z.div_pos; lia. }
    assert (H2 : 0 <= shr_m (SpecFloat.iter_pos shr_1 p (shr_1 r))).
    { rewrite IH by exact H1. apply Hnn, H1. }
    rewrite IH by exact H2. rewrite IH by exact H1. rewrite shr_1_m by exact Hr.
    assert (Hp : 0 < 2 ^ Zpos p) by (apply Z.pow_pos_nonneg; lia).
    rewrite !Z.div_div by lia. f_equal. rewrite pow2_xI. ring.
  - assert (H2 : 0 <= shr_m (SpecFloat.iter_pos shr_1 p r)).
    { rewrite IH by exact Hr. apply Hnn, Hr. }
    rewrite IH by exact H2. rewrite IH by exact Hr.
    assert (Hp : 0 < 2 ^ Zpos p) by (apply Z.pow_pos_nonneg; lia).
    rewrite !Z.div_div by lia. f_equal. now rewrite pow2_xO.
  - rewrite shr_1_m by exact Hr. reflexivity.
Qed.

Lemma shr_1_exact m :
  0 <= m ->
  shr_1 {| shr_m := 2 * m; shr_r := false; shr_s := false |}
  = {| shr_m := m; shr_r := false; shr_s := false |}.
Proof. destruct m as [|p|p]; [reflexivity | reflexivity | lia]. Qed.

Lemma iter_shr_1_exact p : forall m,
  0 <= m ->
  SpecFloat.iter_pos shr_1 p {| shr_m := m * 2 ^ Zpos p; shr_r := false; shr_s := false |}
  = {| shr_m := m; shr_r := false; shr_s := false |}.
Proof.
  induction p as [p IH|p IH|]; intros m Hm; cbn [SpecFloat.iter_pos].
  - assert (Hp : 0 < 2 ^ Zpos p) by (apply Z.pow_pos_nonneg; lia).
    replace (m * 2 ^ Zpos p~1) with (2 * (m * 2 ^ Zpos p * 2 ^ Zpos p))
      by (rewrite pow2_xI; ring).
    rewrite shr_1_exact by nia. rewrite IH by nia. apply IH, Hm.
  - assert (Hp : 0 < 2 ^ Zpos p) by (apply Z.pow_pos_nonneg; lia).
    replace (m * 2 ^ Zpos p~0) with (m * 2 ^ Zpos p * 2 ^ Zpos p)
      by (rewrite pow2_xO; ring).
    rewrite IH by nia. apply IH, Hm.
  - change (2 ^ 1) with 2. rewrite Z.mul_comm. apply shr_1_exact, Hm.
Qed.

Lemma shr_record_of_loc_m m l : shr_m (shr_record_of_loc m l) = m.
Proof. destruct l as [|[]]; reflexivity. Qed.

(** [shr_fexp] drops the [k] low bits that do not fit the format. *)
Lemma shr_fexp_spec m e l :
  0 <= m ->
  let k := Z.max (fexp (Zdigits2 m + e) - e) 0 in
  shr_m (fst (shr_fexp prec emax m e l)) = m / 2 ^ k
  /\ snd (shr_fexp prec emax m e l) = e + k.
Proof.
  intros Hm k. unfold shr_fexp, shr. subst k.
  destruct (fexp (Zdigits2 m + e) - e) as [|p|p] eqn:Hk; cbn [fst snd].
  - rewrite shr_record_of_loc_m, Z.div_1_r. split; [reflexivity | lia].
  - rewrite iter_shr_1_m by (now rewrite shr_record_of_loc_m).
    rewrite shr_record_of_loc_m. replace (Z.max (Zpos p) 0) with (Zpos p) by lia.
    split; reflexivity.
  - rewrite shr_record_of_loc_m. replace (Z.max (Zneg p) 0) with 0 by lia.
    rewrite Z.div_1_r. split; [reflexivity | lia].
Qed.

Lemma round_nearest_even_bounds m l :
  m <= round_nearest_even m l <= m + 1.
Proof.
  destruct l as [|[]]; cbn [round_nearest_even]; try lia.
  destruct (Z.even m); lia.
Qed.

(** Rounding a significand that has all the digits the format can hold. *)
Lemma round_nice s m e l n :
  0 < m ->
  e <= fexp (Zdigits2 m + e) ->
  Zdigits2 m + e <= n -> -1074 <= n <= 1023 ->
  nice (n + 1) (binary_round_aux prec emax s m e l).
Proof.
  intros Hm Hal Hn Hrange. unfold binary_round_aux.
  pose proof (shr_fexp_spec m e l ltac:(lia)) as [Hq He'].
  destruct (shr_fexp prec emax m e l) as [mrs' e']. cbn [fst snd] in Hq, He'.
  set (k := Z.max (fexp (Zdigits2 m + e) - e) 0) in *.
  assert (Hk : k = fexp (Zdigits2 m + e) - e) by lia.
  assert (Hpk : 0 < 2 ^ k) by (apply Z.pow_pos_nonneg; lia).
  assert (Hq0 : 0 <= shr_m mrs') by (rewrite Hq; apply Z.div_pos; lia).
  pose proof (round_nearest_even_bounds (shr_m mrs') (loc_of_shr_record mrs')) as Hr.
  set (m1 := round_nearest_even (shr_m mrs') (loc_of_shr_record mrs')) in *.
  pose proof (shr_fexp_spec m1 e' loc_Exact ltac:(lia)) as [Hq2 He''].
  destruct (shr_fexp prec emax m1 e' loc_Exact) as [mrs'' e''].
  cbn [fst snd] in Hq2, He''.
  set (k2 := Z.max (fexp (Zdigits2 m1 + e') - e') 0) in *.
  assert (Hpk2 : 0 < 2 ^ k2) by (apply Z.pow_pos_nonneg; lia).
  destruct (shr_m mrs'') as [|p|p] eqn:Hm2; [exact I | |].
  2:{ assert (0 <= m1 / 2 ^ k2) by (apply Z.div_pos; lia). lia. }
  assert (Hm1 : 0 < m1).
  { destruct (Z.eq_dec m1 0) as [H0|]; [|lia].
    rewrite H0, Z.div_0_l in Hq2 by lia. lia. }
  assert (Hd2 : Zdigits2 (Zpos p) = Zdigits2 m1 - k2).
  { rewrite Hq2. apply Zdigits2_div_pow2; lia. }
  pose proof (Zdigits2_mono (shr_m mrs') m1 ltac:(lia)) as Hmono.
  pose proof (Zdigits2_succ (shr_m mrs') Hq0) as Hsucc.
  pose proof (Zdigits2_mono m1 (shr_m mrs' + 1) ltac:(lia)) as Hmono2.
  assert (Hcase : (0 < shr_m mrs' /\ Zdigits2 (shr_m mrs') + e' = Zdigits2 m + e)
                  \/ (shr_m mrs' = 0 /\ e' = -1074)).
  { destruct (Z.eq_dec (shr_m mrs') 0) as [H0|Hne].
    - right. split; [exact H0|].
      assert (Hlt : m < 2 ^ k).
      { destruct (Z_lt_le_dec m (2 ^ k)) as [|Hge]; [assumption|].
        assert (1 <= m / 2 ^ k) by (apply Z.div_le_lower_bound; lia). lia. }
      pose proof (Zdigits2_le m k ltac:(lia) ltac:(lia) Hlt) as Hdk.
      fexp_lia.
    - left. split; [lia|]. rewrite Hq.
      rewrite Zdigits2_div_pow2 by lia. lia. }
  assert (E1 : Zdigits2 1 = 1) by reflexivity.
  assert (E0 : Zdigits2 0 = 0) by reflexivity.
  assert (Hle : e'' <= 971).
  { subst k2. destruct Hcase as [[Hpos Hd]|[H0 He]].
    - fexp_lia.
    - rewrite H0, E0 in *. fexp_lia. }
  change (emax - prec) with 971.
  apply Z.leb_le in Hle. rewrite Hle. cbn [nice]. apply Z.leb_le in Hle.
  rewrite Hd2. subst k2.
  destruct Hcase as [[Hpos Hd]|[H0 He]].
  - repeat split; fexp_lia.
  - rewrite H0, E0 in *. repeat split; fexp_lia.
Qed.

(** Rounding a significand that fits the format changes nothing. *)
Lemma round_exact s p k e :
  0 <= k ->
  fexp (Zdigits2 (Zpos p) + (e + k)) = e + k -> e + k <= 971 ->
  binary_round_aux prec emax s (Zpos p * 2 ^ k) e loc_Exact
  = S754_finite s p (e + k).
Proof.
  intros Hk Hcanon Hle. unfold binary_round_aux, shr_fexp.
  rewrite Zdigits2_mul_pow2 by lia.
  replace (Zdigits2 (Zpos p) + k + e) with (Zdigits2 (Zpos p) + (e + k)) by lia.
  rewrite Hcanon. replace (e + k - e) with k by lia.
  cbn [shr_record_of_loc]. unfold shr at 1.
  destruct k as [|q|q]; [| |lia].
  - rewrite Z.mul_1_r, Z.add_0_r in *. cbn [loc_of_shr_record shr_m round_nearest_even].
    rewrite Hcanon, Z.sub_diag. cbn [shr shr_record_of_loc shr_m].
    change (emax - prec) with 971.
    apply Z.leb_le in Hle. now rewrite Hle.
  - rewrite iter_shr_1_exact by lia.
    cbn [loc_of_shr_record shr_m round_nearest_even].
    rewrite Hcanon, Z.sub_diag. cbn [shr shr_record_of_loc shr_m].
    change (emax - prec) with 971.
    apply Z.leb_le in Hle. now rewrite Hle.
Qed.

(** ** Normalisation *)

Lemma pos_iter_xO p d : Zpos (Pos.iter xO p d) = Zpos p * 2 ^ Zpos d.
Proof.
  induction d as [|d IH] using Pos.peano_ind.
  - cbn [Pos.iter]. change (2 ^ 1) with 2. lia.
  - rewrite Pos.iter_succ, Pos2Z.inj_xO, IH, Pos2Z.inj_succ, Z.pow_succ_r by lia.
    ring.
Qed.

Lemma shl_align_spec mx ex ex' :
  ex' <= ex ->
  Zpos (fst (shl_align mx ex ex')) = Zpos mx * 2 ^ (ex - ex')
  /\ snd (shl_align mx ex ex') = ex'.
Proof.
  intros Hle. unfold shl_align.
  destruct (ex' - ex) as [|d|d] eqn:Hd; cbn [fst snd]; try lia.
  - replace (ex - ex') with 0 by lia. rewrite Z.mul_1_r. split; [reflexivity | lia].
  - rewrite pos_iter_xO. replace (ex - ex') with (Zpos d) by lia.
    split; reflexivity.
Qed.

Lemma shl_align_id mx ex ex' : ex <= ex' -> shl_align mx ex ex' = (mx, ex).
Proof.
  intros Hle. unfold shl_align. destruct (ex' - ex) as [|d|d] eqn:Hd; try reflexivity; lia.
Qed.

Lemma binary_round_nice s p e n :
  Zdigits2 (Zpos p) + e <= n -> -1074 <= n <= 1023 ->
  nice (n + 1) (binary_round prec emax s p e).
Proof.
  intros Hn Hrange. unfold binary_round.
  change (Zpos (digits2_pos p)) with (Zdigits2 (Zpos p)).
  destruct (Z_le_gt_dec (fexp (Zdigits2 (Zpos p) + e)) e) as [Hle|Hgt].
  - pose proof (shl_align_spec p e _ Hle) as [Hm He].
    destruct (shl_align p e (fexp (Zdigits2 (Zpos p) + e))) as [mz ez].
    cbn [fst snd] in Hm, He. subst ez.
    assert (Hd : Zdigits2 (Zpos mz) = Zdigits2 (Zpos p) + (e - fexp (Zdigits2 (Zpos p) + e))).
    { rewrite Hm. apply Zdigits2_mul_pow2; lia. }
    apply round_nice; [lia | rewrite Hd | rewrite Hd | exact Hrange].
    + replace (Zdigits2 (Zpos p) + (e - fexp (Zdigits2 (Zpos p) + e))
               + fexp (Zdigits2 (Zpos p) + e)) with (Zdigits2 (Zpos p) + e) by lia.
      lia.
    + lia.
  - rewrite shl_align_id by lia.
    apply round_nice; [lia | lia | exact Hn | exact Hrange].
Qed.

Lemma normalize_nice m e sz j n :
  Z.abs m < 2 ^ j -> 0 <= j -> j + e <= n -> -1074 <= n <= 1023 ->
  nice (n + 1) (binary_normalize prec emax m e sz).
Proof.
  intros Hm Hj Hn Hrange.
  destruct m as [|p|p]; cbn [binary_normalize]; [exact I | |];
    apply binary_round_nice; try exact Hrange;
    pose proof (Zdigits2_le (Zpos p) j ltac:(lia) Hj ltac:(lia)); lia.
Qed.

(** A number of at most 53 bits, scaled within the normal range, is
    represented exactly. *)
Lemma dyadic_exact a e :
  0 < a -> a < 2 ^ 53 -> -1021 <= Zdigits2 a + e <= 1024 ->
  dyadic a e
  = S754_finite false (Z.to_pos (a * 2 ^ (53 - Zdigits2 a))) (e - (53 - Zdigits2 a)).
Proof.
  intros Ha Hlt Hrange.
  pose proof (Zdigits2_le a 53 ltac:(lia) ltac:(lia) Hlt) as Hd.
  pose proof (Zdigits2_pos a Ha) as Hd0.
  destruct a as [|p|p]; try lia.
  unfold dyadic. cbn [binary_normalize]. unfold binary_round.
  change (Zpos (digits2_pos p)) with (Zdigits2 (Zpos p)).
  assert (Hf : fexp (Zdigits2 (Zpos p) + e) = e - (53 - Zdigits2 (Zpos p))) by fexp_lia.
  rewrite Hf.
  pose proof (shl_align_spec p e (e - (53 - Zdigits2 (Zpos p))) ltac:(lia)) as [Hm He].
  destruct (shl_align p e (e - (53 - Zdigits2 (Zpos p)))) as [mz ez].
  cbn [fst snd] in Hm, He. subst ez.
  replace (e - (e - (53 - Zdigits2 (Zpos p)))) with (53 - Zdigits2 (Zpos p)) in Hm by lia.
  rewrite <- Hm, Pos2Z.id.
  replace (Zpos mz) with (Zpos mz * 2 ^ 0) by (rewrite Z.mul_1_r; reflexivity).
  replace (e - (53 - Zdigits2 (Zpos p))) with (e - (53 - Zdigits2 (Zpos p)) + 0) at 2 by lia.
  apply round_exact; [lia | | fexp_lia].
  rewrite Hm, Zdigits2_mul_pow2 by lia. fexp_lia.
Qed.

Lemma dyadic_zero e : dyadic 0 e = S754_zero false.
Proof. reflexivity. Qed.

Lemma dyadic_mantissa a :
  0 < a -> a < 2 ^ 53 ->
  Zpos (Z.to_pos (a * 2 ^ (53 - Zdigits2 a))) = a * 2 ^ (53 - Zdigits2 a)
  /\ Zdigits2 (a * 2 ^ (53 - Zdigits2 a)) = 53.
Proof.
  intros Ha Hlt.
  pose proof (Zdigits2_le a 53 ltac:(lia) ltac:(lia) Hlt) as Hd.
  assert (0 < 2 ^ (53 - Zdigits2 a)) by (apply Z.pow_pos_nonneg; lia).
  split.
  - apply Z2Pos.id. nia.
  - rewrite Zdigits2_mul_pow2 by lia. lia.
Qed.

(** ** Exact operations on small dyadic numbers *)

Lemma fmul_dyadic a ea b eb :
  0 <= a < 2 ^ 53 -> 0 <= b < 2 ^ 53 -> a * b < 2 ^ 53 ->
  -500 <= ea <= 400 -> -500 <= eb <= 400 ->
  fmul (dyadic a ea) (dyadic b eb) = dyadic (a * b) (ea + eb).
Proof.
  intros [Ha Ha53] [Hb Hb53] Hab Hea Heb.
  pose proof (Zdigits2_le a 53 ltac:(lia) ltac:(lia) Ha53) as Hda.
  pose proof (Zdigits2_le b 53 ltac:(lia) ltac:(lia) Hb53) as Hdb.
  destruct (Z.eq_dec a 0) as [->|Ha0].
  { rewrite Z.mul_0_l, !dyadic_zero.
    destruct (Z.eq_dec b 0) as [->|Hb0]; [reflexivity|].
    pose proof (Zdigits2_pos b ltac:(lia)).
    rewrite dyadic_exact by lia. reflexivity. }
  destruct (Z.eq_dec b 0) as [->|Hb0].
  { rewrite Z.mul_0_r, !dyadic_zero.
    pose proof (Zdigits2_pos a ltac:(lia)).
    rewrite dyadic_exact by lia. reflexivity. }
  pose proof (Zdigits2_le (a * b) 53 ltac:(nia) ltac:(lia) Hab) as Hdab.
  pose proof (Zdigits2_pos a ltac:(lia)) as Hpa.
  pose proof (Zdigits2_pos b ltac:(lia)) as Hpb.
  pose proof (Zdigits2_pos (a * b) ltac:(nia)) as Hpab.
  pose proof (Zdigits2_mul a b ltac:(lia) ltac:(lia)) as [Hmul1 Hmul2].
  rewrite !dyadic_exact by (try lia; nia).
  unfold fmul, SFmul. cbn [xorb].
  pose proof (dyadic_mantissa a ltac:(lia) Ha53) as [Hma _].
  pose proof (dyadic_mantissa b ltac:(lia) Hb53) as [Hmb _].
  pose proof (dyadic_mantissa (a * b) ltac:(nia) Hab) as [Hmab Hdig].
  set (k := 53 - Zdigits2 a - Zdigits2 b + Zdigits2 (a * b)).
  replace (Zpos (Z.to_pos (a * 2 ^ (53 - Zdigits2 a)) * Z.to_pos (b * 2 ^ (53 - Zdigits2 b))))
    with (Zpos (Z.to_pos (a * b * 2 ^ (53 - Zdigits2 (a * b)))) * 2 ^ k).
  - replace (ea + eb - (53 - Zdigits2 (a * b)))
      with (ea - (53 - Zdigits2 a) + (eb - (53 - Zdigits2 b)) + k) by lia.
    apply round_exact; [lia | | lia].
    rewrite Hmab, Hdig. fexp_lia.
  - rewrite Pos2Z.inj_mul, Hma, Hmb, Hmab. subst k.
    replace (a * 2 ^ (53 - Zdigits2 a) * (b * 2 ^ (53 - Zdigits2 b)))
      with (a * b * (2 ^ (53 - Zdigits2 a) * 2 ^ (53 - Zdigits2 b))) by ring.
    rewrite <- Z.mul_assoc, <- !Z.pow_add_r by lia. do 2 f_equal. lia.
Qed.

Lemma int_of_float_dyadic a e :
  0 <= a -> a < 2 ^ 53 -> -500 <= e <= 400 ->
  int_of_float (dyadic a e) = Ok (Z.shiftl a e).
Proof.
  intros Ha Hlt He. destruct (Z.eq_dec a 0) as [->|Ha0].
  { rewrite dyadic_zero, Z.shiftl_0_l. reflexivity. }
  pose proof (Zdigits2_le a 53 ltac:(lia) ltac:(lia) Hlt) as Hd.
  pose proof (Zdigits2_pos a ltac:(lia)) as Hd0.
  rewrite dyadic_exact by lia. cbn [int_of_float].
  pose proof (dyadic_mantissa a ltac:(lia) Hlt) as [Hm _]. rewrite Hm.
  rewrite <- Z.shiftl_mul_pow2, Z.shiftl_shiftl by lia.
  do 2 f_equal. lia.
Qed.

(** The quotient of a 32-bit number by [2^32] is exact. *)
Lemma int_truediv_2_32 k :
  0 <= k < 4294967296 ->
  int_truediv k 4294967296 = Ok (dyadic k (-32)).
Proof.
  intros [Hk Hlt]. unfold int_truediv. change (4294967296 =? 0) with false.
  cbn match. destruct k as [|p|p]; [reflexivity | | lia].
  change (2 ^ 32) with 4294967296 in *.
  pose proof (Zdigits2_le (Zpos p) 32 ltac:(lia) ltac:(lia) Hlt) as Hd.
  pose proof (Zdigits2_pos (Zpos p) ltac:(lia)) as Hd0.
  rewrite dyadic_exact by (change (2 ^ 53) with 9007199254740992; lia).
  pose proof (dyadic_mantissa (Zpos p) ltac:(lia)
                ltac:(change (2 ^ 53) with 9007199254740992; lia)) as [Hm Hdig].
  set (d := Zdigits2 (Zpos p)) in *.
  cbn [raw]. unfold SFdiv, SFdiv_core_binary. cbn [xorb].
  change (Zdigits2 4294967296) with 33. fold d.
  assert (He : Z.min (fexp (d + 0 - (33 + 0))) (0 - 0) = d - 86) by fexp_lia.
  rewrite He.
  replace (0 - 0 - (d - 86)) with (86 - d) by lia.
  destruct (86 - d) as [|s|s] eqn:Hs; try lia.
  rewrite Z.shiftl_mul_pow2 by lia. rewrite <- Hs.
  assert (Hdiv : Z.div_eucl (Zpos p * 2 ^ (86 - d)) 4294967296
                 = (Zpos p * 2 ^ (54 - d), 0)).
  { assert (Hsplit : Zpos p * 2 ^ (86 - d) = Zpos p * 2 ^ (54 - d) * 4294967296).
    { replace (86 - d) with (54 - d + 32) by lia.
      rewrite Z.pow_add_r by lia. change (2 ^ 32) with 4294967296. ring. }
    pose proof (Z.div_mul (Zpos p * 2 ^ (54 - d)) 4294967296 ltac:(lia)) as Hq.
    pose proof (Z.mod_mul (Zpos p * 2 ^ (54 - d)) 4294967296 ltac:(lia)) as Hr.
    rewrite <- Hsplit in Hq, Hr. unfold Z.div, Z.modulo in Hq, Hr.
    destruct (Z.div_eucl (Zpos p * 2 ^ (86 - d)) 4294967296) as [q r].
    now subst. }
  rewrite Hdiv.
  change (new_location 4294967296 0) with loc_Exact.
  replace (Zpos p * 2 ^ (54 - d))
    with (Zpos (Z.to_pos (Zpos p * 2 ^ (53 - d))) * 2 ^ 1).
  2:{ rewrite Hm. replace (54 - d) with (53 - d + 1) by lia.
      rewrite Z.pow_add_r by lia. ring. }
  rewrite round_exact; [| lia | rewrite Hm, Hdig; fexp_lia | lia].
  cbn [is_infinity]. do 2 f_equal. lia.
Qed.

Lemma to_Q_dyadic_2_32 k :
  0 <= k < 4294967296 ->
  (to_Q (dyadic k (-32)) == k # 4294967296)%Q.
Proof.
  intros [Hk Hlt]. destruct (Z.eq_dec k 0) as [->|Hk0]; [reflexivity|].
  change (2 ^ 32) with 4294967296 in *.
  pose proof (Zdigits2_le k 32 ltac:(lia) ltac:(lia) Hlt) as Hd.
  pose proof (Zdigits2_pos k ltac:(lia)) as Hd0.
  assert (H53 : k < 2 ^ 53) by (change (2 ^ 53) with 9007199254740992; lia).
  rewrite dyadic_exact by lia.
  pose proof (dyadic_mantissa k ltac:(lia) H53) as [Hm _].
  set (d := Zdigits2 k) in *. cbn [to_Q].
  assert (Hneg : (0 <=? -32 - (53 - d)) = false) by (apply Z.leb_gt; lia).
  rewrite Hneg. unfold Qeq. cbn [Qnum Qden]. rewrite Hm.
  assert (Hp : 0 < 2 ^ (- (-32 - (53 - d)))) by (apply Z.pow_pos_nonneg; lia).
  rewrite Z2Pos.id by exact Hp.
  replace (- (-32 - (53 - d))) with (53 - d + 32) by lia.
  rewrite Z.pow_add_r by lia. change (2 ^ 32) with 4294967296.
  change (Zpos 4294967296) with 4294967296. ring.
Qed.

(** ** Operations that stay finite *)

Lemma nice_mono a b x : nice a x -> a <= b -> nice b x.
Proof. destruct x; cbn [nice]; intros H Hab; try exact H. lia. Qed.

Lemma nice_not_infinity n x : nice n x -> is_infinity x = false.
Proof. destruct x; cbn [nice]; intros H; try reflexivity. contradiction. Qed.

Lemma nice_int_of_float n x : nice n x -> exists z, int_of_float x = Ok z.
Proof.
  destruct x; cbn [nice int_of_float]; intros H; try contradiction; eauto.
Qed.

Lemma niceb_nice n x : niceb n x = true -> nice n x.
Proof.
  destruct x; cbn [niceb nice]; intros H; try discriminate; [exact I|].
  apply andb_prop in H as [H H3]. apply andb_prop in H as [H1 H2].
  apply Z.eqb_eq in H1. apply Z.leb_le in H2, H3. auto.
Qed.

Lemma dyadic_nice a e j n :
  Z.abs a < 2 ^ j -> 0 <= j -> j + e <= n -> -1074 <= n <= 1023 ->
  nice (n + 1) (dyadic a e).
Proof. apply normalize_nice. Qed.

Lemma float_of_int_nice z n :
  Z.abs z < 2 ^ n -> 0 <= n <= 1023 ->
  exists x, float_of_int z = Ok x /\ nice (n + 1) x.
Proof.
  intros Hz Hn. unfold float_of_int.
  assert (H : nice (n + 1) (of_Z z)).
  { unfold of_Z, dyadic. apply (normalize_nice z 0 false n n); lia. }
  rewrite (nice_not_infinity _ _ H). eauto.
Qed.

Lemma fmul_nice a b n x y :
  nice a x -> nice b y -> a + b <= n -> -1074 <= n <= 1023 ->
  nice (n + 1) (fmul x y).
Proof.
  intros Hx Hy Hab Hn. unfold fmul, SFmul.
  destruct x as [sx|sx| |sx mx ex], y as [sy|sy| |sy my ey];
    cbn [nice] in *; try contradiction; try exact I.
  destruct Hx as (Hcx & Hex & Hmx), Hy as (Hcy & Hey & Hmy).
  pose proof (Zdigits2_mul (Zpos mx) (Zpos my) ltac:(lia) ltac:(lia)) as [Hlo Hhi].
  pose proof (Zdigits2_pos (Zpos mx) ltac:(lia)).
  pose proof (Zdigits2_pos (Zpos my) ltac:(lia)).
  change (Zpos (mx * my)) with (Zpos mx * Zpos my).
  apply round_nice; [lia | fexp_lia | lia | exact Hn].
Qed.

Lemma fadd_nice a b n x y :
  nice a x -> nice b y -> a <= n -> b <= n -> -1074 <= n + 1 <= 1023 ->
  nice (n + 2) (fadd x y).
Proof.
  intros Hx Hy Ha Hb Hn. unfold fadd, SFadd.
  destruct x as [sx|sx| |sx mx ex], y as [sy|sy| |sy my ey];
    cbn [nice] in Hx, Hy; try contradiction.
  - destruct sx, sy; exact I.
  - cbn [nice]. destruct Hy as (? & ? & ?). repeat split; lia.
  - cbn [nice]. destruct Hx as (? & ? & ?). repeat split; lia.
  - destruct Hx as (Hcx & Hex & Hmx), Hy as (Hcy & Hey & Hmy).
    pose proof (shl_align_spec mx ex (Z.min ex ey) ltac:(lia)) as [Hsx _].
    pose proof (shl_align_spec my ey (Z.min ex ey) ltac:(lia)) as [Hsy _].
    rewrite Hsx, Hsy. set (ez := Z.min ex ey) in *.
    pose proof (Zdigits2_bounds (Zpos mx) ltac:(lia)) as [_ Hbx].
    pose proof (Zdigits2_bounds (Zpos my) ltac:(lia)) as [_ Hby].
    pose proof (Zdigits2_pos (Zpos mx) ltac:(lia)).
    pose proof (Zdigits2_pos (Zpos my) ltac:(lia)).
    assert (Hpx : 0 < 2 ^ (ex - ez)) by (apply Z.pow_pos_nonneg; lia).
    assert (Hpy : 0 < 2 ^ (ey - ez)) by (apply Z.pow_pos_nonneg; lia).
    assert (HMx : Zpos mx * 2 ^ (ex - ez) < 2 ^ (n - ez)).
    { apply Z.lt_le_trans with (2 ^ (Zdigits2 (Zpos mx) + (ex - ez))).
      - rewrite Z.pow_add_r by lia. nia.
      - apply Z.pow_le_mono_r; lia. }
    assert (HMy : Zpos my * 2 ^ (ey - ez) < 2 ^ (n - ez)).
    { apply Z.lt_le_trans with (2 ^ (Zdigits2 (Zpos my) + (ey - ez))).
      - rewrite Z.pow_add_r by lia. nia.
      - apply Z.pow_le_mono_r; lia. }
    replace (n + 2) with (n + 1 + 1) by lia.
    apply (normalize_nice _ ez false (n - ez + 1) (n + 1)); try lia.
    rewrite Z.pow_add_r by lia. change (2 ^ 1) with 2.
    unfold cond_Zopp. destruct sx, sy; lia.
Qed.

(** The quotient of two positive integers, the first no larger than the
    second. *)
Lemma int_truediv_nice c t :
  0 < c <= t -> t < 2 ^ 1000 ->
  exists x, int_truediv c t = Ok x /\ nice 2 x.
Proof.
  intros [Hc Hct] Ht. unfold int_truediv.
  assert (Ht0 : (t =? 0) = false) by (apply Z.eqb_neq; lia). rewrite Ht0.
  enough (H : nice 2 (SFdiv prec emax (raw c) (raw t))).
  { rewrite (nice_not_infinity _ _ H). eauto. }
  destruct c as [|pc|pc]; try lia. destruct t as [|pt|pt]; try lia.
  cbn [raw]. unfold SFdiv, SFdiv_core_binary. cbn [xorb].
  pose proof (Zdigits2_bounds (Zpos pc) ltac:(lia)) as [Hlc Hhc].
  pose proof (Zdigits2_bounds (Zpos pt) ltac:(lia)) as [Hlt Hht].
  pose proof (Zdigits2_pos (Zpos pc) ltac:(lia)) as Hdc0.
  pose proof (Zdigits2_pos (Zpos pt) ltac:(lia)) as Hdt0.
  pose proof (Zdigits2_mono (Zpos pc) (Zpos pt) ltac:(lia)) as Hmono.
  pose proof (Zdigits2_le (Zpos pt) 1000 ltac:(lia) ltac:(lia) Ht) as Hdt.
  set (d1 := Zdigits2 (Zpos pc)) in *. set (d2 := Zdigits2 (Zpos pt)) in *.
  set (e' := Z.min (fexp (d1 + 0 - (d2 + 0))) (0 - 0)).
  assert (He' : e' = d1 - d2 - 53) by (subst e'; fexp_lia).
  set (s := 0 - 0 - e').
  assert (Hs : s = 53 + d2 - d1) by lia.
  assert (Hm' : match s with
                | 0 => Zpos pc
                | Zpos _ => Z.shiftl (Zpos pc) s
                | Zneg _ => 0
                end = Zpos pc * 2 ^ s).
  { destruct s eqn:E; try lia. rewrite <- E. apply Z.shiftl_mul_pow2. lia. }
  rewrite Hm'.
  assert (Hps : 0 < 2 ^ s) by (apply Z.pow_pos_nonneg; lia).
  pose proof (Z.div_eucl_eq (Zpos pc * 2 ^ s) (Zpos pt) ltac:(lia)) as Heq.
  pose proof (Z.mod_pos_bound (Zpos pc * 2 ^ s) (Zpos pt) ltac:(lia)) as Hmod.
  unfold Z.modulo in Hmod.
  destruct (Z.div_eucl (Zpos pc * 2 ^ s) (Zpos pt)) as [q r].
  assert (Hqlo : 2 ^ (d1 + s - d2 - 1) <= q).
  { assert (Hlow : 2 ^ (d1 + s - d2 - 1) * 2 ^ d2 <= Zpos pc * 2 ^ s).
    { rewrite <- Z.pow_add_r by lia.
      replace (d1 + s - d2 - 1 + d2) with (d1 - 1 + s) by lia.
      rewrite Z.pow_add_r by lia. nia. }
    assert (0 < 2 ^ (d1 + s - d2 - 1)) by (apply Z.pow_pos_nonneg; lia).
    nia. }
  assert (Hqhi : q < 2 ^ (d1 + s - d2 + 1)).
  { assert (Hup : Zpos pc * 2 ^ s < 2 ^ (d1 + s - d2 + 1) * 2 ^ (d2 - 1)).
    { rewrite <- Z.pow_add_r by lia.
      replace (d1 + s - d2 + 1 + (d2 - 1)) with (d1 + s) by lia.
      rewrite Z.pow_add_r by lia. nia. }
    assert (0 < 2 ^ (d2 - 1)) by (apply Z.pow_pos_nonneg; lia).
    assert (0 < 2 ^ (d1 + s - d2 + 1)) by (apply Z.pow_pos_nonneg; lia).
    nia. }
  assert (Hq0 : 0 < q).
  { assert (0 < 2 ^ (d1 + s - d2 - 1)) by (apply Z.pow_pos_nonneg; lia). lia. }
  assert (Hdq1 : d1 + s - d2 <= Zdigits2 q).
  { destruct (Z_lt_le_dec (Zdigits2 q) (d1 + s - d2)) as [Hlt'|]; [|lia].
    pose proof (Zdigits2_bounds q Hq0) as [_ Hh].
    assert (2 ^ Zdigits2 q <= 2 ^ (d1 + s - d2 - 1)) by (apply Z.pow_le_mono_r; lia).
    lia. }
  pose proof (Zdigits2_le q (d1 + s - d2 + 1) ltac:(lia) ltac:(lia) Hqhi) as Hdq2.
  replace 2 with (1 + 1) at 1 by lia.
  apply round_nice; [exact Hq0 | fexp_lia | lia | lia].
Qed.

End FloatFacts.

(* ===================================================================== *)
(** * Decimal text of integers *)
(* ===================================================================== *)

Section DecimalFacts.
Import PyStr Digits.

Ltac digit_cases a H :=
  assert (Hcases : a = 0 \/ a = 1 \/ a = 2 \/ a = 3 \/ a = 4 \/ a = 5
                   \/ a = 6 \/ a = 7 \/ a = 8 \/ a = 9) by lia;
  destruct Hcases as [->|[->|[->|[->|[->|[->|[->|[->|[->| ->]]]]]]]]].

Lemma of_uint_acc_push a u acc :
  0 <= a <= 9 ->
  Pos.of_uint_acc (push_digit a u) acc
  = Pos.of_uint_acc u (Z.to_pos (a + 10 * Zpos acc)).
Proof. intros H. digit_cases a H; reflexivity. Qed.

Lemma of_uint_push a u :
  1 <= a <= 9 ->
  Pos.of_uint (push_digit a u) = Npos (Pos.of_uint_acc u (Z.to_pos a)).
Proof. intros H. digit_cases a H; try lia; reflexivity. Qed.

Lemma unorm_push a u : 1 <= a <= 9 -> Decimal.unorm (push_digit a u) = push_digit a u.
Proof. intros H. digit_cases a H; try lia; reflexivity. Qed.

Lemma string_of_push a u :
  0 <= a <= 9 ->
  String.length (DecimalString.NilEmpty.string_of_uint (push_digit a u))
  = S (String.length (DecimalString.NilEmpty.string_of_uint u)).
Proof. intros H. digit_cases a H; reflexivity. Qed.

Lemma push_not_nil a u : push_digit a u <> Decimal.Nil.
Proof.
  unfold push_digit.
  repeat match goal with |- context [if ?b then _ else _] => destruct b end;
    discriminate.
Qed.

Lemma mod_10_digit n : 0 <= n mod 10 <= 9.
Proof. pose proof (Z.mod_pos_bound n 10 ltac:(lia)). lia. Qed.

Lemma leading_digit n : 100000 <= n <= 999999 -> 1 <= n / 100000 <= 9.
Proof. intros Hn. Z.to_euclidean_division_equations. lia. Qed.

Lemma to_uint_six_digits p :
  100000 <= Zpos p <= 999999 -> Pos.to_uint p = six_digits (Zpos p).
Proof.
  intros Hn. set (n := Zpos p) in *.
  assert (Hval : Pos.of_uint (six_digits n) = Npos p).
  { unfold six_digits.
    rewrite of_uint_push by (apply leading_digit; exact Hn).
    rewrite !of_uint_acc_push by apply mod_10_digit.
    cbn [Pos.of_uint_acc]. f_equal.
    pose proof (leading_digit n Hn) as H5.
    pose proof (Z.mod_pos_bound (n / 10000) 10 ltac:(lia)).
    pose proof (Z.mod_pos_bound (n / 1000) 10 ltac:(lia)).
    pose proof (Z.mod_pos_bound (n / 100) 10 ltac:(lia)).
    pose proof (Z.mod_pos_bound (n / 10) 10 ltac:(lia)).
    pose proof (Z.mod_pos_bound n 10 ltac:(lia)).
    rewrite !Z2Pos.id by lia.
    apply Pos2Z.inj. rewrite Z2Pos.id by lia. fold n.
    clear -Hn. Z.to_euclidean_division_equations. lia. }
  pose proof (DecimalPos.Unsigned.to_of (six_digits n)) as Hto.
  rewrite Hval in Hto. cbn [N.to_uint] in Hto. rewrite Hto.
  unfold six_digits. apply unorm_push, leading_digit, Hn.
Qed.

Lemma str_of_int_six_digits n :
  100000 <= n <= 999999 -> String.length (str_of_int n) = 6%nat.
Proof.
  intros Hn. destruct n as [|p|p]; try lia.
  unfold str_of_int. cbn [Z.to_int]. rewrite (to_uint_six_digits p Hn).
  unfold DecimalString.NilZero.string_of_int, DecimalString.NilZero.string_of_uint.
  destruct (six_digits (Zpos p)) eqn:Hd;
    try (exfalso; revert Hd; apply push_not_nil);
    rewrite <- Hd; unfold six_digits;
    rewrite !string_of_push;
    try reflexivity; try apply mod_10_digit;
    pose proof (leading_digit _ Hn); lia.
Qed.

Lemma serial_of_length index :
  0 <= index < 900000 -> String.length (VINGenerator.serial_of index) = 6%nat.
Proof.
  intros Hi. unfold VINGenerator.serial_of, zfill.
  pose proof (str_of_int_six_digits (100000 + index) ltac:(lia)) as Hlen.
  destruct (str_of_int (100000 + index)) as [|c s] eqn:Hs; [discriminate|].
  rewrite Hlen. cbn [Nat.sub zeros]. 
  destruct (Ascii.eqb c "-" || Ascii.eqb c "+")%bool; cbn [String.append]; exact Hlen.
Qed.

End DecimalFacts.

(* ===================================================================== *)
(** * The seeded generator *)
(* ===================================================================== *)

Section GeneratorFacts.
Import PyStr PyFloat VINGenerator.

Lemma lcg_next_range s : 0 <= lcg_next s < 4294967296.
Proof. unfold lcg_next. apply Z.mod_pos_bound. lia. Qed.

Lemma after_draws_app g l1 l2 :
  after_draws g (l1 ++ l2) = after_draws (after_draws g l1) l2.
Proof. unfold after_draws. apply fold_left_app. Qed.

Lemma draws_after_draws sites : forall g,
  draws (after_draws g sites) = (draws g ++ sites)%list.
Proof.
  induction sites as [|s sites IH]; intros g; cbn.
  - now rewrite app_nil_r.
  - unfold after_draws in IH. rewrite IH. cbn. now rewrite <- app_assoc.
Qed.

Lemma seed_after_draws sites : forall g, seed (after_draws g sites) = seed g.
Proof.
  induction sites as [|s sites IH]; intros g; cbn; [reflexivity|].
  unfold after_draws in IH. now rewrite IH.
Qed.

Lemma seeded_random_eq site g :
  _seeded_random site g = Ok (dyadic (lcg_next (state g)) (-32), after_draw g site).
Proof.
  unfold _seeded_random. cbn [state].
  rewrite int_truediv_2_32 by apply lcg_next_range. reflexivity.
Qed.

Lemma draw_nice s : nice 1 (dyadic (lcg_next s) (-32)).
Proof.
  pose proof (lcg_next_range s).
  apply (dyadic_nice _ (-32) 32 0); lia.
Qed.

(** [int(draw * n)] for a small positive [n]: the draw scaled to [0, n). *)
Lemma scaled_draw k n :
  0 <= k < 4294967296 -> 0 <= n < 1048576 ->
  int_of_float (fmul (dyadic k (-32)) (of_Z n)) = Ok (k * n / 4294967296).
Proof.
  intros Hk Hn. unfold of_Z.
  assert (Hkn : k * n < 2 ^ 53) by (change (2 ^ 53) with 9007199254740992; nia).
  rewrite fmul_dyadic; try lia;
    try (change (2 ^ 53) with 9007199254740992; lia).
  rewrite int_of_float_dyadic by (try lia; nia).
  change (Z.shiftl (k * n) (-32 + 0)) with (Z.shiftr (k * n) 32).
  rewrite Z.shiftr_div_pow2 by lia. reflexivity.
Qed.

Lemma scaled_draw_range k n :
  0 <= k < 4294967296 -> 0 < n -> 0 <= k * n / 4294967296 < n.
Proof.
  intros Hk Hn. split.
  - apply Z.div_pos; nia.
  - apply Z.div_lt_upper_bound; nia.
Qed.

Lemma py_index_ok {A : Type} (l : list A) i :
  0 <= i < len l ->
  exists a, py_index l i = Ok a /\ nth_error l (Z.to_nat i) = Some a /\ In a l.
Proof.
  intros [Hi Hlen]. unfold py_index, len in *.
  assert (H1 : (i <? 0) = false) by (apply Z.ltb_ge; lia). rewrite H1.
  assert (H2 : (Z.of_nat (length l) <=? i) = false) by (apply Z.leb_gt; lia).
  rewrite H1, H2. cbn [orb].
  destruct (nth_error l (Z.to_nat i)) as [a|] eqn:Hnth.
  - exists a. split; [reflexivity|]. split; [reflexivity|].
    eapply nth_error_In, Hnth.
  - apply nth_error_None in Hnth. lia.
Qed.

(** ** The methods return, and what they draw *)

Lemma str_of_int_nonempty n : str_of_int n <> "".
Proof.
  unfold str_of_int. destruct (Z.to_int n) as [d|d]; cbn.
  - destruct d; discriminate.
  - discriminate.
Qed.

Lemma last_char_some s : s <> "" -> exists c, last_char s = Some c.
Proof.
  induction s as [|c s IH]; [congruence|]. intros _.
  destruct s as [|c' s]; [exists c; reflexivity|].
  destruct IH as [d Hd]; [discriminate|]. exists d. exact Hd.
Qed.

Lemma generate_pre_1981_vin_ok manufacturer year index g :
  exists year_code plant,
    last_char (str_of_int year) = Some year_code
    /\ In plant plants
    /\ generate_pre_1981_vin manufacturer year index g
       = Ok (String year_code (String plant ("01C" +:+ serial_of index)),
             after_draw g PlantLetter).
Proof.
  destruct (last_char_some _ (str_of_int_nonempty year)) as [yc Hyc].
  pose proof (lcg_next_range (state g)) as Hk.
  destruct (py_index_ok plants (lcg_next (state g) * 5 / 4294967296))
    as (plant & Hp & _ & Hin).
  { change (len plants) with 5. apply scaled_draw_range; lia. }
  exists yc, plant. repeat split; [exact Hyc | exact Hin |].
  unfold generate_pre_1981_vin, bind, lift. rewrite Hyc, seeded_random_eq.
  change (len plants) with 5. rewrite scaled_draw by lia. rewrite Hp. reflexivity.
Qed.

Lemma generate_post_1981_vin_ok manufacturer year index g :
  exists year_code,
    nth_error (list_ascii_of_string year_codes) (Z.to_nat ((year - 1980) mod 30))
    = Some year_code
    /\ generate_post_1981_vin manufacturer year index g
       = Ok ("1" +:+ upper (take 2 manufacturer) +:+ "BP40E9"
             +:+ String year_code ("F" +:+ serial_of index), g).
Proof.
  destruct (py_index_ok (list_ascii_of_string year_codes) ((year - 1980) mod 30))
    as (yc & Hyc & Hnth & _).
  { change (len (list_ascii_of_string year_codes)) with 30.
    apply Z.mod_pos_bound. lia. }
  exists yc. split; [exact Hnth|].
  unfold generate_post_1981_vin, bind, lift, str_index.
  change (Z.of_nat (String.length year_codes)) with 30. rewrite Hyc. reflexivity.
Qed.

Lemma generate_condition_ok g :
  exists c,
    generate_condition g = Ok (c, after_draw g ConditionRoll)
    /\ 1 <= rating c <= 5.
Proof.
  unfold generate_condition, bind. rewrite seeded_random_eq.
  repeat match goal with
         | |- context [if ?b then _ else _] => destruct b
         end;
    (eexists; split; [reflexivity | cbn; lia]).
Qed.

Lemma generate_mileage_draws year g m g' :
  generate_mileage year g = Ok (m, g') ->
  g' = after_draws g [MileageRate; MileageRoll].
Proof.
  unfold generate_mileage, bind, lift. rewrite seeded_random_eq.
  destruct (float_of_int (2025 - year)) as [age_f|]; [|discriminate].
  rewrite seeded_random_eq.
  repeat match goal with
         | |- context [if ?b then _ else _] => destruct b
         end;
    (destruct (int_of_float _); [|discriminate]);
    intros H; injection H as _ <-; reflexivity.
Qed.

Lemma decimal_nice n d k : niceb k (decimal n d) = true -> nice k (decimal n d).
Proof. apply niceb_nice. Qed.

Lemma generate_mileage_ok year g :
  Z.abs (2025 - year) < 2 ^ 1000 ->
  exists m,
    generate_mileage year g = Ok (m, after_draws g [MileageRate; MileageRoll]).
Proof.
  intros Hage. unfold generate_mileage, bind, lift. rewrite seeded_random_eq.
  destruct (float_of_int_nice (2025 - year) 1000 Hage ltac:(lia)) as (age_f & -> & Hage_f).
  rewrite seeded_random_eq.
  set (r := dyadic (lcg_next (state g)) (-32)).
  assert (Hr : nice 1 r) by apply draw_nice.
  assert (H7000 : nice 14 (of_Z 7000)) by (apply niceb_nice; reflexivity).
  assert (H5000 : nice 14 (of_Z 5000)) by (apply niceb_nice; reflexivity).
  pose proof (fmul_nice 1 14 15 _ _ Hr H7000 ltac:(lia) ltac:(lia)) as Hprod.
  pose proof (fadd_nice 14 16 16 _ _ H5000 Hprod ltac:(lia) ltac:(lia) ltac:(lia)) as Havg.
  pose proof (fmul_nice 1001 18 1019 _ _ Hage_f Havg ltac:(lia) ltac:(lia)) as Hbase.
  assert (Hband : forall n d, niceb 2 (decimal n d) = true ->
            exists m, int_of_float
                        (fmul (fmul age_f (fadd (of_Z 5000) (fmul r (of_Z 7000))))
                              (decimal n d)) = Ok m).
  { intros n d Hnd. apply (nice_int_of_float 1023).
    apply (fmul_nice 1020 2 1022); [exact Hbase | now apply niceb_nice | lia | lia]. }
  repeat match goal with
         | |- context [if ?b then _ else _] => destruct b
         end;
    match goal with
    | |- context [fmul _ (decimal ?n ?d)] =>
        destruct (Hband n d eq_refl) as [m ->]; exists m; reflexivity
    end.
Qed.

Lemma generate_state_ok g :
  exists code, generate_state g = Ok (code, after_draw g StateRoll).
Proof.
  unfold generate_state, bind. rewrite seeded_random_eq.
  destruct (generate_state_loop _ _); eexists; reflexivity.
Qed.

Lemma generate_color_ok year g :
  exists color, generate_color year g = Ok (color, after_draw g ColorPick).
Proof.
  pose proof (lcg_next_range (state g)) as Hk.
  unfold generate_color, bind, lift. rewrite seeded_random_eq.
  destruct (year <? 1970).
  - change (len pre_1970_colors) with 6. rewrite scaled_draw by lia.
    destruct (py_index_ok pre_1970_colors (lcg_next (state g) * 6 / 4294967296))
      as (c & -> & _);
      [change (len pre_1970_colors) with 6; apply scaled_draw_range; lia|].
    exists c. reflexivity.
  - change (len post_1970_colors) with 6. rewrite scaled_draw by lia.
    destruct (py_index_ok post_1970_colors (lcg_next (state g) * 6 / 4294967296))
      as (c & -> & _);
      [change (len post_1970_colors) with 6; apply scaled_draw_range; lia|].
    exists c. reflexivity.
Qed.

Lemma generate_options_loop_ok n : forall selected g,
  exists options,
    generate_options_loop n selected g
    = Ok (options, after_draws g (repeat OptionPick n))
    /\ (length options <= length selected + n)%nat.
Proof.
  induction n as [|n IH]; intros selected g.
  - exists selected. split; [reflexivity | lia].
  - pose proof (lcg_next_range (state g)) as Hk.
    cbn [generate_options_loop]. unfold bind at 1. rewrite seeded_random_eq.
    unfold bind at 1, lift at 1. change (len all_options) with 8.
    rewrite scaled_draw by lia.
    destruct (py_index_ok all_options (lcg_next (state g) * 8 / 4294967296))
      as (option & Hopt & _);
      [change (len all_options) with 8; apply scaled_draw_range; lia|].
    unfold bind at 1, lift at 1. rewrite Hopt.
    destruct (IH (if mem_str option selected then selected
                  else (selected ++ [option])%list) (after_draw g OptionPick))
      as (options & Hloop & Hlen).
    exists options. split; [exact Hloop|].
    destruct (mem_str option selected); [lia|].
    rewrite length_app in Hlen. cbn in Hlen. lia.
Qed.

Lemma generate_options_ok condition_rating g :
  1 <= condition_rating <= 5 ->
  exists options n,
    generate_options condition_rating g
    = Ok (options, after_draws g (OptionCount :: repeat OptionPick n))
    /\ (n <= 8)%nat /\ (length options <= n)%nat.
Proof.
  intros Hrating. unfold generate_options, bind, lift. rewrite seeded_random_eq.
  destruct (float_of_int_nice condition_rating 3 ltac:(lia) ltac:(lia))
    as (rating_f & -> & Hrf).
  assert (H3 : nice 2 (of_Z 3)) by (apply niceb_nice; reflexivity).
  pose proof (fmul_nice 4 1 5 _ _ Hrf (draw_nice (state g)) ltac:(lia) ltac:(lia)) as Hp.
  pose proof (fmul_nice 6 2 8 _ _ Hp H3 ltac:(lia) ltac:(lia)) as Hc.
  destruct (nice_int_of_float _ _ Hc) as [option_count ->].
  set (n := Z.to_nat (Z.min option_count (len all_options))).
  destruct (generate_options_loop_ok n [] (after_draw g OptionCount))
    as (options & Hloop & Hlen).
  exists options, n. split; [exact Hloop|]. split; [|exact Hlen].
  subst n. change (len all_options) with 8. lia.
Qed.

Lemma number_mul_float_ok v y a b :
  number_nice a v -> nice b y -> -1074 <= a + b <= 1023 -> a <= 1024 ->
  exists x, number_mul_float v y = Ok x /\ nice (a + b + 1) x.
Proof.
  intros Hv Hy Hab Ha. destruct v as [z|x]; cbn [number_mul_float number_nice] in *.
  - destruct Hv as [Hz Ha1].
    destruct (float_of_int_nice z (a - 1) Hz ltac:(lia)) as (x & -> & Hx).
    cbn [rbind]. eexists. split; [reflexivity|].
    replace (a - 1 + 1) with a in Hx by lia.
    apply (fmul_nice a b); [exact Hx | exact Hy | lia | lia].
  - eexists. split; [reflexivity|].
    apply (fmul_nice a b); [exact Hv | exact Hy | lia | lia].
Qed.

Lemma number_add_int_ok v n a :
  number_nice a v -> Z.abs n < 2 ^ (a - 1) -> 1 <= a <= 1000 ->
  exists v', number_add_int v n = Ok v' /\ number_nice (a + 2) v'.
Proof.
  intros Hv Hn Ha. destruct v as [z|x]; cbn [number_add_int number_nice] in *.
  - eexists. split; [reflexivity|]. cbn [number_nice]. split; [|lia].
    destruct Hv as [Hz _].
    replace (a + 2 - 1) with (a - 1 + 2) by lia.
    rewrite Z.pow_add_r by lia. change (2 ^ 2) with 4. lia.
  - destruct (float_of_int_nice n (a - 1) Hn ltac:(lia)) as (y & -> & Hy).
    cbn [rbind]. eexists. split; [reflexivity|]. cbn [number_nice].
    replace (a - 1 + 1) with a in Hy by lia.
    apply (fadd_nice a a a); [exact Hv | exact Hy | lia | lia | lia].
Qed.

Lemma calculate_value_ok condition_rating mileage options g :
  1 <= condition_rating <= 5 -> (length options <= 8)%nat ->
  exists value,
    calculate_value condition_rating mileage options g
    = Ok (value, after_draw g ValueVariance).
Proof.
  intros Hrating Hlen.
  assert (Hbase : exists value, base_values condition_rating = Ok value
                                /\ 0 <= value <= 100000).
  { assert (Hc : condition_rating = 1 \/ condition_rating = 2 \/ condition_rating = 3
                 \/ condition_rating = 4 \/ condition_rating = 5) by lia.
    destruct Hc as [->|[->|[->|[->| ->]]]]; eexists; (split; [reflexivity | lia]). }
  destruct Hbase as (value & Hbase & Hvalue).
  unfold calculate_value. unfold bind at 1, lift at 1. rewrite Hbase.
  assert (Hint : number_nice 18 (Int value)).
  { cbn. change (2 ^ (18 - 1)) with 131072. lia. }
  assert (H12 : nice 2 (decimal 12 10)) by (apply niceb_nice; reflexivity).
  assert (H08 : nice 2 (decimal 8 10)) by (apply niceb_nice; reflexivity).
  assert (Hadj : exists v,
             (if mileage <? 50000
              then rbind (number_mul_float (Int value) (decimal 12 10))
                         (fun x => Ok (Float x))
              else if 150000 <? mileage
              then rbind (number_mul_float (Int value) (decimal 8 10))
                         (fun x => Ok (Float x))
              else Ok (Int value)) = Ok v /\ number_nice 21 v).
  { destruct (mileage <? 50000); [|destruct (150000 <? mileage)].
    - destruct (number_mul_float_ok _ _ 18 2 Hint H12 ltac:(lia) ltac:(lia))
        as (x & -> & Hx).
      eexists. split; [reflexivity | exact Hx].
    - destruct (number_mul_float_ok _ _ 18 2 Hint H08 ltac:(lia) ltac:(lia))
        as (x & -> & Hx).
      eexists. split; [reflexivity | exact Hx].
    - eexists. split; [reflexivity|]. cbn. change (2 ^ (21 - 1)) with 1048576. lia. }
  destruct Hadj as (v & Hadj & Hv).
  unfold bind at 1, lift at 1. rewrite Hadj.
  assert (Hbonus : Z.abs (len options * 2000) < 2 ^ (21 - 1)).
  { unfold len. change (2 ^ (21 - 1)) with 1048576. lia. }
  destruct (number_add_int_ok v _ 21 Hv Hbonus ltac:(lia)) as (v' & Hadd & Hv').
  unfold bind at 1, lift at 1. rewrite Hadd.
  unfold bind at 1. rewrite seeded_random_eq.
  assert (H09 : nice 0 (decimal 9 10)) by (apply niceb_nice; reflexivity).
  assert (H02 : nice 0 (decimal 2 10)) by (apply niceb_nice; reflexivity).
  pose proof (fmul_nice 1 0 1 _ _ (draw_nice (state g)) H02 ltac:(lia) ltac:(lia)) as Hp.
  pose proof (fadd_nice 0 2 2 _ _ H09 Hp ltac:(lia) ltac:(lia) ltac:(lia)) as Hvar.
  destruct (number_mul_float_ok v' _ 23 4 Hv' Hvar ltac:(lia) ltac:(lia))
    as (x & Hmul & Hx).
  unfold bind at 1, lift at 1. rewrite Hmul.
  destruct (nice_int_of_float _ _ Hx) as [z Hz].
  unfold lift. rewrite Hz. exists z. reflexivity.
Qed.

(** ** [generate_instance] *)

Lemma generate_vin_ok v index g :
  exists vin_,
    generate_vin v index g
    = Ok (vin_, after_draws g (if year v <=? 1980 then [PlantLetter] else [])).
Proof.
  unfold generate_vin. destruct (year v <=? 1980).
  - destruct (generate_pre_1981_vin_ok (manufacturer v) (year v) index g)
      as (yc & plant & _ & _ & H).
    rewrite H. eexists. reflexivity.
  - destruct (generate_post_1981_vin_ok (manufacturer v) (year v) index g)
      as (yc & _ & H).
    rewrite H. eexists. reflexivity.
Qed.

Lemma after_draw_draws g site : after_draw g site = after_draws g [site].
Proof. reflexivity. Qed.

Lemma generate_instance_spec today v index g :
  exists vin_ g1,
    generate_vin v index g = Ok (vin_, g1)
    /\ ((exists e,
           generate_mileage (year v) (after_draw g1 ConditionRoll) = Raise e
           /\ generate_instance today v index g = Raise e)
        \/ (exists r n d,
              generate_instance today v index g
              = Ok (r, after_draws g1 (attribute_draws n))
              /\ (n <= 8)%nat /\ 0 <= d <= 179
              /\ vin r = vin_ /\ last_service_date r = today - d)).
Proof.
  destruct (generate_vin_ok v index g) as (vin_ & Hvin).
  set (g1 := after_draws g (if year v <=? 1980 then [PlantLetter] else [])) in *.
  exists vin_, g1. split; [exact Hvin|].
  remember (generate_instance today v index g) as G eqn:HG.
  unfold generate_instance in HG. cbv zeta in HG.
  change (if year v <=? 1980
          then generate_pre_1981_vin (manufacturer v) (year v) index
          else generate_post_1981_vin (manufacturer v) (year v) index)
    with (generate_vin v index) in HG.
  unfold bind at 1 in HG. rewrite Hvin in HG.
  destruct (generate_condition_ok g1) as (c & Hc & Hrating).
  unfold bind at 1 in HG. rewrite Hc in HG.
  unfold bind at 1 in HG.
  destruct (generate_mileage (year v) (after_draw g1 ConditionRoll))
    as [[m g3]|e] eqn:Hm.
  2:{ left. exists e. split; [reflexivity | exact HG]. }
  right. pose proof (generate_mileage_draws _ _ _ _ Hm) as Hg3. subst g3.
  set (g3 := after_draws (after_draw g1 ConditionRoll) [MileageRate; MileageRoll]) in *.
  destruct (generate_state_ok g3) as (st & Hst).
  unfold bind at 1 in HG. rewrite Hst in HG.
  destruct (generate_color_ok (year v) (after_draw g3 StateRoll)) as (col & Hcol).
  unfold bind at 1 in HG. rewrite Hcol in HG.
  destruct (generate_options_ok (rating c) (after_draw (after_draw g3 StateRoll) ColorPick)
              Hrating) as (opts & n & Hopts & Hn & Hlen).
  unfold bind at 1 in HG. rewrite Hopts in HG.
  set (g6 := after_draws (after_draw (after_draw g3 StateRoll) ColorPick)
               (OptionCount :: repeat OptionPick n)) in *.
  destruct (calculate_value_ok (rating c) m opts g6 Hrating ltac:(lia)) as (value & Hval).
  unfold bind at 1 in HG. rewrite Hval in HG.
  unfold bind at 1 in HG. rewrite seeded_random_eq in HG.
  pose proof (lcg_next_range (state (after_draw g6 ValueVariance))) as Hk.
  unfold bind at 1, lift at 1 in HG. rewrite scaled_draw in HG by lia.
  unfold bind at 1 in HG. rewrite seeded_random_eq in HG.
  unfold bind at 1 in HG. rewrite seeded_random_eq in HG.
  unfold bind at 1 in HG. rewrite seeded_random_eq in HG.
  unfold bind at 1 in HG. rewrite seeded_random_eq in HG.
  unfold ret in HG. rewrite HG.
  eexists _, n, _. split.
  { apply f_equal. apply f_equal2; [reflexivity|].
    subst g6 g3. rewrite !after_draw_draws.
    rewrite <- !after_draws_app. reflexivity. }
  split; [exact Hn|]. split; [|split; reflexivity].
  pose proof (scaled_draw_range _ 180 Hk ltac:(lia)). lia.
Qed.

(** Whenever the call returns, its draws are the ones listed. *)
Lemma generate_instance_draws today v index g r g' :
  generate_instance today v index g = Ok (r, g') ->
  exists n d,
    (n <= 8)%nat /\ 0 <= d <= 179
    /\ last_service_date r = today - d
    /\ g' = after_draws g
              ((if year v <=? 1980 then [PlantLetter] else []) ++ attribute_draws n).
Proof.
  intros H. destruct (generate_vin_ok v index g) as (vin0 & Hvin0).
  destruct (generate_instance_spec today v index g)
    as (vin_ & g1 & Hvin & [(e & _ & He)|(r' & n & d & Hok & Hn & Hd & _ & Hdate)]).
  - rewrite He in H. discriminate.
  - rewrite Hok in H. injection H as <- <-.
    rewrite Hvin0 in Hvin. injection Hvin as _ <-.
    exists n, d. split; [exact Hn|]. split; [exact Hd|]. split; [exact Hdate|].
    now rewrite (after_draws_app g).
Qed.

(** The call returns for every model year of a reasonable size. *)
Lemma generate_instance_returns today v index g :
  Z.abs (2025 - year v) < 2 ^ 1000 ->
  exists r g', generate_instance today v index g = Ok (r, g').
Proof.
  intros Hage.
  destruct (generate_instance_spec today v index g)
    as (vin_ & g1 & Hvin & [(e & Hm & _)|(r & n & d & Hok & _)]).
  - destruct (generate_mileage_ok (year v) (after_draw g1 ConditionRoll) Hage)
      as (m & Hm').
    rewrite Hm' in Hm. discriminate.
  - eauto.
Qed.

Ltac step_bind :=
  match goal with
  | |- context [match ?m ?g with Ok _ => _ | Raise _ => _ end] =>
      lazymatch m with
      | context [match _ with _ => _ end] => fail
      | _ => destruct (m g) as [[? ?]|?]; cbn [outcome]; try reflexivity
      end
  | |- context [match ?x with Ok _ => _ | Raise _ => _ end] =>
      lazymatch x with
      | context [match _ with _ => _ end] => fail
      | _ => destruct x; cbn [outcome]; try reflexivity
      end
  end.

Lemma generate_instance_today today1 today2 v index g :
  outcome today1 (generate_instance today1 v index g)
  = outcome today2 (generate_instance today2 v index g).
Proof.
  unfold generate_instance. cbv zeta.
  generalize (if year v <=? 1980
              then generate_pre_1981_vin (manufacturer v) (year v) index
              else generate_post_1981_vin (manufacturer v) (year v) index).
  intros vin_step. unfold bind, lift, ret.
  repeat step_bind.
  unfold without_date.
  cbn [vin i_manufacturer i_model i_year i_body_class i_vehicle_id
       condition_rating condition_description mileage mileage_verified
       registered_state registration_status title_status exterior_color
       factory_options estimated_value matching_numbers last_service_date].
  do 2 f_equal. f_equal. lia.
Qed.

(** ** The length of a VIN *)

Lemma length_append s1 s2 :
  String.length (s1 +:+ s2) = (String.length s1 + String.length s2)%nat.
Proof.
  induction s1 as [|c s1 IH]; [reflexivity|].
  change (String c s1 +:+ s2) with (String c (s1 +:+ s2)).
  cbn [String.length]. now rewrite IH.
Qed.

Lemma length_upper s : String.length (upper s) = String.length s.
Proof.
  induction s as [|c s IH]; [reflexivity|].
  cbn [upper String.length]. now rewrite IH.
Qed.

Lemma length_take_2 s : (2 <= String.length s)%nat -> String.length (take 2 s) = 2%nat.
Proof. destruct s as [|c [|c' s]]; cbn; intros H; lia. Qed.

Lemma post_1981_vin_length manufacturer year_code index :
  (2 <= String.length manufacturer)%nat -> 0 <= index < 900000 ->
  String.length ("1" +:+ upper (take 2 manufacturer) +:+ "BP40E9"
                 +:+ String year_code ("F" +:+ serial_of index)) = 17%nat.
Proof.
  intros Hm Hi. rewrite !length_append. cbn [String.length].
  rewrite !length_append, length_upper, length_take_2, serial_of_length by assumption.
  reflexivity.
Qed.

Lemma pre_1981_vin_length year_code plant index :
  0 <= index < 900000 ->
  String.length (String year_code (String plant ("01C" +:+ serial_of index))) = 11%nat.
Proof.
  intros Hi. cbn [String.length]. rewrite length_append, serial_of_length by assumption.
  reflexivity.
Qed.

End GeneratorFacts.

(** C5. One call of the seeded draw moves the state [s] to
    [(s * 1664525 + 1013904223) mod 2^32] and returns the float whose value
    is exactly the new state divided by [2^32], a number in [0, 1). *)
Theorem seeded_random_lcg (site : VINGenerator.draw_site) (g : VINGenerator.generator) :
  exists x g',
    VINGenerator._seeded_random site g = Ok (x, g')
    /\ VINGenerator.state g'
       = (VINGenerator.state g * 1664525 + 1013904223) mod 4294967296
    /\ VINGenerator.seed g' = VINGenerator.seed g
    /\ (PyFloat.to_Q x == VINGenerator.state g' # 4294967296)%Q
    /\ (0 <= PyFloat.to_Q x)%Q /\ (PyFloat.to_Q x < 1)%Q.
Proof.
  exists (PyFloat.dyadic (VINGenerator.lcg_next (VINGenerator.state g)) (-32)),
         (VINGenerator.after_draw g site).
  pose proof (lcg_next_range (VINGenerator.state g)) as Hk.
  pose proof (to_Q_dyadic_2_32 _ Hk) as HQ.
  split; [apply seeded_random_eq|]. split; [reflexivity|]. split; [reflexivity|].
  split; [exact HQ|]. cbn [VINGenerator.after_draw VINGenerator.state].
  rewrite HQ. unfold Qle, Qlt. cbn [Qnum Qden]. lia.
Qed.

(** C6 (as the code behaves). The year code of the post-1981 VIN is drawn
    from the 30-symbol alphabet "ABCDEFGHJKLMNPRSTVWXY123456789", at index
    [(year - 1980) mod 30], for every year. *)
Theorem post_1981_year_code (year : Z) :
  String.length VINGenerator.year_codes = 30%nat /\ VINGenerator.year_code_at 30 year.
Proof.
  split; [reflexivity|]. intros manufacturer index g.
  destruct (py_index_ok (list_ascii_of_string VINGenerator.year_codes)
              ((year - 1980) mod 30)) as (yc & Hyc & _).
  { change (VINGenerator.len (list_ascii_of_string VINGenerator.year_codes)) with 30.
    apply Z.mod_pos_bound. lia. }
  exists yc. split; [exact Hyc|].
  unfold VINGenerator.generate_post_1981_vin, VINGenerator.bind, VINGenerator.lift,
    VINGenerator.str_index.
  change (Z.of_nat (String.length VINGenerator.year_codes)) with 30.
  now rewrite Hyc.
Qed.

(** C6, the counterexample: for 2011 the index [(2011 - 1980) mod 31] is 0,
    the letter "A", while the generated VIN carries "B". *)
Lemma year_code_not_mod_31 : ~ VINGenerator.year_code_at 31 2011.
Proof.
  intros H. destruct (H "Ford" 0 (VINGenerator.init 0)) as (yc & Hyc & Hvin).
  vm_compute in Hyc. injection Hyc as <-. vm_compute in Hvin. discriminate Hvin.
Qed.

(** C1 (as the code behaves). Two generators constructed with the same seed
    and called once with the same record and index end the same way: with
    the same exception, or with records that agree in every field but
    [last_service_date], which lies the same number of days before the day
    of each call; so calls made on the same day give identical records. *)
Theorem generate_instance_deterministic
    (seed : Z) (v : VINGenerator.vehicle) (index today1 today2 : Z) :
  let call1 := VINGenerator.generate_instance today1 v index (VINGenerator.init seed) in
  let call2 := VINGenerator.generate_instance today2 v index (VINGenerator.init seed) in
  VINGenerator.outcome today1 call1 = VINGenerator.outcome today2 call2
  /\ (today1 = today2 -> call1 = call2).
Proof.
  cbv zeta. split.
  - apply generate_instance_today.
  - intros ->. reflexivity.
Qed.

(** C1, the counterexample: the same seed, record and index on two
    consecutive days give two records with different service dates. *)
Lemma same_seed_different_day :
  exists r1 r2 g',
    VINGenerator.generate_instance 739000 VINGenerator.mustang_1967 0 (VINGenerator.init 638254039)
    = Ok (r1, g')
    /\ VINGenerator.generate_instance 739001 VINGenerator.mustang_1967 0 (VINGenerator.init 638254039)
       = Ok (r2, g')
    /\ VINGenerator.last_service_date r1 = 738981
    /\ VINGenerator.last_service_date r2 = 738982
    /\ r1 <> r2.
Proof.
  do 3 eexists. split; [vm_compute; reflexivity|].
  split; [vm_compute; reflexivity|].
  split; [reflexivity|]. split; [reflexivity|].
  intros H. apply (f_equal VINGenerator.last_service_date) in H. discriminate H.
Qed.

(** C4 (as the code behaves). A call of [generate_instance] that returns
    has consumed the sequence in this order: for a model year up to 1980
    the plant letter of the VIN; then the condition roll, the two mileage
    draws, the registered state, the exterior colour, the option count and
    at most eight option picks, the value variance, the service-date offset
    (0 to 179 days back from the day of the call), and last the four flags
    mileage_verified, registration_status, title_status, matching_numbers.
    The call returns for every model year within [2^1000] of 2025. *)
Theorem generate_instance_draw_order
    (today : Z) (v : VINGenerator.vehicle) (index : Z) (g : VINGenerator.generator) :
  (forall r g',
     VINGenerator.generate_instance today v index g = Ok (r, g') ->
     exists n d,
       (n <= 8)%nat /\ 0 <= d <= 179
       /\ VINGenerator.last_service_date r = today - d
       /\ VINGenerator.draws g'
          = (VINGenerator.draws g
             ++ (if VINGenerator.year v <=? 1980 then [VINGenerator.PlantLetter] else [])
             ++ VINGenerator.attribute_draws n)%list)
  /\ (Z.abs (2025 - VINGenerator.year v) < 2 ^ 1000 ->
      exists r g', VINGenerator.generate_instance today v index g = Ok (r, g')).
Proof.
  split.
  - intros r g' H.
    destruct (generate_instance_draws _ _ _ _ _ _ H) as (n & d & Hn & Hd & Hdate & ->).
    exists n, d. repeat split; try lia; try exact Hdate.
    apply draws_after_draws.
  - apply generate_instance_returns.
Qed.

Lemma generate_instance_draw_order_witness :
  exists r g',
    VINGenerator.generate_instance 739000 VINGenerator.fairmont_1980 7
      (VINGenerator.init 42) = Ok (r, g')
    /\ exists n d,
         (n <= 8)%nat /\ 0 <= d <= 179
         /\ VINGenerator.last_service_date r = 739000 - d
         /\ VINGenerator.draws g'
            = ([] ++ [VINGenerator.PlantLetter] ++ VINGenerator.attribute_draws n)%list.
Proof.
  destruct (proj2 (generate_instance_draw_order 739000 VINGenerator.fairmont_1980 7
                     (VINGenerator.init 42)))
    as (r & g' & Hok); [vm_compute; reflexivity|].
  exists r, g'. split; [exact Hok|].
  exact (proj1 (generate_instance_draw_order 739000 VINGenerator.fairmont_1980 7
                  (VINGenerator.init 42)) r g' Hok).
Defined.

(** C4, the counterexample: a call whose last draw is the one of
    matching_numbers, not the service-date offset. *)
Lemma service_offset_is_not_drawn_last :
  exists r g',
    VINGenerator.generate_instance 739000 VINGenerator.f150_2020 3 (VINGenerator.init 12345)
    = Ok (r, g')
    /\ forall n, VINGenerator.draws g' <> VINGenerator.claimed_draws n.
Proof.
  do 2 eexists. split; [vm_compute; reflexivity|].
  intros n H. apply (f_equal (@rev _)) in H. unfold VINGenerator.claimed_draws in H.
  rewrite !rev_app_distr in H. cbn in H. discriminate H.
Qed.

(** The two formats at the boundary. In [generate_instance], model year
    1980 gets the pre-1981 VIN: the year digit "0", a plant letter, "01C"
    and the serial; model year 1981 gets the post-1981 VIN: "1", the first
    two characters of the manufacturer in upper case, "BP40E9", the year code
    "B", the plant "F" and the serial. For an index from 0 to 899999 the
    first VIN has 11 characters and, when the manufacturer is ASCII text of
    at least two characters, the second has 17. *)
Lemma vin_era_boundary
    (today : Z) (v : VINGenerator.vehicle) (index : Z) (g : VINGenerator.generator) :
  (VINGenerator.year v = 1980 ->
   exists r g' plant,
     VINGenerator.generate_instance today v index g = Ok (r, g')
     /\ In plant VINGenerator.plants
     /\ VINGenerator.vin r
        = String "0" (String plant ("01C" +:+ VINGenerator.serial_of index))
     /\ (0 <= index < 900000 -> String.length (VINGenerator.vin r) = 11%nat))
  /\ (VINGenerator.year v = 1981 ->
      exists r g',
        VINGenerator.generate_instance today v index g = Ok (r, g')
        /\ VINGenerator.vin r
           = "1" +:+ PyStr.upper (PyStr.take 2 (VINGenerator.manufacturer v))
             +:+ "BP40E9" +:+ String "B" ("F" +:+ VINGenerator.serial_of index)
        /\ (PyStr.isascii (VINGenerator.manufacturer v) = true ->
            (2 <= String.length (VINGenerator.manufacturer v))%nat ->
            0 <= index < 900000 ->
            String.length (VINGenerator.vin r) = 17%nat)).
Proof.
  split; intros Hy.
  - destruct (generate_instance_spec today v index g)
      as (vin_ & g1 & Hvin & [(e & Hm & _)|(r & n & d & Hok & _ & _ & Hv & _)]).
    { destruct (generate_mileage_ok (VINGenerator.year v)
                  (VINGenerator.after_draw g1 VINGenerator.ConditionRoll)) as (m & Hm').
      - rewrite Hy. cbn. lia.
      - rewrite Hm' in Hm. discriminate. }
    destruct (generate_pre_1981_vin_ok (VINGenerator.manufacturer v) 1980 index g)
      as (yc & plant & Hyc & Hin & Hpre).
    unfold VINGenerator.generate_vin in Hvin. rewrite Hy in Hvin.
    change (1980 <=? 1980) with true in Hvin. cbv iota in Hvin.
    rewrite Hpre in Hvin. injection Hvin as <- _.
    change (PyStr.last_char (PyStr.str_of_int 1980)) with (Some "0"%char) in Hyc.
    injection Hyc as <-.
    eexists r, _, plant. split; [exact Hok|]. split; [exact Hin|].
    split; [exact Hv|]. intros Hi. rewrite Hv. now apply pre_1981_vin_length.
  - destruct (generate_instance_spec today v index g)
      as (vin_ & g1 & Hvin & [(e & Hm & _)|(r & n & d & Hok & _ & _ & Hv & _)]).
    { destruct (generate_mileage_ok (VINGenerator.year v)
                  (VINGenerator.after_draw g1 VINGenerator.ConditionRoll)) as (m & Hm').
      - rewrite Hy. cbn. lia.
      - rewrite Hm' in Hm. discriminate. }
    destruct (generate_post_1981_vin_ok (VINGenerator.manufacturer v) 1981 index g)
      as (yc & Hyc & Hpost).
    unfold VINGenerator.generate_vin in Hvin. rewrite Hy in Hvin.
    change (1981 <=? 1980) with false in Hvin. cbv iota in Hvin.
    rewrite Hpost in Hvin. injection Hvin as <- _.
    vm_compute in Hyc. injection Hyc as <-.
    eexists r, _. split; [exact Hok|]. split; [exact Hv|].
    intros _ Hm Hi. rewrite Hv. now apply post_1981_vin_length.
Qed.

Lemma vin_era_boundary_witness :
  (exists r g' plant,
     VINGenerator.generate_instance 739000 VINGenerator.fairmont_1980 7
       (VINGenerator.init 42) = Ok (r, g')
     /\ In plant VINGenerator.plants
     /\ VINGenerator.vin r
        = String "0" (String plant ("01C" +:+ VINGenerator.serial_of 7))
     /\ (0 <= 7 < 900000 -> String.length (VINGenerator.vin r) = 11%nat))
  /\ (exists r g',
        VINGenerator.generate_instance 739000 VINGenerator.escort_1981 7
          (VINGenerator.init 42) = Ok (r, g')
        /\ VINGenerator.vin r
           = "1" +:+ PyStr.upper (PyStr.take 2 "Ford")
             +:+ "BP40E9" +:+ String "B" ("F" +:+ VINGenerator.serial_of 7)
        /\ (PyStr.isascii "Ford" = true ->
            (2 <= String.length "Ford")%nat ->
            0 <= 7 < 900000 ->
            String.length (VINGenerator.vin r) = 17%nat)).
Proof.
  split.
  - apply (proj1 (vin_era_boundary 739000 VINGenerator.fairmont_1980 7
                    (VINGenerator.init 42))).
    reflexivity.
  - apply (proj2 (vin_era_boundary 739000 VINGenerator.escort_1981 7
                    (VINGenerator.init 42))).
    reflexivity.
Defined.

(** C7 (as the code behaves). The era boundary lies between 1980 and 1981,
    but the post-1981 VIN has 17 characters only when [manufacturer[:2]]
    has two: for a manufacturer name of one letter and model year 1981 the
    VIN is "1FBP40E9BF100000", 16 characters. The serial has six digits
    only up to index 899999: at index 900000 it is "1000000", and the VIN
    has 18 characters for model year 1981 and 12 for model year 1980. *)
Theorem one_letter_manufacturer_gets_16_characters
    (today : Z) (g : VINGenerator.generator) :
  (exists r g',
     VINGenerator.generate_instance today VINGenerator.f_coupe_1981 0 g = Ok (r, g')
     /\ VINGenerator.vin r = "1FBP40E9BF100000"
     /\ String.length (VINGenerator.vin r) = 16%nat)
  /\ (exists r g',
        VINGenerator.generate_instance today VINGenerator.escort_1981 900000 g
        = Ok (r, g')
        /\ VINGenerator.vin r = "1FOBP40E9BF1000000"
        /\ String.length (VINGenerator.vin r) = 18%nat)
  /\ (exists r g' plant,
        VINGenerator.generate_instance today VINGenerator.fairmont_1980 900000 g
        = Ok (r, g')
        /\ VINGenerator.vin r = String "0" (String plant "01C1000000")
        /\ String.length (VINGenerator.vin r) = 12%nat).
Proof.
  split; [|split].
  - destruct (proj2 (vin_era_boundary today VINGenerator.f_coupe_1981 0 g) eq_refl)
      as (r & g' & Hok & Hvin & _).
    exists r, g'. split; [exact Hok|]. rewrite Hvin. split; reflexivity.
  - destruct (proj2 (vin_era_boundary today VINGenerator.escort_1981 900000 g) eq_refl)
      as (r & g' & Hok & Hvin & _).
    exists r, g'. split; [exact Hok|]. rewrite Hvin. split; reflexivity.
  - destruct (proj1 (vin_era_boundary today VINGenerator.fairmont_1980 900000 g) eq_refl)
      as (r & g' & plant & Hok & _ & Hvin & _).
    exists r, g', plant. split; [exact Hok|]. rewrite Hvin. split; reflexivity.
Qed.

(* ===================================================================== *)
(** * The allocation of VINs *)
(* ===================================================================== *)

Section DistributionFacts.
Import PyFloat Distribution.
Import VINGenerator(vehicle, instance_count, len).

Lemma total_vins_cons x l : total_vins (x :: l) = vin_count x + total_vins l.
Proof. reflexivity. Qed.

Lemma total_vins_insert (l : list allocation) i d d' :
  nth_error l i = Some d ->
  total_vins (<[i := d']> l) = total_vins l - vin_count d + vin_count d'.
Proof.
  revert i. induction l as [|x l IH]; intros [|i] H; try discriminate.
  - injection H as ->. change (<[0%nat := d']> (d :: l)) with (d' :: l).
    rewrite !total_vins_cons. lia.
  - cbn in H. specialize (IH i H).
    change (<[S i := d']> (x :: l)) with (x :: <[i := d']> l).
    rewrite !total_vins_cons. lia.
Qed.

Lemma all_at_least_min_insert (l : list allocation) i d' :
  all_at_least_min l -> min_vins_per_vehicle <= vin_count d' ->
  all_at_least_min (<[i := d']> l).
Proof.
  unfold all_at_least_min. intros Hl Hd. revert i.
  induction Hl as [|x l Hx Hl IH]; intros [|i]; cbn; constructor; auto.
Qed.

Lemma map_vehicle_insert (l : list allocation) i d d' :
  nth_error l i = Some d -> a_vehicle d' = a_vehicle d ->
  map a_vehicle (<[i := d']> l) = map a_vehicle l.
Proof.
  revert i. induction l as [|x l IH]; intros [|i] H Hv; try discriminate.
  - injection H as ->. change (<[0%nat := d']> (d :: l)) with (d' :: l).
    cbn [map]. now rewrite Hv.
  - change (<[S i := d']> (x :: l)) with (x :: <[i := d']> l).
    cbn [map]. f_equal. apply IH; [exact H | exact Hv].
Qed.

Lemma py_index_inv {A : Type} (l : list A) j a :
  0 <= j -> py_index l j = Ok a -> nth_error l (Z.to_nat j) = Some a.
Proof.
  intros Hj. unfold py_index.
  assert (H0 : (j <? 0) = false) by (apply Z.ltb_ge; lia). rewrite H0.
  destruct ((j <? 0) || (Z.of_nat (length l) <=? j)); [discriminate|].
  destruct (nth_error l (Z.to_nat j)); [|discriminate]. now intros [= ->].
Qed.

Lemma py_mod_inv a b j : py_mod a b = Ok j -> 0 <= a -> 0 <= b -> 0 < b /\ 0 <= j < b.
Proof.
  unfold py_mod. destruct (b =? 0) eqn:Hb; [discriminate|].
  apply Z.eqb_neq in Hb. intros [= <-] Ha Hb0.
  split; [lia|]. apply Z.mod_pos_bound. lia.
Qed.

(** What one adjusting step keeps and changes. *)
Lemma add_step_spec l i l' :
  0 <= i -> add_step l i = Ok l' ->
  total_vins l' = total_vins l + 1
  /\ (all_at_least_min l -> all_at_least_min l')
  /\ map a_vehicle l' = map a_vehicle l.
Proof.
  intros Hi. unfold add_step, rbind.
  destruct (py_mod i (len l)) as [j|] eqn:Hj; [|discriminate].
  apply py_mod_inv in Hj as [_ Hj]; [|lia|unfold len; lia].
  destruct (py_index l j) as [d|] eqn:Hd; [|discriminate].
  apply py_index_inv in Hd; [|lia]. intros [= <-].
  rewrite (total_vins_insert _ _ _ _ Hd). cbn [add_vins vin_count].
  split; [lia|]. split.
  - intros Hmin. apply all_at_least_min_insert; [exact Hmin|].
    cbn [add_vins vin_count].
    unfold all_at_least_min in Hmin. rewrite List.Forall_forall in Hmin.
    specialize (Hmin d (nth_error_In _ _ Hd)). lia.
  - now apply (map_vehicle_insert _ _ d).
Qed.

Lemma remove_step_spec l i l' :
  0 <= i -> remove_step l i = Ok l' ->
  total_vins l - 1 <= total_vins l' <= total_vins l
  /\ (all_at_least_min l -> all_at_least_min l')
  /\ map a_vehicle l' = map a_vehicle l.
Proof.
  intros Hi. unfold remove_step, rbind.
  destruct (py_mod i (len l)) as [j|] eqn:Hj; [|discriminate].
  apply py_mod_inv in Hj as [_ Hj]; [|lia|unfold len; lia].
  destruct (py_index l j) as [d|] eqn:Hd; [|discriminate].
  apply py_index_inv in Hd; [|lia].
  destruct (min_vins_per_vehicle <? vin_count d) eqn:Hgt; intros [= <-].
  - apply Z.ltb_lt in Hgt.
    rewrite (total_vins_insert _ _ _ _ Hd). cbn [add_vins vin_count].
    split; [lia|]. split.
    + intros Hmin. apply all_at_least_min_insert; [exact Hmin|].
      cbn [add_vins vin_count]. lia.
    + now apply (map_vehicle_insert _ _ d).
  - split; [lia|]. split; [auto | reflexivity].
Qed.

Lemma for_range_add n : forall start l l',
  0 <= start -> for_range add_step n start l = Ok l' ->
  total_vins l' = total_vins l + Z.of_nat n
  /\ (all_at_least_min l -> all_at_least_min l')
  /\ map a_vehicle l' = map a_vehicle l.
Proof.
  induction n as [|n IH]; intros start l l' Hs H.
  - injection H as <-. repeat split; [lia | auto].
  - cbn [for_range] in H. unfold rbind in H.
    destruct (add_step l start) as [l1|] eqn:H1; [|discriminate].
    destruct (add_step_spec _ _ _ Hs H1) as (Ht & Hm & Hv).
    destruct (IH (start + 1) l1 l' ltac:(lia) H) as (Ht' & Hm' & Hv').
    repeat split; [lia | auto | congruence].
Qed.

Lemma for_range_remove n : forall start l l',
  0 <= start -> for_range remove_step n start l = Ok l' ->
  total_vins l - Z.of_nat n <= total_vins l' <= total_vins l
  /\ (all_at_least_min l -> all_at_least_min l')
  /\ map a_vehicle l' = map a_vehicle l.
Proof.
  induction n as [|n IH]; intros start l l' Hs H.
  - injection H as <-. repeat split; [lia | lia | auto].
  - cbn [for_range] in H. unfold rbind in H.
    destruct (remove_step l start) as [l1|] eqn:H1; [|discriminate].
    destruct (remove_step_spec _ _ _ Hs H1) as (Ht & Hm & Hv).
    destruct (IH (start + 1) l1 l' ltac:(lia) H) as (Ht' & Hm' & Hv').
    repeat split; [lia | lia | auto | congruence].
Qed.

(** Sorting rearranges the allocations. *)
Lemma insert_desc_perm d l : Permutation (insert_desc d l) (d :: l).
Proof.
  induction l as [|x l IH]; cbn [insert_desc]; [reflexivity|].
  destruct (instance_count (a_vehicle x) <=? instance_count (a_vehicle d)).
  - reflexivity.
  - rewrite IH. apply perm_swap.
Qed.

Lemma sort_desc_perm l : Permutation (sort_desc l) l.
Proof.
  induction l as [|x l IH]; cbn; [reflexivity|].
  rewrite insert_desc_perm. now constructor.
Qed.

Lemma total_vins_perm l l' : Permutation l l' -> total_vins l = total_vins l'.
Proof.
  induction 1; rewrite ?total_vins_cons; lia.
Qed.

Lemma all_at_least_min_perm l l' :
  Permutation l l' -> all_at_least_min l -> all_at_least_min l'.
Proof.
  unfold all_at_least_min. intros Hp Hl. rewrite List.Forall_forall in *.
  intros x Hx. apply Hl. eapply Permutation_in; [symmetry; exact Hp | exact Hx].
Qed.

Lemma proportional_spec vehicles target total : forall d,
  proportional vehicles target total = Ok d ->
  all_at_least_min d /\ map a_vehicle d = vehicles.
Proof.
  induction vehicles as [|v vehicles IH]; intros d H.
  - injection H as <-. split; [constructor | reflexivity].
  - cbn [proportional] in H. unfold rbind in H.
    destruct (int_truediv _ _); [|discriminate].
    destruct (float_of_int _); [|discriminate].
    destruct (int_of_float _) as [share|]; [|discriminate].
    destruct (proportional vehicles target total) as [d0|]; [|discriminate].
    injection H as <-. destruct (IH d0 eq_refl) as [Hmin Hv].
    split; [|cbn; now rewrite Hv].
    constructor; [cbn; lia | exact Hmin].
Qed.

Lemma distribute_spec vehicles target d :
  distribute_vins_across_vehicles vehicles target = Ok d ->
  all_at_least_min d
  /\ target <= total_vins d
  /\ Permutation (map a_vehicle d) vehicles
  /\ (forall d0,
        proportional vehicles target (total_instances_of vehicles) = Ok d0 ->
        total_vins d0 <= target -> total_vins d = target).
Proof.
  unfold distribute_vins_across_vehicles, rbind.
  destruct (proportional vehicles target (total_instances_of vehicles))
    as [d0|] eqn:Hprop; [|discriminate].
  destruct (proportional_spec _ _ _ _ Hprop) as [Hmin Hv].
  destruct (total_vins d0 =? target) eqn:Heq.
  - apply Z.eqb_eq in Heq. intros [= <-].
    repeat split; [exact Hmin | lia | now rewrite Hv |].
    intros d1 [= <-] _. exact Heq.
  - apply Z.eqb_neq in Heq.
    pose proof (sort_desc_perm d0) as Hperm.
    pose proof (total_vins_perm _ _ Hperm) as Htotal.
    assert (Hmin' : all_at_least_min (sort_desc d0)).
    { eapply all_at_least_min_perm; [symmetry; exact Hperm | exact Hmin]. }
    assert (Hv' : Permutation (map a_vehicle (sort_desc d0)) vehicles).
    { rewrite <- Hv. now apply Permutation_map. }
    destruct (0 <? target - total_vins d0) eqn:Hdiff; intros H.
    + apply Z.ltb_lt in Hdiff.
      destruct (for_range_add _ 0 _ _ ltac:(lia) H) as (Ht & Hm & Hveh).
      rewrite Z2Nat.id in Ht by lia.
      repeat split; [auto | lia | now rewrite Hveh |].
      intros d1 [= <-] _. lia.
    + apply Z.ltb_ge in Hdiff.
      destruct (for_range_remove _ 0 _ _ ltac:(lia) H) as (Ht & Hm & Hveh).
      rewrite Z2Nat.id in Ht by lia.
      repeat split; [auto | lia | now rewrite Hveh |].
      intros d1 [= <-] Hle. lia.
Qed.

(** ** The call returns *)

Lemma instance_count_le_total vehicles v :
  Forall (fun v => 0 < instance_count v) vehicles ->
  In v vehicles -> instance_count v <= total_instances_of vehicles.
Proof.
  unfold total_instances_of. induction 1 as [|x l Hx Hl IH]; intros Hin; [destruct Hin|].
  assert (0 <= foldr Z.add 0 (map instance_count l)).
  { clear IH Hin. induction Hl; cbn; lia. }
  cbn. destruct Hin as [->|Hin]; [lia | specialize (IH Hin); lia].
Qed.

Lemma proportional_ok vehicles target total :
  Forall (fun v => 0 < instance_count v <= total) vehicles ->
  total < 2 ^ 1000 -> Z.abs target < 2 ^ 1000 ->
  exists d, proportional vehicles target total = Ok d.
Proof.
  intros Hall Htotal Htarget. induction Hall as [|v l Hv Hl IH].
  - eexists. reflexivity.
  - cbn [proportional].
    destruct (int_truediv_nice _ _ Hv Htotal) as (proportion & -> & Hp).
    destruct (float_of_int_nice target 1000 Htarget ltac:(lia)) as (target_f & -> & Ht).
    cbn [rbind].
    pose proof (fmul_nice 1001 2 1003 _ _ Ht Hp ltac:(lia) ltac:(lia)) as Hshare.
    destruct (nice_int_of_float _ _ Hshare) as [share ->].
    destruct IH as [d ->]. cbn [rbind]. eexists. reflexivity.
Qed.

Lemma step_index_ok (l : list allocation) i :
  l <> [] -> 0 <= i ->
  exists j d, py_mod i (len l) = Ok j /\ py_index l j = Ok d.
Proof.
  intros Hl Hi. unfold py_mod.
  assert (Hlen : 0 < len l) by (unfold len; destruct l; [congruence | cbn; lia]).
  assert (Hz : (len l =? 0) = false) by (apply Z.eqb_neq; lia). rewrite Hz.
  destruct (py_index_ok l (i mod len l)) as (d & Hd & _).
  { apply Z.mod_pos_bound. lia. }
  eauto.
Qed.

Lemma insert_nonempty (l : list allocation) i d : l <> [] -> <[i := d]> l <> [].
Proof. destruct l, i; cbn; congruence. Qed.

Lemma add_step_ok l i :
  l <> [] -> 0 <= i -> exists l', add_step l i = Ok l' /\ l' <> [].
Proof.
  intros Hl Hi. destruct (step_index_ok l i Hl Hi) as (j & d & Hj & Hd).
  unfold add_step. rewrite Hj. cbn [rbind]. rewrite Hd. cbn [rbind].
  eexists. split; [reflexivity | now apply insert_nonempty].
Qed.

Lemma remove_step_ok l i :
  l <> [] -> 0 <= i -> exists l', remove_step l i = Ok l' /\ l' <> [].
Proof.
  intros Hl Hi. destruct (step_index_ok l i Hl Hi) as (j & d & Hj & Hd).
  unfold remove_step. rewrite Hj. cbn [rbind]. rewrite Hd. cbn [rbind].
  destruct (min_vins_per_vehicle <? vin_count d);
    eexists; (split; [reflexivity|]); [now apply insert_nonempty | exact Hl].
Qed.

Lemma for_range_ok step n :
  (forall l i, l <> [] -> 0 <= i -> exists l', step l i = Ok l' /\ l' <> []) ->
  forall start l, l <> [] -> 0 <= start ->
  exists l', for_range step n start l = Ok l'.
Proof.
  intros Hstep. induction n as [|n IH]; intros start l Hl Hs.
  - eexists. reflexivity.
  - cbn [for_range]. destruct (Hstep l start Hl Hs) as (l1 & -> & Hl1).
    cbn [rbind]. apply IH; [exact Hl1 | lia].
Qed.

Lemma distribute_ok vehicles target :
  vehicles <> [] ->
  Forall (fun v => 0 < instance_count v) vehicles ->
  total_instances_of vehicles < 2 ^ 1000 ->
  0 < target < 2 ^ 1000 ->
  exists d, distribute_vins_across_vehicles vehicles target = Ok d.
Proof.
  intros Hne Hpos Htotal Htarget.
  destruct (proportional_ok vehicles target (total_instances_of vehicles))
    as [d0 Hd0]; [| exact Htotal | lia |].
  { rewrite List.Forall_forall in *. intros v Hin. split; [now apply Hpos|].
    apply instance_count_le_total; [now rewrite List.Forall_forall | exact Hin]. }
  unfold distribute_vins_across_vehicles. rewrite Hd0. cbn [rbind].
  destruct (total_vins d0 =? target); [eauto|].
  assert (Hsorted : sort_desc d0 <> []).
  { destruct (proportional_spec _ _ _ _ Hd0) as [_ Hv].
    intros Hnil. pose proof (sort_desc_perm d0) as Hperm. rewrite Hnil in Hperm.
    apply Permutation_nil in Hperm. subst d0. cbn in Hv. congruence. }
  destruct (0 <? target - total_vins d0).
  - apply for_range_ok; [exact add_step_ok | exact Hsorted | lia].
  - apply for_range_ok; [exact remove_step_ok | exact Hsorted | lia].
Qed.

End DistributionFacts.

(** What the allocation does keep: when [distribute_vins_across_vehicles]
    returns, every vehicle has one allocation, each allocation is at least
    the minimum of 5, and their sum is at least the target; the sum is
    exactly the target whenever the proportional allocations (each the larger
    of 5 and the truncated share) sum to at most the target. It returns for
    every non-empty list of vehicles with positive instance counts and every
    positive target, both below [2^1000]. *)
Theorem distribute_vins_allocation
    (vehicles : list VINGenerator.vehicle) (target : Z) :
  (forall d,
     Distribution.distribute_vins_across_vehicles vehicles target = Ok d ->
     Distribution.all_at_least_min d
     /\ target <= Distribution.total_vins d
     /\ Permutation (map Distribution.a_vehicle d) vehicles
     /\ (forall d0,
           Distribution.proportional vehicles target
             (Distribution.total_instances_of vehicles) = Ok d0 ->
           Distribution.total_vins d0 <= target ->
           Distribution.total_vins d = target))
  /\ (vehicles <> [] ->
      Forall (fun v => 0 < VINGenerator.instance_count v) vehicles ->
      Distribution.total_instances_of vehicles < 2 ^ 1000 ->
      0 < target < 2 ^ 1000 ->
      exists d, Distribution.distribute_vins_across_vehicles vehicles target = Ok d).
Proof.
  split.
  - intros d. apply distribute_spec.
  - apply distribute_ok.
Qed.

Lemma distribute_vins_allocation_witness :
  exists d,
    Distribution.distribute_vins_across_vehicles
      (map Distribution.vehicle_of_count [10; 20; 30]) 100 = Ok d
    /\ Distribution.all_at_least_min d
    /\ 100 <= Distribution.total_vins d
    /\ Permutation (map Distribution.a_vehicle d)
         (map Distribution.vehicle_of_count [10; 20; 30])
    /\ (forall d0,
          Distribution.proportional (map Distribution.vehicle_of_count [10; 20; 30]) 100
            (Distribution.total_instances_of
               (map Distribution.vehicle_of_count [10; 20; 30])) = Ok d0 ->
          Distribution.total_vins d0 <= 100 ->
          Distribution.total_vins d = 100).
Proof.
  destruct (proj2 (distribute_vins_allocation
                     (map Distribution.vehicle_of_count [10; 20; 30]) 100))
    as (d & Hd).
  - discriminate.
  - repeat constructor.
  - vm_compute. reflexivity.
  - split; vm_compute; reflexivity.
  - exists d. split; [exact Hd|].
    exact (proj1 (distribute_vins_allocation
                    (map Distribution.vehicle_of_count [10; 20; 30]) 100) d Hd).
Defined.

(** C2 (as the code behaves). Vehicles with instance counts 100, 1 and 1
    and a target of 100: the proportional allocations are 98, 5 and 5, eight
    above the target. The removal pass makes eight visits, round-robin over
    the sorted list, and the visits to the two vehicles that stand at the
    minimum remove nothing: the result is 95, 5 and 5, with sum 105, although
    90, 5 and 5 keeps the minimum and sums to the target. Counts 50, 50 and 1
    end at 48, 48 and 5, one above the target, in the same way. *)
Theorem removal_pass_leaves_the_sum_above_target :
  let vehicles := map Distribution.vehicle_of_count [100; 1; 1] in
  exists d0 d d',
    Distribution.proportional vehicles 100 (Distribution.total_instances_of vehicles)
    = Ok d0
    /\ map Distribution.vin_count d0 = [98; 5; 5]
    /\ Distribution.distribute_vins_across_vehicles vehicles 100 = Ok d
    /\ map Distribution.vin_count d = [95; 5; 5]
    /\ Distribution.total_vins d = 105
    /\ map Distribution.a_vehicle d' = map Distribution.a_vehicle d
    /\ map Distribution.vin_count d' = [90; 5; 5]
    /\ Distribution.all_at_least_min d'
    /\ Distribution.total_vins d' = 100
    /\ exists e,
         Distribution.distribute_vins_across_vehicles
           (map Distribution.vehicle_of_count [50; 50; 1]) 100 = Ok e
         /\ map Distribution.vin_count e = [48; 48; 5]
         /\ Distribution.total_vins e = 101.
Proof.
  cbv zeta.
  exists (map (fun p => {| Distribution.a_vehicle := Distribution.vehicle_of_count (fst p);
                           Distribution.vin_count := snd p |})
            [(100, 98); (1, 5); (1, 5)]),
         (map (fun p => {| Distribution.a_vehicle := Distribution.vehicle_of_count (fst p);
                           Distribution.vin_count := snd p |})
            [(100, 95); (1, 5); (1, 5)]),
         (map (fun p => {| Distribution.a_vehicle := Distribution.vehicle_of_count (fst p);
                           Distribution.vin_count := snd p |})
            [(100, 90); (1, 5); (1, 5)]).
  repeat (split; [vm_compute; reflexivity|]).
  split; [repeat constructor; cbn; unfold Distribution.min_vins_per_vehicle; lia|].
  split; [vm_compute; reflexivity|].
  eexists. repeat split; vm_compute; reflexivity.
Qed.

(** A target that no allocation can meet: one vehicle and a target of 3
    give one allocation of 5, the minimum. *)
Example minimum_exceeds_target :
  exists d,
    Distribution.distribute_vins_across_vehicles [Distribution.vehicle_of_count 1] 3 = Ok d
    /\ map Distribution.vin_count d = [5]
    /\ Distribution.total_vins d <> 3.
Proof.
  eexists. split; [vm_compute; reflexivity|]. split; [reflexivity|].
  vm_compute. discriminate.
Qed.

(* ===================================================================== *)
(** * More facts about strings *)
(* ===================================================================== *)

Section MoreStringFacts.
Import PyStr.

Lemma rstrip_idem s : rstrip (rstrip s) = rstrip s.
Proof.
  induction s as [|c s IH]; [reflexivity|].
  cbn [rstrip]. destruct (rstrip s) as [|d r] eqn:Hr.
  - destruct (is_space c) eqn:Hc; [reflexivity|]. cbn [rstrip]. now rewrite Hc.
  - change (rstrip (String c (String d r))) with
      (match rstrip (String d r) with
       | EmptyString => if is_space c then EmptyString else String c EmptyString
       | r' => String c r'
       end).
    rewrite IH. reflexivity.
Qed.

Lemma lstrip_head s :
  lstrip s = "" \/ exists c t, lstrip s = String c t /\ is_space c = false.
Proof.
  induction s as [|c s IH]; [now left|].
  cbn [lstrip]. destruct (is_space c) eqn:Hc; [exact IH|].
  right. exists c, s. now split.
Qed.

Lemma lstrip_solid_head c t : is_space c = false -> lstrip (String c t) = String c t.
Proof. intros H. cbn [lstrip]. now rewrite H. Qed.

Lemma rstrip_solid_head c t :
  is_space c = false -> exists t', rstrip (String c t) = String c t'.
Proof.
  intros H. cbn [rstrip]. destruct (rstrip t) as [|d r].
  - rewrite H. now exists "".
  - now exists (String d r).
Qed.

Lemma strip_idem s : strip (strip s) = strip s.
Proof.
  unfold strip. destruct (lstrip_head s) as [-> | (c & t & -> & Hc)]; [reflexivity|].
  destruct (rstrip_solid_head c t Hc) as [t' Ht']. rewrite Ht'.
  rewrite (lstrip_solid_head c t' Hc). rewrite <- Ht'. apply rstrip_idem.
Qed.

Lemma isascii_lstrip s : isascii s = true -> isascii (lstrip s) = true.
Proof.
  induction s as [|c s IH]; [reflexivity|].
  intros H. cbn [lstrip]. destruct (is_space c); [|exact H].
  cbn [isascii] in H. apply andb_prop in H as [_ H]. now apply IH.
Qed.

Lemma isascii_rstrip s : isascii s = true -> isascii (rstrip s) = true.
Proof.
  induction s as [|c s IH]; [reflexivity|].
  cbn [isascii]. intros H. apply andb_prop in H as [Hc H]. specialize (IH H).
  cbn [rstrip]. destruct (rstrip s) as [|d r].
  - destruct (is_space c); [reflexivity|]. cbn [isascii]. now rewrite Hc.
  - cbn [isascii] in *. now rewrite Hc, IH.
Qed.

Lemma isascii_strip s : isascii s = true -> isascii (strip s) = true.
Proof. intros H. unfold strip. now apply isascii_rstrip, isascii_lstrip. Qed.

Lemma contains_trans a b s :
  contains a b = true -> contains b s = true -> contains a s = true.
Proof.
  rewrite !contains_spec. intros (p1 & q1 & ->) (p2 & q2 & ->).
  exists (p2 +:+ p1), (q1 +:+ q2). now rewrite !append_assoc.
Qed.

Lemma contains_nil s : contains "" s = true.
Proof. destruct s; cbn [contains]; now rewrite prefix_nil. Qed.

Lemma length_take n : forall s,
  String.length (take n s) = Nat.min n (String.length s).
Proof.
  induction n as [|n IH]; intros [|c s]; cbn [take String.length Nat.min]; try reflexivity.
  now rewrite IH.
Qed.

Lemma take_all n : forall s, (String.length s <= n)%nat -> take n s = s.
Proof.
  induction n as [|n IH]; intros [|c s] H; cbn [take]; try reflexivity.
  - cbn in H. lia.
  - rewrite IH; [reflexivity | cbn in H; lia].
Qed.

End MoreStringFacts.


(* ===================================================================== *)
(** * More facts about the classifier *)
(* ===================================================================== *)

Section MoreClassifierFacts.
Import PyStr Classifier.

Lemma applies_test o m md y :
  (String.eqb (lower (ov_manufacturer o)) (lower m)
   && String.eqb (lower (ov_model o)) (lower md)
   && ((fst (ov_year_range o) <=? y) && (y <=? snd (ov_year_range o)))) = true
  <-> applies o m md y.
Proof.
  unfold applies.
  rewrite !andb_true_iff, !String.eqb_eq, !Z.leb_le. tauto.
Qed.

Lemma override_loop_none l m md y :
  _check_historical_override_loop l m md y = None
  <-> Forall (fun o => ~ applies o m md y) l.
Proof.
  induction l as [|o l IH]; cbn [_check_historical_override_loop].
  - split; [constructor | reflexivity].
  - pose proof (applies_test o m md y) as Ht.
    destruct (_ && _ && _) eqn:Hb.
    + split; [discriminate|]. intros H. inversion H; subst. tauto.
    + rewrite IH. split.
      * intros H. constructor; [|exact H]. intros Ha. apply Ht in Ha. discriminate.
      * intros H. now inversion H.
Qed.

Lemma override_loop_some l m md y b :
  _check_historical_override_loop l m md y = Some b
  <-> exists l1 o l2,
        l = (l1 ++ o :: l2)%list /\ applies o m md y /\ ov_body_class o = b
        /\ Forall (fun o' => ~ applies o' m md y) l1.
Proof.
  induction l as [|o l IH]; cbn [_check_historical_override_loop].
  - split; [discriminate|]. intros (l1 & o & l2 & H & _). now destruct l1.
  - pose proof (applies_test o m md y) as Ht.
    destruct (_ && _ && _) eqn:Hb.
    + split.
      * intros [= Hbc]. exists [], o, l.
        split; [reflexivity|]. split; [tauto|]. split; [exact Hbc | constructor].
      * intros (l1 & o' & l2 & Hl & Ha & Hbc & Hno).
        destruct l1 as [|o1 l1]; cbn in Hl.
        -- injection Hl as <- _. now rewrite Hbc.
        -- injection Hl as <- _. inversion Hno; subst. tauto.
    + rewrite IH. split.
      * intros (l1 & o' & l2 & -> & Ha & Hbc & Hno).
        exists (o :: l1), o', l2.
        split; [reflexivity|]. split; [exact Ha|]. split; [exact Hbc|].
        constructor; [|exact Hno]. intros Ha'. apply Ht in Ha'. discriminate.
      * intros (l1 & o' & l2 & Hl & Ha & Hbc & Hno).
        destruct l1 as [|o1 l1]; cbn in Hl.
        -- injection Hl as <- _. apply Ht in Ha. discriminate.
        -- injection Hl as <- ->. exists l1, o', l2.
           split; [reflexivity|]. split; [exact Ha|]. split; [exact Hbc|].
           now inversion Hno.
Qed.

Lemma names_test data model :
  existsb (fun exact_model => String.eqb (lower model) (lower exact_model))
    (exact_matches data) = true
  <-> names data model.
Proof.
  unfold names. rewrite existsb_exists.
  split; intros (e & He & H); exists e; (split; [exact He|]);
    now apply String.eqb_eq.
Qed.

Lemma exact_loop_none l model :
  _check_exact_match_loop l model = None
  <-> Forall (fun entry => ~ names (snd entry) model) l.
Proof.
  induction l as [|[b data] l IH]; cbn [_check_exact_match_loop].
  - split; [constructor | reflexivity].
  - pose proof (names_test data model) as Ht.
    destruct (existsb _ _) eqn:Hb.
    + split; [discriminate|]. intros H. inversion H; subst. cbn in *. tauto.
    + rewrite IH. split.
      * intros H. constructor; [|exact H]. cbn. intros Hn. apply Ht in Hn. discriminate.
      * intros H. now inversion H.
Qed.

Lemma exact_loop_some l model b :
  _check_exact_match_loop l model = Some b
  <-> exists l1 data l2,
        l = (l1 ++ (b, data) :: l2)%list /\ names data model
        /\ Forall (fun entry => ~ names (snd entry) model) l1.
Proof.
  induction l as [|[b0 data0] l IH]; cbn [_check_exact_match_loop].
  - split; [discriminate|]. intros (l1 & o & l2 & H & _). now destruct l1.
  - pose proof (names_test data0 model) as Ht.
    destruct (existsb _ _) eqn:Hb.
    + split.
      * intros [= Hbc]. exists [], data0, l. rewrite Hbc.
        split; [reflexivity|]. split; [tauto | constructor].
      * intros (l1 & data & l2 & Hl & Hn & Hno).
        destruct l1 as [|o1 l1]; cbn in Hl.
        -- now injection Hl as <- _ _.
        -- injection Hl as <- _. inversion Hno; subst. cbn in *. tauto.
    + rewrite IH. split.
      * intros (l1 & data & l2 & -> & Hn & Hno).
        exists ((b0, data0) :: l1), data, l2.
        split; [reflexivity|]. split; [exact Hn|].
        constructor; [|exact Hno]. cbn. intros Hn'. apply Ht in Hn'. discriminate.
      * intros (l1 & data & l2 & Hl & Hn & Hno).
        destruct l1 as [|o1 l1]; cbn in Hl.
        -- injection Hl as <- <- _. apply Ht in Hn. discriminate.
        -- injection Hl as <- ->. exists l1, data, l2.
           split; [reflexivity|]. split; [exact Hn|]. now inversion Hno.
Qed.

Lemma regex_loop_in (re_search : string -> string -> bool) l model b :
  _check_regex_match_loop re_search l model = Some b -> In b (map fst l).
Proof.
  induction l as [|[b0 data0] l IH]; cbn [_check_regex_match_loop]; [discriminate|].
  destruct (existsb _ _).
  - intros [= <-]. now left.
  - intros H. right. now apply IH.
Qed.

Lemma dict_get_in {V : Type} (d : list (string * V)) k v :
  dict_get d k = Some v -> In (k, v) d.
Proof.
  induction d as [|[k' v'] d IH]; cbn [dict_get]; [discriminate|].
  destruct (String.eqb k' k) eqn:Hk.
  - apply String.eqb_eq in Hk. intros [= <-]. left. now rewrite Hk.
  - intros H. right. now apply IH.
Qed.

Lemma partial_match_some table model b :
  partial_match table model = Some b ->
  exists model_pattern,
    In (model_pattern, b) table
    /\ contains (lower model_pattern) (lower model) = true.
Proof.
  induction table as [|[p b0] table IH]; cbn [partial_match]; [discriminate|].
  destruct (contains (lower p) (lower model)) eqn:Hc.
  - intros [= <-]. exists p. split; [now left | exact Hc].
  - intros H. destruct (IH H) as (p' & Hin & Hp'). exists p'. split; [now right | exact Hp'].
Qed.

Lemma partial_match_none table model :
  partial_match table model = None ->
  forall model_pattern b,
    In (model_pattern, b) table -> contains (lower model_pattern) (lower model) = false.
Proof.
  induction table as [|[p b0] table IH]; cbn [partial_match]; [intros _ ? ? []|].
  destruct (contains (lower p) (lower model)) eqn:Hc; [discriminate|].
  intros H p' b' [[= <- <-] | Hin]; [exact Hc | eapply IH; eauto].
Qed.

Lemma default_in c manufacturer model b :
  _check_manufacturer_default c manufacturer model = Some b ->
  In b (concat (map (fun d => map snd (snd d)) (manufacturer_defaults c))).
Proof.
  unfold _check_manufacturer_default.
  destruct (dict_get (manufacturer_defaults c) manufacturer) as [table|] eqn:Ht;
    [|discriminate].
  apply dict_get_in in Ht. intros H.
  assert (Hb : In b (map snd table)).
  { destruct (dict_get table model) as [b'|] eqn:Hm.
    - injection H as ->. apply dict_get_in in Hm.
      apply (in_map snd) in Hm. exact Hm.
    - destruct (partial_match_some _ _ _ H) as (p & Hin & _).
      apply (in_map snd) in Hin. exact Hin. }
  apply in_concat. exists (map snd table). split; [|exact Hb].
  apply (in_map (fun d => map snd (snd d))) in Ht. exact Ht.
Qed.

Lemma fallback_in_classes manufacturer model year :
  In (_fallback_classification manufacturer model year) fallback_classes
  /\ (year < 1930 ->
      In (_fallback_classification manufacturer model year) ["Roadster"; "Touring Car"])
  /\ (1930 <= year ->
      In (_fallback_classification manufacturer model year)
        ["Pickup"; "Van"; "Sports Car"; "Wagon"; "Sedan"]).
Proof.
  unfold _fallback_classification, fallback_classes.
  destruct (Z.ltb_spec year 1930);
    repeat match goal with
           | |- context [if ?b then _ else _] => destruct b
           end;
    (split; [cbn; tauto|]); (split; intros; try lia; cbn; tauto).
Qed.

Lemma lower_eq_strip s1 s2 : lower s1 = lower s2 -> lower (strip s1) = lower (strip s2).
Proof. intros H. now rewrite !lower_strip, H. Qed.

Lemma override_loop_lower l m1 m2 md1 md2 y :
  lower m1 = lower m2 -> lower md1 = lower md2 ->
  _check_historical_override_loop l m1 md1 y = _check_historical_override_loop l m2 md2 y.
Proof.
  intros Hm Hmd. induction l as [|o l IH]; [reflexivity|].
  cbn [_check_historical_override_loop]. now rewrite Hm, Hmd, IH.
Qed.

Lemma exact_loop_lower l md1 md2 :
  lower md1 = lower md2 ->
  _check_exact_match_loop l md1 = _check_exact_match_loop l md2.
Proof.
  intros Hmd. induction l as [|[b d] l IH]; [reflexivity|].
  cbn [_check_exact_match_loop]. now rewrite Hmd, IH.
Qed.

Lemma existsb_agree {A : Type} (f g : A -> bool) l :
  (forall x, In x l -> f x = g x) -> existsb f l = existsb g l.
Proof.
  induction l as [|x l IH]; intros H; [reflexivity|].
  cbn [existsb]. rewrite (H x) by now left.
  rewrite IH; [reflexivity|]. intros y Hy. apply H. now right.
Qed.

Lemma regex_loop_ext (re_search : string -> string -> bool) l md1 md2 :
  (forall body_class data pattern,
     In (body_class, data) l -> In pattern (regex_patterns data) ->
     re_search pattern md1 = re_search pattern md2) ->
  _check_regex_match_loop re_search l md1 = _check_regex_match_loop re_search l md2.
Proof.
  induction l as [|[b d] l IH]; intros H; [reflexivity|].
  cbn [_check_regex_match_loop].
  rewrite IH by (intros b' d' p Hin Hp; apply (H b' d' p); [now right | exact Hp]).
  rewrite (existsb_agree (fun pattern => re_search pattern md1)
             (fun pattern => re_search pattern md2));
    [reflexivity|].
  intros p Hp. apply (H b d p); [now left | exact Hp].
Qed.

Lemma fallback_lower m1 m2 md1 md2 y :
  lower md1 = lower md2 ->
  _fallback_classification m1 md1 y = _fallback_classification m2 md2 y.
Proof. intros H. unfold _fallback_classification. now rewrite H. Qed.

End MoreClassifierFacts.

Section BatchFacts.
Import PyStr Classifier UpdateBodyClasses.

Variable re_search : string -> string -> bool.
Variable utcnow_isoformat : nat -> string.

Lemma classify_all_total calls : forall c,
  total (stats (snd (classify_all re_search c calls)))
  = total (stats c) + Z.of_nat (length calls).
Proof.
  induction calls as [|[[m md] y] calls IH]; intros c.
  - cbn. lia.
  - cbn [classify_all].
    pose proof (classify_one_more re_search c m md y) as (Ht & _).
    destruct (classify re_search c m md y) as [r c'].
    specialize (IH c'). destruct (classify_all re_search c' calls) as [rs c''].
    cbn [snd] in *. rewrite IH, Ht. cbn [length]. lia.
Qed.

Lemma classify_all_call c doc calls :
  classify_all re_search c (call_of doc :: calls)
  = (let out := classify re_search c
                  (get_or (s_manufacturer (_source doc)) "Unknown")
                  (get_or (s_model (_source doc)) "Unknown")
                  (get_or (s_year (_source doc)) 2000) in
     (fst out :: fst (classify_all re_search (snd out) calls),
      snd (classify_all re_search (snd out) calls))).
Proof.
  unfold call_of. cbn [classify_all]. cbv zeta.
  destruct (classify re_search c _ _ _) as [r c']. cbn [fst snd].
  now destruct (classify_all re_search c' calls).
Qed.

Lemma classify_and_prepare_updates_loop_spec documents : forall i c actions report,
  exists actions' report',
    classify_and_prepare_updates_loop re_search utcnow_isoformat i documents c
      actions report
    = (((actions ++ actions')%list, (report ++ report')%list),
       snd (classify_all re_search c (map call_of documents)))
    /\ map row_result report' = fst (classify_all re_search c (map call_of documents))
    /\ map action_result actions' = map row_result report'
    /\ map ua_id actions' = map _id documents
    /\ map rr_vehicle_id report' = map _id documents
    /\ map (fun r => (rr_manufacturer r, rr_model r, rr_year r)) report'
       = map call_of documents
    /\ map ua_body_class_updated_at actions'
       = map utcnow_isoformat (seq i (length documents)).
Proof.
  induction documents as [|doc documents IH]; intros i c actions report.
  - exists [], []. cbn. now rewrite !app_nil_r.
  - cbn [classify_and_prepare_updates_loop map]. rewrite classify_all_call. cbv zeta.
    destruct (classify re_search c _ _ _) as [[body_class match_type] c'].
    cbn [fst snd].
    match goal with
    | |- context [classify_and_prepare_updates_loop _ _ _ _ _ (actions ++ [?a])%list
                    (report ++ [?r])%list] =>
        destruct (IH (S i) c' (actions ++ [a])%list (report ++ [r])%list)
          as (actions' & report' & Hloop & Hrows & Hacts & Hids & Hvids & Hcalls & Hts);
        exists (a :: actions'), (r :: report')
    end.
    rewrite Hloop, <- !app_assoc. cbn [app map length seq].
    split; [reflexivity|].
    rewrite Hacts, Hids, Hvids, Hcalls, Hts, <- Hrows.
    repeat (split; [reflexivity|]). reflexivity.
Qed.

End BatchFacts.

(** X1. [classify] strips its two names itself: leading and trailing white
    space of the manufacturer and of the model changes neither the answer nor
    the counters. *)
Theorem classify_ignores_surrounding_space
    (re_search : string -> string -> bool) (c : Classifier.classifier)
    (manufacturer model : string) (year : Z) :
  Classifier.classify re_search c (PyStr.strip manufacturer) (PyStr.strip model) year
  = Classifier.classify re_search c manufacturer model year.
Proof. unfold Classifier.classify. now rewrite !strip_idem. Qed.

(** X2. When no regex pattern of the catalog tells apart two ASCII texts that
    differ only in case (patterns compiled with [re.IGNORECASE] that do not
    switch the flag off inside), and the catalog has no manufacturer
    defaults, [classify] gives the same answer and leaves the same counters
    for ASCII names that differ only in case. *)
Theorem classify_ignores_case
    (re_search : string -> string -> bool) (c : Classifier.classifier)
    (m1 m2 md1 md2 : string) (year : Z) :
  (forall body_class data pattern s1 s2,
     In (body_class, data) (Classifier.patterns c) ->
     In pattern (Classifier.regex_patterns data) ->
     PyStr.isascii s1 = true -> PyStr.isascii s2 = true ->
     PyStr.lower s1 = PyStr.lower s2 ->
     re_search pattern s1 = re_search pattern s2) ->
  Classifier.manufacturer_defaults c = [] ->
  PyStr.isascii m1 = true -> PyStr.isascii m2 = true ->
  PyStr.isascii md1 = true -> PyStr.isascii md2 = true ->
  PyStr.lower m1 = PyStr.lower m2 -> PyStr.lower md1 = PyStr.lower md2 ->
  Classifier.classify re_search c m1 md1 year
  = Classifier.classify re_search c m2 md2 year.
Proof.
  intros Hre Hdef _ _ Ha1 Ha2 Hm Hmd. apply lower_eq_strip in Hm, Hmd.
  apply isascii_strip in Ha1, Ha2.
  unfold Classifier.classify, Classifier._check_historical_override,
    Classifier._check_exact_match, Classifier._check_regex_match,
    Classifier._check_manufacturer_default.
  rewrite Hdef. cbn [Classifier.dict_get Classifier.partial_match].
  rewrite (override_loop_lower _ _ _ _ _ year Hm Hmd).
  rewrite (exact_loop_lower _ _ _ Hmd).
  rewrite (regex_loop_ext re_search _ (PyStr.strip md1) (PyStr.strip md2))
    by (intros b d p Hin Hp; now apply (Hre b d p)).
  rewrite (fallback_lower (PyStr.strip m1) (PyStr.strip m2) _ _ year Hmd).
  reflexivity.
Qed.

Lemma classify_ignores_case_witness :
  let literal := fun pattern s => PyStr.contains (PyStr.lower pattern) (PyStr.lower s) in
  let c := Classifier.init []
             [("Convertible",
               {| Classifier.exact_matches := ["Thunderbird"];
                  Classifier.regex_patterns := ["cabrio"] |})] [] in
  Classifier.classify literal c "VOLKSWAGEN" "Golf CABRIOLET" 1995
  = Classifier.classify literal c "volkswagen" "golf Cabriolet" 1995
  /\ fst (Classifier.classify literal c "volkswagen" "golf Cabriolet" 1995)
     = ("Convertible", "regex_match").
Proof.
  cbv zeta. split; [|reflexivity].
  apply classify_ignores_case; try reflexivity.
  intros _ _ pattern s1 s2 _ _ _ _ H. now rewrite H.
Defined.

(** X3. [_check_historical_override] answers with the first entry, in file
    order, that applies: its names equal the query's, case apart, and the
    year lies in its range, both ends included. It answers [None] exactly
    when no entry applies. *)
Theorem first_applicable_override_wins
    (c : Classifier.classifier) (manufacturer model : string) (year : Z) :
  (forall body_class,
     Classifier._check_historical_override c manufacturer model year = Some body_class
     <-> exists before o after,
           Classifier.overrides c = (before ++ o :: after)%list
           /\ Classifier.applies o manufacturer model year
           /\ Classifier.ov_body_class o = body_class
           /\ Forall (fun o' => ~ Classifier.applies o' manufacturer model year) before)
  /\ (Classifier._check_historical_override c manufacturer model year = None
      <-> Forall (fun o => ~ Classifier.applies o manufacturer model year)
            (Classifier.overrides c)).
Proof.
  unfold Classifier._check_historical_override.
  split; [intros b; exact (override_loop_some _ _ _ _ _) | exact (override_loop_none _ _ _ _)].
Qed.

(** X4. [_check_exact_match] answers with the first body class, in the order
    of the patterns file, one of whose exact names equals the model, case
    apart, and with [None] exactly when there is none. *)
Theorem first_exact_name_wins (c : Classifier.classifier) (model : string) :
  (forall body_class,
     Classifier._check_exact_match c model = Some body_class
     <-> exists before data after,
           Classifier.patterns c = (before ++ (body_class, data) :: after)%list
           /\ Classifier.names data model
           /\ Forall (fun entry => ~ Classifier.names (snd entry) model) before)
  /\ (Classifier._check_exact_match c model = None
      <-> Forall (fun entry => ~ Classifier.names (snd entry) model)
            (Classifier.patterns c)).
Proof.
  unfold Classifier._check_exact_match.
  split; [intros b; exact (exact_loop_some _ _ _) | exact (exact_loop_none _ _)].
Qed.

(** X5. [_check_manufacturer_default]: a manufacturer that is not a key of the
    table gives [None] (the key is compared as it is, case included); a
    model that is a key gives its value, whatever the other keys; any other
    answer comes from a key that occurs, case apart, inside the model; and
    [None] means that no key does. An empty key therefore answers for every
    model. *)
Theorem manufacturer_default_lookup
    (c : Classifier.classifier) (manufacturer model : string) :
  (Classifier.dict_get (Classifier.manufacturer_defaults c) manufacturer = None ->
   Classifier._check_manufacturer_default c manufacturer model = None)
  /\ (forall table,
        Classifier.dict_get (Classifier.manufacturer_defaults c) manufacturer = Some table ->
        (forall body_class,
           Classifier.dict_get table model = Some body_class ->
           Classifier._check_manufacturer_default c manufacturer model = Some body_class)
        /\ (forall body_class,
              Classifier._check_manufacturer_default c manufacturer model = Some body_class ->
              Classifier.dict_get table model = Some body_class
              \/ exists model_pattern,
                   In (model_pattern, body_class) table
                   /\ PyStr.contains (PyStr.lower model_pattern) (PyStr.lower model) = true)
        /\ (Classifier._check_manufacturer_default c manufacturer model = None ->
            forall model_pattern body_class,
              In (model_pattern, body_class) table ->
              PyStr.contains (PyStr.lower model_pattern) (PyStr.lower model) = false)
        /\ (forall body_class,
              In ("", body_class) table ->
              Classifier._check_manufacturer_default c manufacturer model <> None)).
Proof.
  unfold Classifier._check_manufacturer_default. split.
  - intros ->. reflexivity.
  - intros table ->.
    assert (Hnone : match Classifier.dict_get table model with
                    | Some body_class => Some body_class
                    | None => Classifier.partial_match table model
                    end = None ->
                    forall p b, In (p, b) table ->
                    PyStr.contains (PyStr.lower p) (PyStr.lower model) = false).
    { destruct (Classifier.dict_get table model); [discriminate|].
      apply partial_match_none. }
    split; [intros b ->; reflexivity|]. split; [|split; [exact Hnone|]].
    + intros b. destruct (Classifier.dict_get table model) as [b'|].
      * intros H. now left.
      * intros H. right. now apply partial_match_some.
    + intros b Hin Hn. specialize (Hnone Hn "" b Hin).
      change (PyStr.lower "") with "" in Hnone. rewrite contains_nil in Hnone.
      discriminate.
Qed.

(** X6. [classify] never invents a body class: the match type is one of the
    five names; with match type "fallback" the body class is one of the
    seven names of the fallback tier, and otherwise it is a body class that
    the catalogs hold. *)
Theorem classify_answers_from_catalog_or_fallback
    (re_search : string -> string -> bool) (c : Classifier.classifier)
    (manufacturer model : string) (year : Z) :
  exists body_class match_type,
    fst (Classifier.classify re_search c manufacturer model year)
    = (body_class, match_type)
    /\ In match_type Classifier.match_types
    /\ (match_type = "fallback" -> In body_class Classifier.fallback_classes)
    /\ (match_type <> "fallback" -> In body_class (Classifier.catalog_classes c)).
Proof.
  unfold Classifier.classify, Classifier.catalog_classes.
  destruct (PyStr.truthy (Classifier._check_historical_override c _ _ _)) eqn:H1.
  { apply truthy_some in H1 as (b & Hb & _). rewrite Hb.
    eexists _, _. split; [reflexivity|]. split; [cbn; tauto|].
    split; [discriminate|]. intros _. apply in_or_app. left.
    apply (proj1 (override_loop_some _ _ _ _ _)) in Hb
      as (l1 & o & l2 & -> & _ & <- & _).
    rewrite map_app. apply in_or_app. right. now left. }
  destruct (PyStr.truthy (Classifier._check_exact_match c _)) eqn:H2.
  { apply truthy_some in H2 as (b & Hb & _). rewrite Hb.
    eexists _, _. split; [reflexivity|]. split; [cbn; tauto|].
    split; [discriminate|]. intros _. apply in_or_app. right. apply in_or_app. left.
    apply (proj1 (exact_loop_some _ _ _)) in Hb as (l1 & d & l2 & -> & _).
    rewrite map_app. apply in_or_app. right. now left. }
  destruct (PyStr.truthy (Classifier._check_regex_match re_search c _)) eqn:H3.
  { apply truthy_some in H3 as (b & Hb & _). rewrite Hb.
    eexists _, _. split; [reflexivity|]. split; [cbn; tauto|].
    split; [discriminate|]. intros _. apply in_or_app. right. apply in_or_app. left.
    now apply regex_loop_in in Hb. }
  destruct (PyStr.truthy (Classifier._check_manufacturer_default c _ _)) eqn:H4.
  { apply truthy_some in H4 as (b & Hb & _). rewrite Hb.
    eexists _, _. split; [reflexivity|]. split; [cbn; tauto|].
    split; [discriminate|]. intros _. apply in_or_app. right. apply in_or_app. right.
    now apply default_in in Hb. }
  eexists _, _. split; [reflexivity|]. split; [cbn; tauto|].
  split; [|congruence]. intros _. apply fallback_in_classes.
Qed.

(** X7. In the keyword lists of [_fallback_classification], "caravan" and
    "gto" never decide: a text that contains one of them contains "van",
    respectively "gt", which stands in the same list. *)
Theorem fallback_keywords_caravan_and_gto_are_shadowed (manufacturer model : string) (year : Z) :
  (PyStr.any_in ["van"; "caravan"; "voyager"] (PyStr.lower model)
   = PyStr.any_in ["van"; "voyager"] (PyStr.lower model))
  /\ (PyStr.any_in ["sport"; "gt"; "gto"; "ss"; "r/t"] (PyStr.lower model)
      = PyStr.any_in ["sport"; "gt"; "ss"; "r/t"] (PyStr.lower model))
  /\ Classifier._fallback_classification manufacturer model year
     = (let model_lower := PyStr.lower model in
        if year <? 1930 then
          if PyStr.any_in ["roadster"; "speedster"; "racer"] model_lower
          then "Roadster" else "Touring Car"
        else if PyStr.any_in ["truck"; "pickup"; "150"; "250"; "350"] model_lower
        then "Pickup"
        else if PyStr.any_in ["van"; "voyager"] model_lower then "Van"
        else if PyStr.any_in ["sport"; "gt"; "ss"; "r/t"] model_lower then "Sports Car"
        else if PyStr.any_in ["wagon"; "estate"] model_lower then "Wagon"
        else "Sedan").
Proof.
  assert (Hvan : PyStr.any_in ["van"; "caravan"; "voyager"] (PyStr.lower model)
                 = PyStr.any_in ["van"; "voyager"] (PyStr.lower model)).
  { unfold PyStr.any_in. cbn [existsb].
    destruct (PyStr.contains "van" (PyStr.lower model)) eqn:Hv; [reflexivity|].
    destruct (PyStr.contains "caravan" (PyStr.lower model)) eqn:Hc; [|reflexivity].
    rewrite (contains_trans "van" "caravan" _ eq_refl Hc) in Hv. discriminate. }
  assert (Hgt : PyStr.any_in ["sport"; "gt"; "gto"; "ss"; "r/t"] (PyStr.lower model)
                = PyStr.any_in ["sport"; "gt"; "ss"; "r/t"] (PyStr.lower model)).
  { unfold PyStr.any_in. cbn [existsb].
    destruct (PyStr.contains "sport" (PyStr.lower model)); [reflexivity|].
    destruct (PyStr.contains "gt" (PyStr.lower model)) eqn:Hv; [reflexivity|].
    destruct (PyStr.contains "gto" (PyStr.lower model)) eqn:Hc; [|reflexivity].
    rewrite (contains_trans "gt" "gto" _ eq_refl Hc) in Hv. discriminate. }
  split; [exact Hvan|]. split; [exact Hgt|].
  unfold Classifier._fallback_classification. cbv zeta. now rewrite Hvan, Hgt.
Qed.

(** X8. [classify_and_prepare_updates] classifies the documents in order, a
    missing manufacturer or model read as "Unknown" and a missing year as
    2000: it leaves the classifier as the same run of [classify] calls does;
    report row [i] and update action [i] carry the [_id] of document [i] and
    the pair that call [i] returned; and the total of the counters has grown
    by the number of documents. *)
Theorem classify_and_prepare_updates_follows_classify
    (re_search : string -> string -> bool) (utcnow_isoformat : nat -> string)
    (documents : list UpdateBodyClasses.document) (c : Classifier.classifier) :
  let out :=
    UpdateBodyClasses.classify_and_prepare_updates re_search utcnow_isoformat
      documents c in
  let update_actions := fst (fst out) in
  let classification_report := snd (fst out) in
  let calls := map UpdateBodyClasses.call_of documents in
  snd out = snd (Classifier.classify_all re_search c calls)
  /\ map UpdateBodyClasses.row_result classification_report
     = fst (Classifier.classify_all re_search c calls)
  /\ map UpdateBodyClasses.action_result update_actions
     = map UpdateBodyClasses.row_result classification_report
  /\ map UpdateBodyClasses.ua_id update_actions = map UpdateBodyClasses._id documents
  /\ map UpdateBodyClasses.rr_vehicle_id classification_report
     = map UpdateBodyClasses._id documents
  /\ Classifier.total (Classifier.stats (snd out))
     = Classifier.total (Classifier.stats c) + Z.of_nat (length documents).
Proof.
  cbv zeta. unfold UpdateBodyClasses.classify_and_prepare_updates.
  destruct (classify_and_prepare_updates_loop_spec re_search utcnow_isoformat
              documents 0%nat c [] [])
    as (actions & report & -> & Hrows & Hacts & Hids & Hvids & _ & _).
  cbn [fst snd app].
  split; [reflexivity|]. split; [exact Hrows|]. split; [exact Hacts|].
  split; [exact Hids|]. split; [exact Hvids|].
  rewrite classify_all_total. now rewrite length_map.
Qed.

(** X9. The model column of the sample report is the model itself when it
    has at most 24 characters, and otherwise its first 21 characters
    followed by three dots: it never exceeds 24 characters. *)
Theorem model_display_fits (model : string) :
  (String.length (ClassifierSample.model_display model) <= 24)%nat
  /\ ((String.length model <= 24)%nat -> ClassifierSample.model_display model = model)
  /\ ((24 < String.length model)%nat ->
      ClassifierSample.model_display model = PyStr.take 21 model +:+ "..."
      /\ String.length (ClassifierSample.model_display model) = 24%nat).
Proof.
  unfold ClassifierSample.model_display.
  destruct (Nat.leb_spec (String.length model) 24) as [Hle|Hgt].
  - rewrite take_all by exact Hle. split; [exact Hle|]. split; [reflexivity | lia].
  - assert (Hlen : String.length (PyStr.take 21 model +:+ "...") = 24%nat).
    { rewrite length_append, length_take. cbn [String.length]. lia. }
    split; [lia|]. split; [lia|]. intros _. split; [reflexivity | exact Hlen].
Qed.

Section TallyFacts.
Import PyStr Classifier UpdateBodyClasses.

Variable re_search : string -> string -> bool.

Lemma count_of_insert (m : gmap string Z) b b' n :
  count_of (<[b := n]> m) b' = if String.eqb b' b then n else count_of m b'.
Proof.
  unfold count_of. destruct (String.eqb_spec b' b) as [->|Hne].
  - now rewrite lookup_insert_eq.
  - rewrite lookup_insert_ne by congruence. reflexivity.
Qed.

Lemma counter_update s b key :
  counter key (_update_body_class_stats s b) = counter key s.
Proof. reflexivity. Qed.

Lemma counter_bump_total s key : counter key (bump_total s) = counter key s.
Proof. reflexivity. Qed.

Ltac counter_cases t' :=
  unfold counter;
  cbn [historical_override exact_match regex_match manufacturer_default fallback
       bump_historical_override bump_exact_match bump_regex_match
       bump_manufacturer_default bump_fallback bump_total];
  repeat match goal with
         | |- context [String.eqb t' ?k] =>
             destruct (String.eqb_spec t' k); [subst t'; try congruence; try reflexivity|]
         end;
  try reflexivity.

(** What one call adds to the counters, named by what it returns. *)
Lemma classify_counts c manufacturer model year :
  exists body_class match_type,
    fst (classify re_search c manufacturer model year) = (body_class, match_type)
    /\ In match_type match_types
    /\ counter match_type (stats (snd (classify re_search c manufacturer model year)))
       = counter match_type (stats c) + 1
    /\ (forall key, key <> match_type ->
        counter key (stats (snd (classify re_search c manufacturer model year)))
        = counter key (stats c))
    /\ by_body_class (stats (snd (classify re_search c manufacturer model year)))
       = <[body_class := count_of (by_body_class (stats c)) body_class + 1]>
           (by_body_class (stats c)).
Proof.
  unfold classify.
  repeat match goal with
         | |- context [if truthy ?o then _ else _] => destruct (truthy o)
         end;
    cbn [fst snd stats with_stats];
    (eexists _, _; split; [reflexivity|]; split; [cbn; tauto|];
     rewrite update_by_body_class;
     split; [reflexivity|]; split; [|reflexivity];
     intros key Hkey; rewrite counter_update; counter_cases key).
Qed.

Lemma classify_all_tally calls : forall c,
  (forall b,
     count_of (by_body_class (stats (snd (classify_all re_search c calls)))) b
     = count_of (by_body_class (stats c)) b
       + Z.of_nat (count_occ string_dec
                     (map fst (fst (classify_all re_search c calls))) b))
  /\ (forall key,
        counter key (stats (snd (classify_all re_search c calls)))
        = counter key (stats c)
          + Z.of_nat (count_occ string_dec
                        (map snd (fst (classify_all re_search c calls))) key)).
Proof.
  induction calls as [|[[m md] y] calls IH]; intros c.
  - cbn. split; intros; lia.
  - cbn [classify_all].
    destruct (classify_counts c m md y) as (b0 & t0 & Hr & _ & Ht & Hother & Hmap).
    destruct (classify re_search c m md y) as [r c'].
    cbn [fst snd] in Hr, Ht, Hother, Hmap. subst r.
    destruct (IH c') as [IHb IHt].
    destruct (classify_all re_search c' calls) as [rs c''].
    cbn [fst snd map] in *. split.
    + intros b. rewrite IHb, Hmap, count_of_insert.
      cbn [count_occ]. destruct (string_dec b0 b) as [->|Hne].
      * rewrite String.eqb_refl. lia.
      * destruct (String.eqb_spec b b0); [congruence | lia].
    + intros key. rewrite IHt. cbn [count_occ].
      destruct (string_dec t0 key) as [->|Hne].
      * rewrite Ht. lia.
      * rewrite Hother by congruence. lia.
Qed.

End TallyFacts.

(** X10. The counters name what a call returns: [classify] adds one to the
    counter whose key is the returned match type and leaves the other four as
    they are, and it adds one to the count of the returned body class, new
    body classes starting from 0. *)
Theorem classify_counts_what_it_returns
    (re_search : string -> string -> bool) (c : Classifier.classifier)
    (manufacturer model : string) (year : Z) :
  let after := snd (Classifier.classify re_search c manufacturer model year) in
  exists body_class match_type,
    fst (Classifier.classify re_search c manufacturer model year)
    = (body_class, match_type)
    /\ In match_type Classifier.match_types
    /\ Classifier.counter match_type (Classifier.stats after)
       = Classifier.counter match_type (Classifier.stats c) + 1
    /\ (forall key, key <> match_type ->
        Classifier.counter key (Classifier.stats after)
        = Classifier.counter key (Classifier.stats c))
    /\ Classifier.by_body_class (Classifier.stats after)
       = <[body_class :=
             Classifier.count_of (Classifier.by_body_class (Classifier.stats c))
               body_class + 1]>
           (Classifier.by_body_class (Classifier.stats c)).
Proof. cbv zeta. apply classify_counts. Qed.

(** X11. After [classify_and_prepare_updates] on a newly constructed
    classifier, the statistics agree with the report: the count of every
    body class is the number of report rows with that body class, the
    counter of every match type is the number of rows with that match type,
    and the total is the number of rows. *)
Theorem statistics_agree_with_the_report
    (re_search : string -> string -> bool) (utcnow_isoformat : nat -> string)
    (ovs : list Classifier.override)
    (pats : list (string * Classifier.pattern_data))
    (defaults : list (string * list (string * string)))
    (documents : list UpdateBodyClasses.document) :
  let out :=
    UpdateBodyClasses.classify_and_prepare_updates re_search utcnow_isoformat
      documents (Classifier.init ovs pats defaults) in
  let classification_report := snd (fst out) in
  let s := Classifier.stats (snd out) in
  (forall body_class,
     Classifier.count_of (Classifier.by_body_class s) body_class
     = Z.of_nat (count_occ string_dec
                   (map UpdateBodyClasses.rr_body_class classification_report)
                   body_class))
  /\ (forall match_type,
        Classifier.counter match_type s
        = Z.of_nat (count_occ string_dec
                      (map UpdateBodyClasses.rr_match_type classification_report)
                      match_type))
  /\ Classifier.total s = Z.of_nat (length classification_report).
Proof.
  cbv zeta. unfold UpdateBodyClasses.classify_and_prepare_updates.
  destruct (classify_and_prepare_updates_loop_spec re_search utcnow_isoformat
              documents 0%nat (Classifier.init ovs pats defaults) [] [])
    as (actions & report & -> & Hrows & _ & _ & Hvids & _ & _).
  cbn [fst snd app].
  destruct (classify_all_tally re_search (map UpdateBodyClasses.call_of documents)
              (Classifier.init ovs pats defaults)) as [Hb Ht].
  rewrite <- Hrows in Hb, Ht.
  rewrite !map_map in Hb, Ht.
  split; [|split].
  - intros b. rewrite Hb. reflexivity.
  - intros t. rewrite Ht. unfold Classifier.counter.
    cbn [Classifier.stats Classifier.init Classifier.empty_stats
         Classifier.historical_override Classifier.exact_match Classifier.regex_match
         Classifier.manufacturer_default Classifier.fallback].
    repeat match goal with
           | |- context [if ?b then _ else _] => destruct b
           end; reflexivity.
  - rewrite classify_all_total.
    apply (f_equal (@length _)) in Hvids. rewrite !length_map in *.
    cbn. lia.
Qed.


(* ===================================================================== *)
(** * More facts about the generator *)
(* ===================================================================== *)

Section MoreGeneratorFacts.
Import PyStr PyFloat VINGenerator.

(** ** [hash_string] *)

Lemma hash_step h c :
  Z.land (Z.shiftl h 5 - h + Z.of_N (N_of_ascii c)) 4294967295
  = (31 * h + Z.of_N (N_of_ascii c)) mod 4294967296.
Proof.
  change 4294967295 with (Z.ones 32). rewrite Z.land_ones by lia.
  rewrite Z.shiftl_mul_pow2 by lia. change (2 ^ 5) with 32. change (2 ^ 32) with 4294967296.
  f_equal. lia.
Qed.

Lemma hash_string_loop_app s t : forall h,
  hash_string_loop (s +:+ t) h = hash_string_loop t (hash_string_loop s h).
Proof.
  induction s as [|c s IH]; intros h; [reflexivity|].
  change (String c s +:+ t) with (String c (s +:+ t)).
  cbn [hash_string_loop]. apply IH.
Qed.

Lemma hash_string_loop_range s : forall h,
  0 <= h < 4294967296 -> 0 <= hash_string_loop s h < 4294967296.
Proof.
  induction s as [|c s IH]; intros h Hh; [exact Hh|].
  cbn [hash_string_loop]. apply IH. rewrite hash_step.
  apply Z.mod_pos_bound. lia.
Qed.

Lemma hash_string_eq s : hash_string s = hash_string_loop s 0.
Proof.
  unfold hash_string. pose proof (hash_string_loop_range s 0 ltac:(lia)). lia.
Qed.

(** ** The state update *)

Lemma lcg_next_mod s : lcg_next (s mod 4294967296) = lcg_next s.
Proof.
  unfold lcg_next. rewrite Z.add_mod by lia. rewrite Z.mul_mod_idemp_l by lia.
  rewrite <- Z.add_mod by lia. reflexivity.
Qed.

Lemma lcg_undo s :
  ((lcg_next s - 1013904223) * 4276115653) mod 4294967296 = s mod 4294967296.
Proof.
  unfold lcg_next.
  rewrite (Z.mod_eq (s * 1664525 + 1013904223) 4294967296) by lia.
  set (q := (s * 1664525 + 1013904223) / 4294967296).
  replace ((s * 1664525 + 1013904223 - 4294967296 * q - 1013904223) * 4276115653)
    with (s + (s * 1657219 - q * 4276115653) * 4294967296) by lia.
  apply Z.mod_add. lia.
Qed.

(** ** Small integers as floats *)

Lemma float_of_int_small z :
  Z.abs z < 2 ^ 53 -> float_of_int z = Ok (dyadic z 0).
Proof.
  intros Hz. unfold float_of_int, of_Z.
  rewrite (nice_not_infinity 54); [reflexivity|].
  apply (dyadic_nice z 0 53 53); lia.
Qed.

(** ** [generate_options] *)

Lemma mem_str_In x l : mem_str x l = true <-> In x l.
Proof.
  unfold mem_str. rewrite existsb_exists. split.
  - intros (y & Hy & Heq). apply String.eqb_eq in Heq. now subst.
  - intros H. exists x. split; [exact H | apply String.eqb_refl].
Qed.

Lemma generate_options_loop_distinct n : forall selected g options g',
  generate_options_loop n selected g = Ok (options, g') ->
  List.NoDup selected -> incl selected all_options ->
  List.NoDup options /\ incl options all_options /\ incl selected options.
Proof.
  induction n as [|n IH]; intros selected g options g' H Hnd Hincl.
  - injection H as <- _. split; [exact Hnd|]. split; [exact Hincl | apply incl_refl].
  - pose proof (lcg_next_range (state g)) as Hk.
    cbn [generate_options_loop] in H. unfold bind at 1 in H.
    rewrite seeded_random_eq in H.
    unfold bind at 1, lift at 1 in H. change (len all_options) with 8 in H.
    rewrite scaled_draw in H by lia.
    destruct (py_index_ok all_options (lcg_next (state g) * 8 / 4294967296))
      as (option & Hopt & _ & Hin);
      [change (len all_options) with 8; apply scaled_draw_range; lia|].
    unfold bind at 1, lift at 1 in H. rewrite Hopt in H.
    destruct (mem_str option selected) eqn:Hmem.
    + apply (IH _ _ _ _ H Hnd Hincl).
    + assert (Hnot : ~ In option selected).
      { intros Hi. apply mem_str_In in Hi. congruence. }
      destruct (IH _ _ _ _ H) as (H1 & H2 & H3).
      * apply List.NoDup_app;
          [exact Hnd | constructor; [intros [] | constructor]
          | intros x Hx [<-|[]]; exact (Hnot Hx)].
      * intros x Hx. apply in_app_or in Hx as [Hx | [<-|[]]]; [now apply Hincl | exact Hin].
      * split; [exact H1|]. split; [exact H2|].
        intros x Hx. apply H3. apply in_or_app. now left.
Qed.

Lemma option_count_eq rating k :
  0 <= rating <= 5 -> 0 <= k < 4294967296 ->
  int_of_float (fmul (fmul (dyadic rating 0) (dyadic k (-32))) (of_Z 3))
  = Ok (rating * k * 3 / 4294967296).
Proof.
  intros Hr Hk. unfold of_Z.
  assert (H53 : 2 ^ 53 = 9007199254740992) by reflexivity.
  rewrite fmul_dyadic by (rewrite ?H53; try lia; nia).
  rewrite fmul_dyadic by (rewrite ?H53; try lia; nia).
  rewrite int_of_float_dyadic by (rewrite ?H53; try lia; nia).
  change (Z.shiftl (rating * k * 3) (0 + -32 + 0)) with (Z.shiftr (rating * k * 3) 32).
  rewrite Z.shiftr_div_pow2 by lia. reflexivity.
Qed.


(** ** [generate_color], [generate_options], [generate_condition], [generate_state] *)

Lemma generate_color_spec year g :
  exists color,
    generate_color year g = Ok (color, after_draw g ColorPick)
    /\ nth_error (if year <? 1970 then pre_1970_colors else post_1970_colors)
         (Z.to_nat (lcg_next (state g) * 6 / 4294967296)) = Some color
    /\ In color (if year <? 1970 then pre_1970_colors else post_1970_colors).
Proof.
  pose proof (lcg_next_range (state g)) as Hk.
  unfold generate_color, bind, lift. rewrite seeded_random_eq.
  destruct (year <? 1970).
  - change (len pre_1970_colors) with 6. rewrite scaled_draw by lia.
    destruct (py_index_ok pre_1970_colors (lcg_next (state g) * 6 / 4294967296))
      as (c & -> & Hnth & Hin);
      [change (len pre_1970_colors) with 6; apply scaled_draw_range; lia|].
    exists c. split; [reflexivity|]. split; [exact Hnth | exact Hin].
  - change (len post_1970_colors) with 6. rewrite scaled_draw by lia.
    destruct (py_index_ok post_1970_colors (lcg_next (state g) * 6 / 4294967296))
      as (c & -> & Hnth & Hin);
      [change (len post_1970_colors) with 6; apply scaled_draw_range; lia|].
    exists c. split; [reflexivity|]. split; [exact Hnth | exact Hin].
Qed.

Lemma generate_options_spec condition_rating g :
  0 <= condition_rating <= 5 ->
  exists options,
    generate_options condition_rating g
    = Ok (options,
          after_draws g
            (OptionCount
             :: repeat OptionPick
                  (Z.to_nat (Z.min (condition_rating * lcg_next (state g) * 3
                                    / 4294967296) 8))))
    /\ List.NoDup options
    /\ incl options all_options
    /\ (length options
        <= Z.to_nat (Z.min (condition_rating * lcg_next (state g) * 3 / 4294967296) 8))%nat.
Proof.
  intros Hrating.
  pose proof (lcg_next_range (state g)) as Hk.
  set (k := lcg_next (state g)) in *.
  assert (Hcount : generate_options condition_rating g
                   = generate_options_loop
                       (Z.to_nat (Z.min (condition_rating * k * 3 / 4294967296) 8)) []
                       (after_draw g OptionCount)).
  { unfold generate_options, bind, lift.
    rewrite seeded_random_eq. fold k.
    rewrite float_of_int_small by (change (2 ^ 53) with 9007199254740992; lia).
    rewrite option_count_eq by lia. reflexivity. }
  destruct (generate_options_loop_ok
              (Z.to_nat (Z.min (condition_rating * k * 3 / 4294967296) 8)) []
              (after_draw g OptionCount))
    as (options & Hloop & Hlen).
  exists options. rewrite Hcount. split; [exact Hloop|].
  destruct (generate_options_loop_distinct _ _ _ _ _ Hloop) as (Hnd & Hincl & _);
    [constructor | intros x [] |].
  split; [exact Hnd|]. split; [exact Hincl | exact Hlen].
Qed.

Lemma generate_condition_spec g :
  exists c,
    generate_condition g = Ok (c, after_draw g ConditionRoll)
    /\ In (rating c, description c)
         [(5, "Concours"); (4, "Excellent"); (3, "Good"); (2, "Fair"); (1, "Project")].
Proof.
  unfold generate_condition, bind. rewrite seeded_random_eq.
  repeat match goal with
         | |- context [if ?b then _ else _] => destruct b
         end;
    (eexists; split; [reflexivity | cbn; tauto]).
Qed.

Lemma generate_state_loop_in l : forall roll code,
  generate_state_loop l roll = Some code -> In code (map fst l).
Proof.
  induction l as [|[c w] l IH]; intros roll code; cbn [generate_state_loop];
    [discriminate|].
  destruct (fle _ _).
  - intros [= <-]. now left.
  - intros H. right. eapply IH, H.
Qed.

Lemma generate_state_spec g :
  exists code,
    generate_state g = Ok (code, after_draw g StateRoll)
    /\ In code (map fst states).
Proof.
  unfold generate_state, bind. rewrite seeded_random_eq.
  destruct (generate_state_loop _ _) as [code|] eqn:Hl.
  - exists code. split; [reflexivity|]. eapply generate_state_loop_in, Hl.
  - exists "CA". split; [reflexivity|]. now left.
Qed.

End MoreGeneratorFacts.

(** X12. [hash_string] is the polynomial hash with multiplier 31 modulo
    [2^32]: the empty string hashes to 0, one more character [c] takes the
    hash [h] to [(31 * h + ord(c)) mod 2^32], and the result always lies in
    [0, 2^32), so that the final [abs] changes nothing. *)
Theorem hash_string_is_polynomial_mod_2_32 (s : string) (c : ascii) :
  VINGenerator.hash_string "" = 0
  /\ VINGenerator.hash_string (s +:+ String c "")
     = (31 * VINGenerator.hash_string s + Z.of_N (N_of_ascii c)) mod 4294967296
  /\ 0 <= VINGenerator.hash_string s < 4294967296
  /\ VINGenerator.hash_string s = VINGenerator.hash_string_loop s 0.
Proof.
  split; [reflexivity|]. split; [|split; [|apply hash_string_eq]].
  - rewrite !hash_string_eq, hash_string_loop_app.
    cbn [VINGenerator.hash_string_loop]. apply hash_step.
  - rewrite hash_string_eq. apply hash_string_loop_range. lia.
Qed.

(** X13. The state update of [_seeded_random] is a permutation of the 32-bit
    states: two different states never lead to the same state, and every
    state has a predecessor. The update only depends on the state modulo
    [2^32]. *)
Theorem lcg_next_permutes_states (s1 s2 t : Z) :
  (0 <= s1 < 4294967296 -> 0 <= s2 < 4294967296 ->
   VINGenerator.lcg_next s1 = VINGenerator.lcg_next s2 -> s1 = s2)
  /\ (0 <= t < 4294967296 ->
      exists s, 0 <= s < 4294967296 /\ VINGenerator.lcg_next s = t)
  /\ VINGenerator.lcg_next (s1 mod 4294967296) = VINGenerator.lcg_next s1.
Proof.
  split; [|split; [|apply lcg_next_mod]].
  - intros H1 H2 Heq.
    pose proof (lcg_undo s1) as U1. pose proof (lcg_undo s2) as U2.
    rewrite Heq, U2 in U1. rewrite !Z.mod_small in U1 by lia. lia.
  - intros Ht. exists (((t - 1013904223) * 4276115653) mod 4294967296).
    split; [apply Z.mod_pos_bound; lia|].
    rewrite lcg_next_mod. unfold VINGenerator.lcg_next.
    replace ((t - 1013904223) * 4276115653 * 1664525 + 1013904223)
      with (t + (t - 1013904223) * 1657219 * 4294967296) by lia.
    rewrite Z.mod_add by lia. apply Z.mod_small. exact Ht.
Qed.

(** X14. [generate_color] never raises: with [k] the state after its one
    draw, it returns the colour at index [k * 6 div 2^32] of the palette, the
    earlier one for a model year before 1970 and the later one from 1970 on. *)
Theorem generate_color_picks_from_the_era_palette (year : Z) (g : VINGenerator.generator) :
  let k := VINGenerator.lcg_next (VINGenerator.state g) in
  let palette := if year <? 1970 then VINGenerator.pre_1970_colors
                 else VINGenerator.post_1970_colors in
  exists color,
    VINGenerator.generate_color year g
    = Ok (color, VINGenerator.after_draw g VINGenerator.ColorPick)
    /\ nth_error palette (Z.to_nat (k * 6 / 4294967296)) = Some color
    /\ In color palette.
Proof. cbv zeta. apply generate_color_spec. Qed.

(** X15. For a rating from 0 to 5, [generate_options] returns a list of
    distinct options of the catalog. With [k] the state after the first
    draw, the option count is [rating * k * 3 div 2^32], below three times
    the rating; the loop makes the smaller of that count and 8 picks, and the
    list is no longer than the number of picks (a pick that repeats an
    option adds nothing). *)
Theorem generate_options_are_distinct (condition_rating : Z) (g : VINGenerator.generator) :
  0 <= condition_rating <= 5 ->
  let option_count :=
    condition_rating * VINGenerator.lcg_next (VINGenerator.state g) * 3 / 4294967296 in
  let picks := Z.to_nat (Z.min option_count 8) in
  exists options,
    VINGenerator.generate_options condition_rating g
    = Ok (options,
          VINGenerator.after_draws g
            (VINGenerator.OptionCount :: repeat VINGenerator.OptionPick picks))
    /\ List.NoDup options
    /\ incl options VINGenerator.all_options
    /\ (length options <= picks)%nat
    /\ 0 <= option_count
    /\ (0 < condition_rating -> option_count < 3 * condition_rating).
Proof.
  intros Hrating. cbv zeta.
  pose proof (lcg_next_range (VINGenerator.state g)) as Hk.
  destruct (generate_options_spec condition_rating g Hrating)
    as (options & H & Hnd & Hincl & Hlen).
  exists options. split; [exact H|]. split; [exact Hnd|]. split; [exact Hincl|].
  split; [exact Hlen|]. split.
  - apply Z.div_pos; nia.
  - intros Hpos. apply Z.div_lt_upper_bound; nia.
Qed.

Lemma generate_options_are_distinct_witness :
  5 * VINGenerator.lcg_next 82 * 3 / 4294967296 = 4
  /\ VINGenerator.generate_options 5 (VINGenerator.init 82)
     = Ok (["Rally Pac Gauges"; "Tinted Glass"; "Power Steering"],
           VINGenerator.after_draws (VINGenerator.init 82)
             (VINGenerator.OptionCount :: repeat VINGenerator.OptionPick 4))
  /\ List.NoDup ["Rally Pac Gauges"; "Tinted Glass"; "Power Steering"].
Proof.
  destruct (generate_options_are_distinct 5 (VINGenerator.init 82) ltac:(lia))
    as (options & H & Hnd & _).
  assert (Hc : VINGenerator.generate_options 5 (VINGenerator.init 82)
               = Ok (["Rally Pac Gauges"; "Tinted Glass"; "Power Steering"],
                     VINGenerator.after_draws (VINGenerator.init 82)
                       (VINGenerator.OptionCount :: repeat VINGenerator.OptionPick 4)))
    by (vm_compute; reflexivity).
  split; [vm_compute; reflexivity|]. split; [exact Hc|].
  assert (Ho : options = ["Rally Pac Gauges"; "Tinted Glass"; "Power Steering"])
    by congruence.
  rewrite <- Ho. exact Hnd.
Defined.

(** X16. [calculate_value] raises [KeyError] exactly for a rating that is not
    one of 1 to 5, the keys of [base_values]; for those ratings, and at
    most eight options, it returns after one draw. *)
Theorem calculate_value_key_error
    (condition_rating mileage : Z) (options : list string) (g : VINGenerator.generator) :
  (~ 1 <= condition_rating <= 5 ->
   VINGenerator.calculate_value condition_rating mileage options g = Raise KeyError)
  /\ (1 <= condition_rating <= 5 -> (length options <= 8)%nat ->
      exists value,
        VINGenerator.calculate_value condition_rating mileage options g
        = Ok (value, VINGenerator.after_draw g VINGenerator.ValueVariance)).
Proof.
  split.
  - intros Hr. unfold VINGenerator.calculate_value, VINGenerator.bind, VINGenerator.lift,
      VINGenerator.base_values.
    repeat match goal with
           | |- context [?a =? ?b] =>
               destruct (Z.eqb_spec a b); [lia|]
           end.
    reflexivity.
  - apply calculate_value_ok.
Qed.

(** X17. The post-1981 VIN has 15 characters besides the manufacturer code,
    which is the first two characters of the manufacturer or fewer when it
    is shorter: for a manufacturer name in ASCII and an index from 0 to
    899999 the length is 17 exactly when the name has two characters or
    more. *)
Theorem post_1981_vin_length_follows_manufacturer
    (manufacturer : string) (year index : Z) (g : VINGenerator.generator) :
  PyStr.isascii manufacturer = true ->
  0 <= index < 900000 ->
  exists vin,
    VINGenerator.generate_post_1981_vin manufacturer year index g = Ok (vin, g)
    /\ String.length vin = (15 + Nat.min 2 (String.length manufacturer))%nat.
Proof.
  intros _ Hi.
  destruct (generate_post_1981_vin_ok manufacturer year index g) as (yc & _ & H).
  eexists. split; [exact H|].
  rewrite !length_append. cbn [String.length].
  rewrite length_append, length_upper, length_take, serial_of_length by exact Hi.
  cbn [String.length]. lia.
Qed.

Lemma post_1981_vin_length_follows_manufacturer_witness :
  exists vin,
    VINGenerator.generate_post_1981_vin "F" 1995 7 (VINGenerator.init 1)
    = Ok (vin, VINGenerator.init 1)
    /\ String.length vin = 16%nat.
Proof.
  exact (post_1981_vin_length_follows_manufacturer "F" 1995 7 (VINGenerator.init 1)
           eq_refl ltac:(lia)).
Defined.

(** X18. After 1980 the VIN of a record depends on the first two characters
    of the manufacturer (case apart), the year modulo 30 and the index only,
    not on the model and not on the seed: two vehicles that agree in these
    get the same VIN at the same index. *)
Theorem post_1981_vins_collide
    (today1 today2 : Z) (v1 v2 : VINGenerator.vehicle) (index : Z)
    (g1 g2 : VINGenerator.generator) :
  1980 < VINGenerator.year v1 < 2 ^ 1000 ->
  1980 < VINGenerator.year v2 < 2 ^ 1000 ->
  PyStr.upper (PyStr.take 2 (VINGenerator.manufacturer v1))
  = PyStr.upper (PyStr.take 2 (VINGenerator.manufacturer v2)) ->
  (VINGenerator.year v1 - 1980) mod 30 = (VINGenerator.year v2 - 1980) mod 30 ->
  exists r1 g1' r2 g2',
    VINGenerator.generate_instance today1 v1 index g1 = Ok (r1, g1')
    /\ VINGenerator.generate_instance today2 v2 index g2 = Ok (r2, g2')
    /\ VINGenerator.vin r1 = VINGenerator.vin r2.
Proof.
  intros Hy1 Hy2 Hm Hy.
  assert (Hpost : forall today v g,
            1980 < VINGenerator.year v < 2 ^ 1000 ->
            exists r g' yc,
              VINGenerator.generate_instance today v index g = Ok (r, g')
              /\ nth_error (list_ascii_of_string VINGenerator.year_codes)
                   (Z.to_nat ((VINGenerator.year v - 1980) mod 30)) = Some yc
              /\ VINGenerator.vin r
                 = "1" +:+ PyStr.upper (PyStr.take 2 (VINGenerator.manufacturer v))
                   +:+ "BP40E9" +:+ String yc ("F" +:+ VINGenerator.serial_of index)).
  { intros today v g Hyv.
    assert (Hage : Z.abs (2025 - VINGenerator.year v) < 2 ^ 1000).
    { assert (2025 < 2 ^ 1000) by (apply (Z.lt_le_trans _ (2 ^ 11)); [reflexivity|];
                                    apply Z.pow_le_mono_r; lia).
      lia. }
    destruct (generate_instance_spec today v index g)
      as (vin_ & g1' & Hvin & [(e & Hmil & _)|(r & n & d & Hok & _ & _ & Hv & _)]).
    { destruct (generate_mileage_ok (VINGenerator.year v)
                  (VINGenerator.after_draw g1' VINGenerator.ConditionRoll) Hage)
        as (m & Hm'). rewrite Hm' in Hmil. discriminate. }
    destruct (generate_post_1981_vin_ok (VINGenerator.manufacturer v)
                (VINGenerator.year v) index g) as (yc & Hnth & Hp).
    unfold VINGenerator.generate_vin in Hvin.
    assert (Hb : (VINGenerator.year v <=? 1980) = false) by (apply Z.leb_gt; lia).
    rewrite Hb, Hp in Hvin.
    assert (Hvin' : vin_
                    = "1" +:+ PyStr.upper (PyStr.take 2 (VINGenerator.manufacturer v))
                      +:+ "BP40E9"
                      +:+ String yc ("F" +:+ VINGenerator.serial_of index))
      by congruence.
    eexists r, _, yc. split; [exact Hok|]. split; [exact Hnth|].
    now rewrite Hv. }
  destruct (Hpost today1 v1 g1 Hy1) as (r1 & g1' & yc1 & Hok1 & Hn1 & Hv1).
  destruct (Hpost today2 v2 g2 Hy2) as (r2 & g2' & yc2 & Hok2 & Hn2 & Hv2).
  exists r1, g1', r2, g2'. split; [exact Hok1|]. split; [exact Hok2|].
  rewrite Hy, Hn2 in Hn1. injection Hn1 as ->.
  rewrite Hv1, Hv2, Hm. reflexivity.
Qed.

Lemma post_1981_vins_collide_witness :
  exists r1 g1' r2 g2',
    VINGenerator.generate_instance 739000 VINGenerator.escort_1981 4 (VINGenerator.init 1)
    = Ok (r1, g1')
    /\ VINGenerator.generate_instance 739001 VINGenerator.focus_2011 4 (VINGenerator.init 2)
       = Ok (r2, g2')
    /\ VINGenerator.vin r1 = VINGenerator.vin r2.
Proof.
  apply (post_1981_vins_collide 739000 739001
           VINGenerator.escort_1981 VINGenerator.focus_2011 4).
  - split; [reflexivity|]. apply (Z.lt_le_trans _ (2 ^ 11)); [reflexivity|].
    apply Z.pow_le_mono_r; lia.
  - split; [reflexivity|]. apply (Z.lt_le_trans _ (2 ^ 11)); [reflexivity|].
    apply Z.pow_le_mono_r; lia.
  - reflexivity.
  - reflexivity.
Defined.

(** X19. Without instances to share out, [distribute_vins_across_vehicles]
    divides by zero: an empty vehicle list returns the empty distribution
    for target 0 and raises [ZeroDivisionError] for every other target, and
    a non-empty list whose instance counts sum to 0 always raises it. *)
Theorem distribute_without_instances (vehicles : list VINGenerator.vehicle) (target : Z) :
  Distribution.distribute_vins_across_vehicles [] target
  = (if target =? 0 then Ok [] else Raise ZeroDivisionError)
  /\ (vehicles <> [] -> Distribution.total_instances_of vehicles = 0 ->
      Distribution.distribute_vins_across_vehicles vehicles target
      = Raise ZeroDivisionError).
Proof.
  split.
  - unfold Distribution.distribute_vins_across_vehicles.
    cbn [Distribution.proportional rbind Distribution.total_vins map fold_right].
    destruct (Z.eqb_spec 0 target) as [<-|Hne]; [reflexivity|].
    destruct (Z.eqb_spec target 0) as [->|_]; [lia|].
    destruct (Z.ltb_spec 0 (target - 0)).
    + destruct (Z.to_nat (target - 0)) eqn:Hn; [lia|]. reflexivity.
    + destruct (Z.to_nat (Z.abs (target - 0))) eqn:Hn; [lia|]. reflexivity.
  - intros Hne Htot. destruct vehicles as [|v rest]; [congruence|].
    unfold Distribution.distribute_vins_across_vehicles. rewrite Htot. reflexivity.
Qed.

Section MoreDecimalFacts.
Import PyStr Digits.

Lemma last_char_cons c s : s <> "" -> last_char (String c s) = last_char s.
Proof. destruct s; [congruence | reflexivity]. Qed.

Lemma string_of_uint_nonempty u :
  u <> Decimal.Nil -> DecimalString.NilEmpty.string_of_uint u <> "".
Proof. destruct u; [congruence | discriminate ..]. Qed.

Lemma uint_nil_dec (u : Decimal.uint) : {u = Decimal.Nil} + {u <> Decimal.Nil}.
Proof. destruct u; [now left | right; discriminate ..]. Qed.

Lemma pos_mod_10 (k : Z) (acc : positive) :
  0 <= k <= 9 -> (k + 10 * Zpos acc) mod 10 = k.
Proof. intros Hk. Z.to_euclidean_division_equations. lia. Qed.

Lemma last_digit_acc u : forall acc,
  u <> Decimal.Nil ->
  exists d, 0 <= d <= 9
    /\ Zpos (Pos.of_uint_acc u acc) mod 10 = d
    /\ last_char (DecimalString.NilEmpty.string_of_uint u) = Some (digit_char d).
Proof.
  induction u as [|u IH|u IH|u IH|u IH|u IH|u IH|u IH|u IH|u IH|u IH];
    intros acc Hne; [congruence | ..];
    (destruct (uint_nil_dec u) as [->|Hu];
     [ cbn [Pos.of_uint_acc DecimalString.NilEmpty.string_of_uint last_char];
       match goal with
       | |- context [Zpos (10 * ?a)] =>
           exists 0; split; [lia|]; split;
           [rewrite Pos2Z.inj_mul; apply (pos_mod_10 0 a); lia | reflexivity]
       | |- context [Zpos (?k + 10 * ?a)] =>
           exists (Zpos k); split; [lia|]; split;
           [rewrite Pos2Z.inj_add, Pos2Z.inj_mul; apply pos_mod_10; lia | reflexivity]
       end
     | cbn [Pos.of_uint_acc DecimalString.NilEmpty.string_of_uint];
       rewrite last_char_cons by (now apply string_of_uint_nonempty);
       apply IH; exact Hu ]).
Qed.

Lemma last_digit u :
  u <> Decimal.Nil ->
  exists d, 0 <= d <= 9
    /\ Z.of_N (Pos.of_uint u) mod 10 = d
    /\ last_char (DecimalString.NilEmpty.string_of_uint u) = Some (digit_char d).
Proof.
  induction u as [|u IH|u _|u _|u _|u _|u _|u _|u _|u _|u _];
    intros Hne; [congruence | ..];
    (destruct (uint_nil_dec u) as [->|Hu];
     [ cbn [Pos.of_uint Pos.of_uint_acc DecimalString.NilEmpty.string_of_uint last_char];
       match goal with
       | |- context [Z.of_N 0] => exists 0
       | |- context [Z.of_N (N.pos ?k)] => exists (Zpos k)
       end; split; [lia|]; split; reflexivity
     | cbn [Pos.of_uint DecimalString.NilEmpty.string_of_uint];
       rewrite last_char_cons by (now apply string_of_uint_nonempty);
       first [ apply IH; exact Hu
             | cbn [Z.of_N]; apply last_digit_acc; exact Hu ] ]).
Qed.

Lemma last_char_str_of_int n :
  last_char (str_of_int n) = Some (digit_char (Z.abs n mod 10)).
Proof.
  assert (Hpos : forall p,
            last_char (DecimalString.NilZero.string_of_uint (Pos.to_uint p))
            = Some (digit_char (Zpos p mod 10))
            /\ DecimalString.NilZero.string_of_uint (Pos.to_uint p) <> "").
  { intros p. pose proof (DecimalPos.Unsigned.to_uint_nonnil p) as Hne.
    destruct (last_digit (Pos.to_uint p) Hne) as (d & _ & Hval & Hlast).
    rewrite DecimalPos.Unsigned.of_to in Hval.
    change (Z.of_N (N.pos p)) with (Zpos p) in Hval. rewrite Hval.
    unfold DecimalString.NilZero.string_of_uint.
    destruct (Pos.to_uint p) eqn:Hu; [congruence | ..];
      (split; [exact Hlast | discriminate]). }
  unfold str_of_int. destruct n as [|p|p]; [reflexivity | |];
    cbn [Z.to_int DecimalString.NilZero.string_of_int];
    change (Z.abs (Zpos p)) with (Zpos p); change (Z.abs (Zneg p)) with (Zpos p);
    destruct (Hpos p) as [Hl Hne]; [exact Hl|].
  rewrite last_char_cons by exact Hne. exact Hl.
Qed.

Lemma str_of_int_inj a b : str_of_int a = str_of_int b -> a = b.
Proof.
  unfold str_of_int. intros H.
  assert (Hn : forall z, Z.to_int z <> Decimal.Pos Decimal.Nil
                         /\ Z.to_int z <> Decimal.Neg Decimal.Nil).
  { intros [|p|p]; cbn [Z.to_int]; split; try discriminate;
      intros [= Hp]; exact (DecimalPos.Unsigned.to_uint_nonnil p Hp). }
  apply (f_equal DecimalString.NilZero.int_of_string) in H.
  rewrite !DecimalString.NilZero.isi in H by apply Hn.
  injection H as H. apply (f_equal Z.of_int) in H.
  now rewrite !DecimalZ.of_to in H.
Qed.

Lemma serial_of_eq index :
  0 <= index < 900000 -> VINGenerator.serial_of index = str_of_int (100000 + index).
Proof.
  intros Hi. unfold VINGenerator.serial_of, zfill.
  pose proof (str_of_int_six_digits (100000 + index) ltac:(lia)) as Hlen.
  destruct (str_of_int (100000 + index)) as [|c s] eqn:Hs; [discriminate|].
  rewrite Hlen. cbn [Nat.sub zeros].
  destruct (Ascii.eqb c "-" || Ascii.eqb c "+")%bool; reflexivity.
Qed.

Lemma serial_of_inj i j :
  0 <= i < 900000 -> 0 <= j < 900000 ->
  VINGenerator.serial_of i = VINGenerator.serial_of j -> i = j.
Proof.
  intros Hi Hj H. rewrite !serial_of_eq in H by assumption.
  apply str_of_int_inj in H. lia.
Qed.

Lemma append_cancel_l p : forall a b, p +:+ a = p +:+ b -> a = b.
Proof.
  induction p as [|c p IH]; intros a b H; [exact H|].
  change (String c (p +:+ a) = String c (p +:+ b)) in H.
  injection H as H. now apply IH.
Qed.

End MoreDecimalFacts.

Section RecordFacts.
Import PyStr PyFloat VINGenerator.

Lemma generate_instance_fields today v index g r g' :
  generate_instance today v index g = Ok (r, g') ->
  (exists vin_ g1, generate_vin v index g = Ok (vin_, g1) /\ vin r = vin_)
  /\ (i_vehicle_id r = vehicle_id v /\ i_manufacturer r = manufacturer v
      /\ i_model r = model v /\ i_year r = year v /\ i_body_class r = body_class v)
  /\ In (condition_rating r, condition_description r)
       [(5, "Concours"); (4, "Excellent"); (3, "Good"); (2, "Fair"); (1, "Project")]
  /\ In (registered_state r) (map fst states)
  /\ In (exterior_color r) (if year v <? 1970 then pre_1970_colors else post_1970_colors)
  /\ List.NoDup (factory_options r)
  /\ incl (factory_options r) all_options
  /\ In (registration_status r) ["Active"; "Historic"]
  /\ In (title_status r) ["Clean"; "Rebuilt"]
  /\ today - 179 <= last_service_date r <= today.
Proof.
  intros H. unfold generate_instance in H. cbv zeta in H.
  change (if year v <=? 1980
          then generate_pre_1981_vin (manufacturer v) (year v) index
          else generate_post_1981_vin (manufacturer v) (year v) index)
    with (generate_vin v index) in H.
  unfold bind at 1 in H.
  destruct (generate_vin v index g) as [[vin_ g1]|] eqn:Hvin; [|discriminate].
  destruct (generate_condition_spec g1) as (c & Hc & Hct).
  unfold bind at 1 in H. rewrite Hc in H.
  assert (Hrating : 1 <= rating c <= 5).
  { cbn [In] in Hct.
    destruct Hct as [Hc1|[Hc1|[Hc1|[Hc1|[Hc1|[]]]]]]; injection Hc1 as <- _; lia. }
  unfold bind at 1 in H.
  destruct (generate_mileage (year v) (after_draw g1 ConditionRoll))
    as [[m g3]|e] eqn:Hm; [|discriminate].
  destruct (generate_state_spec g3) as (st & Hst & Hstin).
  unfold bind at 1 in H. rewrite Hst in H.
  destruct (generate_color_spec (year v) (after_draw g3 StateRoll))
    as (col & Hcol & _ & Hcolin).
  unfold bind at 1 in H. rewrite Hcol in H.
  destruct (generate_options_spec (rating c) (after_draw (after_draw g3 StateRoll) ColorPick)
              ltac:(lia)) as (opts & Hopts & Hnd & Hincl & Hlen).
  unfold bind at 1 in H. rewrite Hopts in H.
  match type of Hopts with
  | _ = Ok (_, ?gg) => set (g6 := gg) in *
  end.
  destruct (calculate_value_ok (rating c) m opts g6 Hrating ltac:(lia)) as (value & Hval).
  unfold bind at 1 in H. rewrite Hval in H.
  unfold bind at 1 in H. rewrite seeded_random_eq in H.
  pose proof (lcg_next_range (state (after_draw g6 ValueVariance))) as Hk.
  unfold bind at 1, lift at 1 in H. rewrite scaled_draw in H by lia.
  unfold bind at 1 in H. rewrite seeded_random_eq in H.
  unfold bind at 1 in H. rewrite seeded_random_eq in H.
  unfold bind at 1 in H. rewrite seeded_random_eq in H.
  unfold bind at 1 in H. rewrite seeded_random_eq in H.
  unfold ret in H.
  lazymatch type of H with
  | Ok (?R, _) = Ok (r, g') => assert (Hr : R = r) by congruence
  end.
  rewrite <- Hr. clear Hr H.
  cbn [vin i_manufacturer i_model i_year i_body_class i_vehicle_id
       condition_rating condition_description mileage mileage_verified
       registered_state registration_status title_status exterior_color
       factory_options estimated_value matching_numbers last_service_date].
  split; [now exists vin_, g1|].
  split; [repeat split|]. split; [exact Hct|]. split; [exact Hstin|].
  split; [exact Hcolin|]. split; [exact Hnd|]. split; [exact Hincl|].
  split; [destruct (fgt _ _); [now left | right; now left]|].
  split; [destruct (fgt _ _); [now left | right; now left]|].
  pose proof (scaled_draw_range _ 180 Hk ltac:(lia)). lia.
Qed.

Lemma pow2_1000_big : 2025 < 2 ^ 1000.
Proof.
  apply (Z.lt_le_trans _ (2 ^ 11)); [reflexivity|]. apply Z.pow_le_mono_r; lia.
Qed.

End RecordFacts.

Section PipelineFacts.
Import VINGenerator Distribution Pipeline.

Lemma generate_vehicle_vins_spec day_of_call n : forall v i g all_vins,
  Z.abs (2025 - year v) < 2 ^ 1000 ->
  exists block g',
    generate_vehicle_vins day_of_call n v i g all_vins = Ok ((all_vins ++ block)%list, g')
    /\ length block = n
    /\ Forall (made_for v) block.
Proof.
  induction n as [|n IH]; intros v i g all_vins Hage.
  - exists [], g. cbn. rewrite app_nil_r. repeat split. constructor.
  - cbn [generate_vehicle_vins].
    destruct (generate_instance_returns (day_of_call (length all_vins)) v i g Hage)
      as (r & g1 & Hr).
    rewrite Hr.
    destruct (IH v (i + 1) g1 (all_vins ++ [r])%list Hage) as (block & g' & Hb & Hlen & Hall).
    exists (r :: block), g'. rewrite Hb, <- app_assoc. cbn [app length].
    split; [reflexivity|]. split; [now rewrite Hlen|].
    constructor; [|exact Hall].
    apply generate_instance_fields in Hr. unfold made_for. tauto.
Qed.

Lemma generate_all_vins_loop_spec day_of_call distribution : forall all_vins,
  Forall (fun item => Z.abs (2025 - year (a_vehicle item)) < 2 ^ 1000) distribution ->
  exists blocks,
    generate_all_vins_loop day_of_call distribution all_vins
    = Ok (all_vins ++ concat blocks)%list
    /\ Forall2 (fun item block =>
                  length block = Z.to_nat (vin_count item)
                  /\ Forall (made_for (a_vehicle item)) block)
         distribution blocks.
Proof.
  induction distribution as [|item distribution IH]; intros all_vins Hall.
  - exists []. cbn. rewrite app_nil_r. split; [reflexivity | constructor].
  - inversion Hall as [|? ? Hitem Hrest]; subst.
    cbn [generate_all_vins_loop]. cbv zeta.
    destruct (generate_vehicle_vins_spec day_of_call (Z.to_nat (vin_count item))
                (a_vehicle item) 0 (init (hash_string (vehicle_id (a_vehicle item))))
                all_vins Hitem) as (block & g' & -> & Hlen & Hmade).
    destruct (IH (all_vins ++ block)%list Hrest) as (blocks & -> & Hblocks).
    exists (block :: blocks). cbn [concat]. rewrite app_assoc.
    split; [reflexivity|]. constructor; [split; assumption | exact Hblocks].
Qed.

Lemma generate_vehicle_vins_shift day_of_call n : forall v i g acc1 acc2,
  generate_vehicle_vins day_of_call n v i g (acc1 ++ acc2)%list
  = match generate_vehicle_vins (fun m => day_of_call (length acc1 + m)%nat) n v i g acc2 with
    | Ok (l, g') => Ok ((acc1 ++ l)%list, g')
    | Raise e => Raise e
    end.
Proof.
  induction n as [|n IH]; intros v i g acc1 acc2; [reflexivity|].
  cbn [generate_vehicle_vins]. rewrite length_app.
  destruct (generate_instance _ v i g) as [[r g1]|e]; [|reflexivity].
  rewrite <- app_assoc. apply IH.
Qed.

Lemma generate_all_vins_loop_shift day_of_call distribution : forall acc1 acc2,
  generate_all_vins_loop day_of_call distribution (acc1 ++ acc2)%list
  = match generate_all_vins_loop (fun m => day_of_call (length acc1 + m)%nat)
            distribution acc2 with
    | Ok l => Ok (acc1 ++ l)%list
    | Raise e => Raise e
    end.
Proof.
  induction distribution as [|item distribution IH]; intros acc1 acc2; [reflexivity|].
  cbn [generate_all_vins_loop]. cbv zeta. rewrite generate_vehicle_vins_shift.
  destruct (generate_vehicle_vins _ _ _ _ _ acc2) as [[l g']|e]; [|reflexivity].
  apply IH.
Qed.

Lemma generate_all_vins_loop_app day_of_call d1 d2 : forall acc,
  generate_all_vins_loop day_of_call (d1 ++ d2) acc
  = match generate_all_vins_loop day_of_call d1 acc with
    | Ok acc' => generate_all_vins_loop day_of_call d2 acc'
    | Raise e => Raise e
    end.
Proof.
  induction d1 as [|item d1 IH]; intros acc; [reflexivity|].
  cbn [app generate_all_vins_loop]. cbv zeta.
  destruct (generate_vehicle_vins _ _ _ _ _ acc) as [[l g']|e]; [|reflexivity].
  apply IH.
Qed.

Lemma length_concat_blocks distribution : forall blocks,
  Forall2 (fun item (block : list instance) =>
             length block = Z.to_nat (vin_count item)
             /\ Forall (made_for (a_vehicle item)) block)
    distribution blocks ->
  all_at_least_min distribution ->
  Z.of_nat (length (concat blocks)) = total_vins distribution.
Proof.
  induction distribution as [|item distribution IH]; intros blocks H Hmin.
  - inversion H; subst. reflexivity.
  - inversion H as [|? block ? blocks' [Hlen _] Hrest]; subst.
    inversion Hmin as [|? ? Hitem Hmin']; subst.
    cbn [concat]. rewrite length_app, total_vins_cons, Nat2Z.inj_add, (IH _ Hrest Hmin'), Hlen.
    unfold min_vins_per_vehicle in Hitem. lia.
Qed.

End PipelineFacts.

Section OrderFacts.
Import VINGenerator Distribution.

Lemma insert_desc_forall (P : allocation -> Prop) d l :
  P d -> Forall P l -> Forall P (insert_desc d l).
Proof.
  intros Hd Hl. induction Hl as [|x l Hx Hl IH]; cbn [insert_desc].
  - now constructor.
  - destruct (_ <=? _); constructor; auto.
Qed.

Lemma insert_desc_sorted d l :
  StronglySorted (fun a b => instance_count (a_vehicle b) <= instance_count (a_vehicle a)) l ->
  StronglySorted (fun a b => instance_count (a_vehicle b) <= instance_count (a_vehicle a))
    (insert_desc d l).
Proof.
  intros Hs. induction Hs as [|x l Hs IH Hx]; cbn [insert_desc].
  - constructor; constructor.
  - destruct (Z.leb_spec (instance_count (a_vehicle x)) (instance_count (a_vehicle d))).
    + constructor; [now constructor|].
      constructor; [exact H|].
      eapply List.Forall_impl; [|exact Hx]. cbn. intros a Ha. lia.
    + constructor; [exact IH|].
      apply insert_desc_forall; [lia | exact Hx].
Qed.

Lemma sort_desc_sorted l :
  StronglySorted (fun a b => instance_count (a_vehicle b) <= instance_count (a_vehicle a))
    (sort_desc l).
Proof.
  induction l as [|x l IH]; cbn; [constructor|]. now apply insert_desc_sorted.
Qed.

Lemma sorted_by_vehicle (l l' : list allocation) :
  map a_vehicle l' = map a_vehicle l ->
  StronglySorted (fun a b => instance_count (a_vehicle b) <= instance_count (a_vehicle a)) l ->
  StronglySorted (fun v w => instance_count w <= instance_count v) (map a_vehicle l').
Proof.
  intros -> Hs. induction Hs as [|x l Hs IH Hx]; cbn [map]; [constructor|].
  constructor; [exact IH|].
  apply List.Forall_map. exact Hx.
Qed.

End OrderFacts.

(** X20. For a year and a serial number that [str] converts (fewer than 4301
    decimal digits), [generate_pre_1981_vin] returns the last decimal digit
    of the year, the plant letter at index [k * 5 div 2^32] of the five
    ([k] the state after the draw), "01C" and the serial. The result does
    not depend on the manufacturer, and on the year only through its last
    digit. *)
Theorem pre_1981_vin_keeps_the_last_year_digit
    (manufacturer : string) (year index : Z) (g : VINGenerator.generator) :
  PyStr.int_str_ok year -> PyStr.int_str_ok (100000 + index) ->
  exists plant,
    nth_error VINGenerator.plants
      (Z.to_nat (VINGenerator.lcg_next (VINGenerator.state g) * 5 / 4294967296))
    = Some plant
    /\ VINGenerator.generate_pre_1981_vin manufacturer year index g
       = Ok (String (Digits.digit_char (Z.abs year mod 10))
               (String plant ("01C" +:+ VINGenerator.serial_of index)),
             VINGenerator.after_draw g VINGenerator.PlantLetter).
Proof.
  intros _ _.
  pose proof (lcg_next_range (VINGenerator.state g)) as Hk.
  destruct (py_index_ok VINGenerator.plants
              (VINGenerator.lcg_next (VINGenerator.state g) * 5 / 4294967296))
    as (plant & Hp & Hnth & _).
  { change (VINGenerator.len VINGenerator.plants) with 5.
    apply scaled_draw_range; lia. }
  exists plant. split; [exact Hnth|].
  unfold VINGenerator.generate_pre_1981_vin, VINGenerator.bind, VINGenerator.lift.
  rewrite last_char_str_of_int, seeded_random_eq.
  change (VINGenerator.len VINGenerator.plants) with 5.
  rewrite scaled_draw by lia. rewrite Hp. reflexivity.
Qed.

Lemma pre_1981_vin_keeps_the_last_year_digit_witness :
  VINGenerator.lcg_next 12345 * 5 / 4294967296 = 0
  /\ VINGenerator.generate_pre_1981_vin "Ford" 1967 42 (VINGenerator.init 12345)
     = Ok ("7R01C100042",
           VINGenerator.after_draw (VINGenerator.init 12345) VINGenerator.PlantLetter).
Proof.
  destruct (pre_1981_vin_keeps_the_last_year_digit "Ford" 1967 42
              (VINGenerator.init 12345))
    as (plant & Hnth & H).
  - unfold PyStr.int_str_ok. apply Z.ltb_lt. vm_compute. reflexivity.
  - unfold PyStr.int_str_ok. apply Z.ltb_lt. vm_compute. reflexivity.
  - split; [vm_compute; reflexivity|].
    assert (Hp : plant = "R"%char) by (vm_compute in Hnth; congruence).
    rewrite H, Hp. reflexivity.
Defined.

(** X21. Two records generated for the same vehicle at different indices from
    0 to 899999 have different VINs, whatever the generator states and the
    days of the two calls. *)
Theorem vins_of_a_vehicle_differ_by_index
    (today1 today2 : Z) (v : VINGenerator.vehicle) (i j : Z)
    (g1 g2 : VINGenerator.generator)
    (r1 r2 : VINGenerator.instance) (g1' g2' : VINGenerator.generator) :
  0 <= i < 900000 -> 0 <= j < 900000 -> i <> j ->
  VINGenerator.generate_instance today1 v i g1 = Ok (r1, g1') ->
  VINGenerator.generate_instance today2 v j g2 = Ok (r2, g2') ->
  VINGenerator.vin r1 <> VINGenerator.vin r2.
Proof.
  intros Hi Hj Hij H1 H2 Heq.
  apply generate_instance_fields in H1 as ((vin1 & ga & Hv1 & Hr1) & _).
  apply generate_instance_fields in H2 as ((vin2 & gb & Hv2 & Hr2) & _).
  rewrite Hr1, Hr2 in Heq. clear Hr1 Hr2. subst vin2.
  unfold VINGenerator.generate_vin in Hv1, Hv2.
  apply Hij. apply serial_of_inj; [exact Hi | exact Hj |].
  destruct (VINGenerator.year v <=? 1980).
  - destruct (generate_pre_1981_vin_ok (VINGenerator.manufacturer v)
                (VINGenerator.year v) i g1) as (yc1 & p1 & _ & _ & E1).
    destruct (generate_pre_1981_vin_ok (VINGenerator.manufacturer v)
                (VINGenerator.year v) j g2) as (yc2 & p2 & _ & _ & E2).
    rewrite E1 in Hv1. rewrite E2 in Hv2.
    assert (Hs : String yc1 (String p1 ("01C" +:+ VINGenerator.serial_of i))
                 = String yc2 (String p2 ("01C" +:+ VINGenerator.serial_of j)))
      by congruence.
    assert (Hs' : "01C" +:+ VINGenerator.serial_of i = "01C" +:+ VINGenerator.serial_of j)
      by congruence.
    exact (append_cancel_l _ _ _ Hs').
  - destruct (generate_post_1981_vin_ok (VINGenerator.manufacturer v)
                (VINGenerator.year v) i g1) as (yc1 & Hn1 & E1).
    destruct (generate_post_1981_vin_ok (VINGenerator.manufacturer v)
                (VINGenerator.year v) j g2) as (yc2 & Hn2 & E2).
    rewrite E1 in Hv1. rewrite E2 in Hv2.
    assert (Hs : "1" +:+ PyStr.upper (PyStr.take 2 (VINGenerator.manufacturer v))
                   +:+ "BP40E9" +:+ String yc1 ("F" +:+ VINGenerator.serial_of i)
                 = "1" +:+ PyStr.upper (PyStr.take 2 (VINGenerator.manufacturer v))
                   +:+ "BP40E9" +:+ String yc2 ("F" +:+ VINGenerator.serial_of j))
      by congruence.
    do 3 apply append_cancel_l in Hs.
    assert (Hs' : "F" +:+ VINGenerator.serial_of i = "F" +:+ VINGenerator.serial_of j)
      by congruence.
    exact (append_cancel_l _ _ _ Hs').
Qed.

Lemma vins_of_a_vehicle_differ_by_index_witness :
  exists r1 g1' r2 g2',
    VINGenerator.generate_instance 739000 VINGenerator.mustang_1967 0
      (VINGenerator.init 12345) = Ok (r1, g1')
    /\ VINGenerator.generate_instance 739000 VINGenerator.mustang_1967 1
         (VINGenerator.init 12345) = Ok (r2, g2')
    /\ VINGenerator.vin r1 <> VINGenerator.vin r2.
Proof.
  do 4 eexists. split; [vm_compute; reflexivity|].
  split; [vm_compute; reflexivity|].
  eapply (vins_of_a_vehicle_differ_by_index 739000 739000 VINGenerator.mustang_1967 0 1
            (VINGenerator.init 12345) (VINGenerator.init 12345));
    [lia | lia | lia | vm_compute; reflexivity | vm_compute; reflexivity].
Defined.

(** X22. Every record that [generate_instance] returns is well formed: its
    five identifying fields are copied from the vehicle; the condition is one
    of the five rating and description pairs; the registered state is one of
    the eight codes; the colour belongs to the palette of the era; the
    options are distinct options of the catalog; the registration status is
    "Active" or "Historic", the title status "Clean" or "Rebuilt"; and the
    service date lies at most 179 days before the day of the call. *)
Theorem generate_instance_record_is_well_formed
    (today : Z) (v : VINGenerator.vehicle) (index : Z) (g : VINGenerator.generator)
    (r : VINGenerator.instance) (g' : VINGenerator.generator) :
  VINGenerator.generate_instance today v index g = Ok (r, g') ->
  Pipeline.made_for v r
  /\ In (VINGenerator.condition_rating r, VINGenerator.condition_description r)
       [(5, "Concours"); (4, "Excellent"); (3, "Good"); (2, "Fair"); (1, "Project")]
  /\ In (VINGenerator.registered_state r) ["CA"; "TX"; "FL"; "AZ"; "OH"; "MI"; "NY"; "PA"]
  /\ In (VINGenerator.exterior_color r)
       (if VINGenerator.year v <? 1970 then VINGenerator.pre_1970_colors
        else VINGenerator.post_1970_colors)
  /\ List.NoDup (VINGenerator.factory_options r)
  /\ incl (VINGenerator.factory_options r) VINGenerator.all_options
  /\ In (VINGenerator.registration_status r) ["Active"; "Historic"]
  /\ In (VINGenerator.title_status r) ["Clean"; "Rebuilt"]
  /\ today - 179 <= VINGenerator.last_service_date r <= today.
Proof.
  intros H. apply generate_instance_fields in H.
  unfold Pipeline.made_for. tauto.
Qed.

Lemma generate_instance_record_is_well_formed_witness :
  exists r g',
    VINGenerator.generate_instance 739000 VINGenerator.f150_2020 3 (VINGenerator.init 12345)
    = Ok (r, g')
    /\ Pipeline.made_for VINGenerator.f150_2020 r
    /\ List.NoDup (VINGenerator.factory_options r).
Proof.
  do 2 eexists. split; [vm_compute; reflexivity|].
  refine ((fun H => conj (proj1 H) (proj1 (proj2 (proj2 (proj2 (proj2 H))))))
            (generate_instance_record_is_well_formed 739000 VINGenerator.f150_2020 3
               (VINGenerator.init 12345) _ _ _)).
  vm_compute. reflexivity.
Defined.

(** X23. [generate_all_vins] returns whenever every model year lies within
    [2^1000] of 2025; its result is the blocks of the vehicles one after the
    other, in the order of the distribution, the block of a vehicle holding
    as many records as its [vin_count] (none when that is not positive), each
    one generated for that vehicle. *)
Theorem generate_all_vins_is_made_of_blocks
    (day_of_call : nat -> Z) (distribution : list Distribution.allocation) :
  Forall (fun item =>
            Z.abs (2025 - VINGenerator.year (Distribution.a_vehicle item)) < 2 ^ 1000)
    distribution ->
  exists blocks,
    Pipeline.generate_all_vins day_of_call distribution = Ok (concat blocks)
    /\ Forall2 (fun item block =>
                  length block = Z.to_nat (Distribution.vin_count item)
                  /\ Forall (Pipeline.made_for (Distribution.a_vehicle item)) block)
         distribution blocks.
Proof.
  intros Hall. unfold Pipeline.generate_all_vins.
  destruct (generate_all_vins_loop_spec day_of_call distribution [] Hall)
    as (blocks & H & Hb).
  exists blocks. split; [exact H | exact Hb].
Qed.

Lemma generate_all_vins_is_made_of_blocks_witness :
  exists blocks,
    Pipeline.generate_all_vins (fun _ => 739000)
      [{| Distribution.a_vehicle := VINGenerator.mustang_1967; Distribution.vin_count := 2 |};
       {| Distribution.a_vehicle := VINGenerator.escort_1981; Distribution.vin_count := 0 |}]
    = Ok (concat blocks)
    /\ length blocks = 2%nat.
Proof.
  destruct (generate_all_vins_is_made_of_blocks (fun _ => 739000)
              [{| Distribution.a_vehicle := VINGenerator.mustang_1967;
                  Distribution.vin_count := 2 |};
               {| Distribution.a_vehicle := VINGenerator.escort_1981;
                  Distribution.vin_count := 0 |}])
    as (blocks & H & Hb).
  { repeat constructor; cbn [Distribution.a_vehicle VINGenerator.year
                               VINGenerator.mustang_1967 VINGenerator.escort_1981];
      apply (Z.lt_le_trans _ (2 ^ 11)); try reflexivity; apply Z.pow_le_mono_r; lia. }
  exists blocks. split; [exact H|].
  apply Forall2_length in Hb. now rewrite <- Hb.
Defined.

(** X24. No generator state passes from one vehicle to the next: the records
    of a distribution made of two parts are the records of the first part
    followed by the records of the second part generated on its own, the
    days of its calls being those that follow the first part's. *)
Theorem generate_all_vins_of_two_parts
    (day_of_call : nat -> Z) (d1 d2 : list Distribution.allocation) :
  Pipeline.generate_all_vins day_of_call (d1 ++ d2)
  = match Pipeline.generate_all_vins day_of_call d1 with
    | Ok vins1 =>
        match Pipeline.generate_all_vins
                (fun n => day_of_call (length vins1 + n)%nat) d2 with
        | Ok vins2 => Ok (vins1 ++ vins2)%list
        | Raise e => Raise e
        end
    | Raise e => Raise e
    end.
Proof.
  unfold Pipeline.generate_all_vins. rewrite generate_all_vins_loop_app.
  destruct (Pipeline.generate_all_vins_loop day_of_call d1 []) as [vins1|e];
    [|reflexivity].
  rewrite <- (app_nil_r vins1) at 1. apply generate_all_vins_loop_shift.
Qed.

(** X25. The two steps together: for a non-empty list of vehicles with
    positive instance counts and model years within [2^1000] of 2025, and a
    positive target (counts and target below [2^1000]), the distribution is
    computed, every record is generated, and the number of records is the sum
    of the allocations, which is at least the target. *)
Theorem pipeline_generates_at_least_the_target
    (day_of_call : nat -> Z) (vehicles : list VINGenerator.vehicle) (target : Z) :
  vehicles <> [] ->
  Forall (fun v => 0 < VINGenerator.instance_count v
                   /\ Z.abs (2025 - VINGenerator.year v) < 2 ^ 1000) vehicles ->
  Distribution.total_instances_of vehicles < 2 ^ 1000 ->
  0 < target < 2 ^ 1000 ->
  exists distribution all_vins,
    Distribution.distribute_vins_across_vehicles vehicles target = Ok distribution
    /\ Pipeline.generate_all_vins day_of_call distribution = Ok all_vins
    /\ Z.of_nat (length all_vins) = Distribution.total_vins distribution
    /\ target <= Z.of_nat (length all_vins).
Proof.
  intros Hne Hall Htotal Htarget.
  destruct (distribute_ok vehicles target Hne) as [d Hd]; [| exact Htotal | exact Htarget |].
  { eapply List.Forall_impl; [|exact Hall]. cbn. tauto. }
  destruct (distribute_spec _ _ _ Hd) as (Hmin & Hsum & Hperm & _).
  assert (Hyears : Forall (fun item =>
                     Z.abs (2025 - VINGenerator.year (Distribution.a_vehicle item))
                     < 2 ^ 1000) d).
  { apply List.Forall_forall. intros item Hin.
    apply (in_map Distribution.a_vehicle) in Hin.
    apply (Permutation_in _ Hperm) in Hin.
    rewrite List.Forall_forall in Hall. now apply Hall. }
  destruct (generate_all_vins_loop_spec day_of_call d [] Hyears) as (blocks & H & Hb).
  exists d, (concat blocks). split; [exact Hd|]. split; [exact H|].
  rewrite (length_concat_blocks _ _ Hb Hmin). split; [reflexivity | exact Hsum].
Qed.

Lemma pipeline_generates_at_least_the_target_witness :
  exists distribution all_vins,
    Distribution.distribute_vins_across_vehicles
      [VINGenerator.mustang_1967; VINGenerator.escort_1981] 12 = Ok distribution
    /\ Pipeline.generate_all_vins (fun _ => 739000) distribution = Ok all_vins
    /\ Z.of_nat (length all_vins) = Distribution.total_vins distribution
    /\ 12 <= Z.of_nat (length all_vins).
Proof.
  apply (pipeline_generates_at_least_the_target (fun _ => 739000)
           [VINGenerator.mustang_1967; VINGenerator.escort_1981] 12).
  - discriminate.
  - repeat constructor; cbn [VINGenerator.instance_count VINGenerator.year
                               VINGenerator.mustang_1967 VINGenerator.escort_1981];
      try lia;
      apply (Z.lt_le_trans _ (2 ^ 11)); try reflexivity; apply Z.pow_le_mono_r; lia.
  - apply (Z.lt_le_trans _ (2 ^ 11)); [reflexivity | apply Z.pow_le_mono_r; lia].
  - split; [lia|].
    apply (Z.lt_le_trans _ (2 ^ 11)); [reflexivity | apply Z.pow_le_mono_r; lia].
Defined.

(** X26. The order of the result of [distribute_vins_across_vehicles]: when
    the proportional allocations already sum to the target they are returned
    as they are, in the order of the vehicle list; otherwise the result is
    in the order of the sort, by decreasing instance count, which need not
    be the order of the input. *)
Theorem distribute_sorts_when_it_adjusts
    (vehicles : list VINGenerator.vehicle) (target : Z)
    (d0 d : list Distribution.allocation) :
  Distribution.proportional vehicles target (Distribution.total_instances_of vehicles)
  = Ok d0 ->
  Distribution.distribute_vins_across_vehicles vehicles target = Ok d ->
  map Distribution.a_vehicle d0 = vehicles
  /\ (Distribution.total_vins d0 = target -> d = d0)
  /\ (Distribution.total_vins d0 <> target ->
      map Distribution.a_vehicle d
      = map Distribution.a_vehicle (Distribution.sort_desc d0)
      /\ StronglySorted
           (fun v w => VINGenerator.instance_count w <= VINGenerator.instance_count v)
           (map Distribution.a_vehicle d)).
Proof.
  intros Hprop H.
  destruct (proportional_spec _ _ _ _ Hprop) as [_ Hv].
  split; [exact Hv|].
  unfold Distribution.distribute_vins_across_vehicles in H. rewrite Hprop in H.
  cbn [rbind] in H.
  destruct (Z.eqb_spec (Distribution.total_vins d0) target) as [Heq|Hne].
  - split; [intros _; congruence | intros Hc; contradiction].
  - split; [intros Hc; contradiction | intros _].
    assert (Hmap : map Distribution.a_vehicle d
                   = map Distribution.a_vehicle (Distribution.sort_desc d0)).
    { destruct (0 <? target - Distribution.total_vins d0).
      - now destruct (for_range_add _ 0 _ _ ltac:(lia) H) as (_ & _ & Hm).
      - now destruct (for_range_remove _ 0 _ _ ltac:(lia) H) as (_ & _ & Hm). }
    split; [exact Hmap|].
    apply (sorted_by_vehicle (Distribution.sort_desc d0)); [exact Hmap|].
    apply sort_desc_sorted.
Qed.

Lemma distribute_sorts_when_it_adjusts_witness :
  exists d0 d,
    Distribution.proportional
      [Distribution.vehicle_of_count 10; Distribution.vehicle_of_count 20;
       Distribution.vehicle_of_count 30] 100 60 = Ok d0
    /\ Distribution.distribute_vins_across_vehicles
         [Distribution.vehicle_of_count 10; Distribution.vehicle_of_count 20;
          Distribution.vehicle_of_count 30] 100 = Ok d
    /\ map Distribution.a_vehicle d
       = [Distribution.vehicle_of_count 30; Distribution.vehicle_of_count 20;
          Distribution.vehicle_of_count 10].
Proof.
  set (vehicles := [Distribution.vehicle_of_count 10; Distribution.vehicle_of_count 20;
                    Distribution.vehicle_of_count 30]).
  let p := eval vm_compute in (Distribution.proportional vehicles 100 60) in
  let q := eval vm_compute in (Distribution.distribute_vins_across_vehicles vehicles 100) in
  lazymatch p with
  | Ok ?D0 =>
      lazymatch q with
      | Ok ?D =>
          exists D0, D; split; [vm_compute; reflexivity|];
          split; [vm_compute; reflexivity|];
          destruct (distribute_sorts_when_it_adjusts vehicles 100 D0 D)
            as (_ & _ & Hs); [vm_compute; reflexivity | vm_compute; reflexivity |];
          destruct Hs as [Hm _];
          [intros Hc; vm_compute in Hc; discriminate Hc|];
          rewrite Hm; vm_compute; reflexivity
      end
  end.
Defined.


(* ===================================================================== *)
(** * Exact binary64 arithmetic on the draws *)
(* ===================================================================== *)

Section ExactFloatFacts.
Import PyFloat.

Ltac fexp_arith := unfold SpecFloat.fexp, SpecFloat.emin, prec, emax in *; lia.

Lemma to_pos_inj_Zpos (p : positive) (z : Z) : Zpos p = z -> p = Z.to_pos z.
Proof. intros <-. reflexivity. Qed.

(** Rounding a number of at most 53 significant bits, followed by zeros, is
    exact. *)
Lemma binary_round_shift s a j e :
  0 < a -> a < 2 ^ 53 -> 0 <= j -> -1021 <= Zdigits2 a + j + e <= 1024 ->
  binary_round prec emax s (Z.to_pos (a * 2 ^ j)) e
  = S754_finite s (Z.to_pos (a * 2 ^ (53 - Zdigits2 a))) (e + j - (53 - Zdigits2 a)).
Proof.
  intros Ha Hlt Hj Hrange.
  pose proof (Zdigits2_le a 53 ltac:(lia) ltac:(lia) Hlt) as Hd.
  pose proof (Zdigits2_pos a Ha) as Hd0.
  assert (Hpj : 0 < 2 ^ j) by (apply Z.pow_pos_nonneg; lia).
  assert (HM : 0 < a * 2 ^ j) by nia.
  assert (Hp : Zpos (Z.to_pos (a * 2 ^ j)) = a * 2 ^ j) by (apply Z2Pos.id; exact HM).
  pose proof (dyadic_mantissa a Ha Hlt) as [HP HdP].
  set (p := Z.to_pos (a * 2 ^ j)) in *.
  set (P := Z.to_pos (a * 2 ^ (53 - Zdigits2 a))) in *.
  assert (Hdp : Zdigits2 (Zpos p) = Zdigits2 a + j).
  { rewrite Hp. apply Zdigits2_mul_pow2; lia. }
  unfold binary_round.
  change (Zpos (digits2_pos p)) with (Zdigits2 (Zpos p)). rewrite Hdp.
  assert (Hf : fexp (Zdigits2 a + j + e) = Zdigits2 a + j + e - 53) by fexp_arith.
  rewrite Hf.
  destruct (Z_le_gt_dec (Zdigits2 a + j) 53) as [Hsmall|Hbig].
  - pose proof (shl_align_spec p e (Zdigits2 a + j + e - 53) ltac:(lia)) as [Hm He].
    destruct (shl_align p e (Zdigits2 a + j + e - 53)) as [mz ez].
    cbn [fst snd] in Hm, He. subst ez.
    assert (HmP : mz = P).
    { apply Pos2Z.inj. rewrite Hm, Hp, HP.
      rewrite <- Z.mul_assoc, <- Z.pow_add_r by lia. do 2 f_equal. lia. }
    subst mz.
    replace (Zpos P) with (Zpos P * 2 ^ 0) by (rewrite Z.mul_1_r; reflexivity).
    replace (e + j - (53 - Zdigits2 a)) with (Zdigits2 a + j + e - 53 + 0) by lia.
    apply round_exact; [lia | | lia].
    rewrite HP, HdP. fexp_arith.
  - rewrite shl_align_id by lia.
    replace (Zpos p) with (Zpos P * 2 ^ (j - (53 - Zdigits2 a))).
    2:{ rewrite Hp, HP, <- Z.mul_assoc, <- Z.pow_add_r by lia. do 2 f_equal. lia. }
    replace (e + j - (53 - Zdigits2 a)) with (e + (j - (53 - Zdigits2 a))) by lia.
    apply round_exact; [lia | | lia].
    rewrite HP, HdP. fexp_arith.
Qed.

Lemma normalize_pos m e :
  0 < m -> binary_normalize prec emax m e false = binary_round prec emax false (Z.to_pos m) e.
Proof. intros H. destruct m; try lia. reflexivity. Qed.

Lemma normalize_neg m e :
  m < 0 -> binary_normalize prec emax m e false = binary_round prec emax true (Z.to_pos (- m)) e.
Proof. intros H. destruct m; try lia. reflexivity. Qed.

(** The representation of a non-zero number of at most 53 bits. *)
Lemma dyadic_signed n e :
  n <> 0 -> Z.abs n < 2 ^ 53 -> -1021 <= Zdigits2 (Z.abs n) + e <= 1024 ->
  dyadic n e
  = S754_finite (n <? 0)
      (Z.to_pos (Z.abs n * 2 ^ (53 - Zdigits2 (Z.abs n))))
      (e - (53 - Zdigits2 (Z.abs n))).
Proof.
  intros Hn Hlt Hrange. unfold dyadic.
  destruct (Z.ltb_spec n 0) as [Hneg|Hpos].
  - rewrite normalize_neg by lia.
    replace (- n) with (Z.abs n * 2 ^ 0) by lia.
    rewrite binary_round_shift by lia. repeat (f_equal; try lia).
  - rewrite normalize_pos by lia.
    replace n with (Z.abs n * 2 ^ 0) at 1 by lia.
    rewrite binary_round_shift by lia. repeat (f_equal; try lia).
Qed.

Lemma dyadic_shift n j e :
  Z.abs n < 2 ^ 53 -> 0 <= j -> -1021 <= Zdigits2 (Z.abs n) + j + e <= 1024 ->
  dyadic (n * 2 ^ j) e = dyadic n (e + j).
Proof.
  intros Hlt Hj Hrange.
  assert (Hpj : 0 < 2 ^ j) by (apply Z.pow_pos_nonneg; lia).
  destruct (Z.eq_dec n 0) as [->|Hn]; [reflexivity|].
  rewrite (dyadic_signed n (e + j)) by lia.
  unfold dyadic. destruct (Z.ltb_spec n 0) as [Hneg|Hpos].
  - rewrite normalize_neg by nia.
    replace (- (n * 2 ^ j)) with (Z.abs n * 2 ^ j) by lia.
    rewrite binary_round_shift by lia. repeat (f_equal; try lia).
  - rewrite normalize_pos by nia.
    replace (n * 2 ^ j) with (Z.abs n * 2 ^ j) by lia.
    rewrite binary_round_shift by lia. repeat (f_equal; try lia).
Qed.

Lemma signed_mantissa n :
  n <> 0 -> Z.abs n < 2 ^ 53 ->
  cond_Zopp (n <? 0) (Zpos (Z.to_pos (Z.abs n * 2 ^ (53 - Zdigits2 (Z.abs n)))))
  = n * 2 ^ (53 - Zdigits2 (Z.abs n)).
Proof.
  intros Hn Hlt.
  pose proof (dyadic_mantissa (Z.abs n) ltac:(lia) Hlt) as [HP _]. rewrite HP.
  unfold cond_Zopp. destruct (Z.ltb_spec n 0); lia.
Qed.

(** Sums and differences of finite numbers, before rounding. *)
Lemma fsub_finite sx mx ex sy my ey :
  fsub (S754_finite sx mx ex) (S754_finite sy my ey)
  = binary_normalize prec emax
      (cond_Zopp sx (Zpos mx) * 2 ^ (ex - Z.min ex ey)
       - cond_Zopp sy (Zpos my) * 2 ^ (ey - Z.min ex ey))
      (Z.min ex ey) false.
Proof.
  unfold fsub, SFsub. cbv zeta.
  change (IntDef.Z.min ex ey) with (Z.min ex ey).
  destruct (shl_align_spec mx ex (Z.min ex ey) ltac:(lia)) as [-> _].
  destruct (shl_align_spec my ey (Z.min ex ey) ltac:(lia)) as [-> _].
  f_equal. destruct sx, sy; cbn [cond_Zopp]; lia.
Qed.

Lemma fadd_finite sx mx ex sy my ey :
  fadd (S754_finite sx mx ex) (S754_finite sy my ey)
  = binary_normalize prec emax
      (cond_Zopp sx (Zpos mx) * 2 ^ (ex - Z.min ex ey)
       + cond_Zopp sy (Zpos my) * 2 ^ (ey - Z.min ex ey))
      (Z.min ex ey) false.
Proof.
  unfold fadd, SFadd. cbv zeta.
  change (IntDef.Z.min ex ey) with (Z.min ex ey).
  destruct (shl_align_spec mx ex (Z.min ex ey) ltac:(lia)) as [-> _].
  destruct (shl_align_spec my ey (Z.min ex ey) ltac:(lia)) as [-> _].
  f_equal. destruct sx, sy; cbn [cond_Zopp]; lia.
Qed.

Lemma pow2_split a b : 0 <= a -> 0 <= b -> 2 ^ a * 2 ^ b = 2 ^ (a + b).
Proof. intros. now rewrite Z.pow_add_r. Qed.

(** A multiple of [2^-32] minus an integer, both small, is exact. *)
Lemma fsub_draw_int n w :
  Z.abs n < 2 ^ 45 -> 0 < w < 4096 ->
  fsub (dyadic n (-32)) (dyadic w 0) = dyadic (n - w * 4294967296) (-32).
Proof.
  intros Hn Hw.
  assert (H45 : 2 ^ 45 = 35184372088832) by reflexivity.
  assert (H53 : 2 ^ 53 = 9007199254740992) by reflexivity.
  assert (Hdw : 0 < Zdigits2 w <= 12).
  { split; [apply Zdigits2_pos; lia|].
    apply Zdigits2_le; [lia | lia | change (2 ^ 12) with 4096; lia]. }
  assert (Hwabs : Z.abs w = w) by lia.
  pose proof (dyadic_signed w 0 ltac:(lia) ltac:(lia)) as Hyw.
  rewrite Hwabs in Hyw. specialize (Hyw ltac:(lia)).
  assert (Hws : (w <? 0) = false) by (apply Z.ltb_ge; lia).
  rewrite Hws in Hyw.
  pose proof (dyadic_mantissa w ltac:(lia) ltac:(lia)) as [HPw _].
  destruct (Z.eq_dec n 0) as [->|Hn0].
  - rewrite dyadic_zero, Hyw. cbn [fsub SFsub negb].
    replace (0 - w * 4294967296) with (- (w * 2 ^ 32)) by (change (2 ^ 32) with 4294967296; lia).
    assert (Hd : Zdigits2 (w * 2 ^ 32) = Zdigits2 w + 32)
      by (apply Zdigits2_mul_pow2; lia).
    assert (Hlt : w * 2 ^ 32 < 2 ^ 53)
      by (change (2 ^ 32) with 4294967296; lia).
    assert (Hp32 : 0 < w * 2 ^ 32) by (change (2 ^ 32) with 4294967296; lia).
    rewrite dyadic_signed;
      rewrite ?Z.abs_opp, ?(Z.abs_eq (w * 2 ^ 32)) by lia; rewrite ?Hd; try lia.
    assert (Hs : (- (w * 2 ^ 32) <? 0) = true) by (apply Z.ltb_lt; lia).
    rewrite Hs. f_equal; [|lia]. f_equal.
    rewrite <- Z.mul_assoc, pow2_split by lia. do 2 f_equal. lia.
  - assert (Hdn : 0 < Zdigits2 (Z.abs n) <= 45).
    { split; [apply Zdigits2_pos; lia|]. apply Zdigits2_le; lia. }
    rewrite (dyadic_signed n (-32)) by lia. rewrite Hyw, fsub_finite.
    rewrite signed_mantissa by lia. cbn [cond_Zopp]. rewrite HPw.
    set (dn := Zdigits2 (Z.abs n)) in *. set (dw := Zdigits2 w) in *.
    set (ez := Z.min (-32 - (53 - dn)) (0 - (53 - dw))).
    assert (Hez : ez <= -40) by (subst ez; lia).
    assert (Hez' : -85 <= ez) by (subst ez; lia).
    replace (n * 2 ^ (53 - dn) * 2 ^ (-32 - (53 - dn) - ez)
             - w * 2 ^ (53 - dw) * 2 ^ (0 - (53 - dw) - ez))
      with ((n - w * 4294967296) * 2 ^ (-32 - ez)).
    2:{ rewrite <- !Z.mul_assoc, !pow2_split by lia.
        replace (53 - dn + (-32 - (53 - dn) - ez)) with (-32 - ez) by lia.
        replace (53 - dw + (0 - (53 - dw) - ez)) with (32 + (-32 - ez)) by lia.
        rewrite <- (pow2_split 32 (-32 - ez)) by lia.
        change (2 ^ 32) with 4294967296. ring. }
    change (binary_normalize prec emax ((n - w * 4294967296) * 2 ^ (-32 - ez)) ez false)
      with (dyadic ((n - w * 4294967296) * 2 ^ (-32 - ez)) ez).
    assert (HN : Z.abs (n - w * 4294967296) < 2 ^ 46)
      by (change (2 ^ 46) with 70368744177664; lia).
    assert (HdN : 0 <= Zdigits2 (Z.abs (n - w * 4294967296)) <= 46).
    { split; [apply Zdigits2_nonneg|]. apply Zdigits2_le; lia. }
    rewrite dyadic_shift; [f_equal; lia | | lia | lia].
    change (2 ^ 46) with 70368744177664 in HN. lia.
Qed.

(** An integer plus a multiple of [2^-32], both small and not negative, is
    exact. *)
Lemma fadd_int_draw w n :
  0 < w < 65536 -> 0 <= n < 2 ^ 48 ->
  fadd (dyadic w 0) (dyadic n (-32)) = dyadic (w * 4294967296 + n) (-32).
Proof.
  intros Hw Hn.
  assert (H48 : 2 ^ 48 = 281474976710656) by reflexivity.
  assert (H53 : 2 ^ 53 = 9007199254740992) by reflexivity.
  assert (Hdw : 0 < Zdigits2 w <= 16).
  { split; [apply Zdigits2_pos; lia|].
    apply Zdigits2_le; [lia | lia | change (2 ^ 16) with 65536; lia]. }
  pose proof (dyadic_exact w 0 ltac:(lia) ltac:(lia) ltac:(lia)) as Hyw.
  pose proof (dyadic_mantissa w ltac:(lia) ltac:(lia)) as [HPw _].
  assert (Hsum : w * 4294967296 + n < 2 ^ 49)
    by (change (2 ^ 49) with 562949953421312; lia).
  assert (HdS : 0 < Zdigits2 (w * 4294967296 + n) <= 49).
  { split; [apply Zdigits2_pos; lia|]. apply Zdigits2_le; lia. }
  destruct (Z.eq_dec n 0) as [->|Hn0].
  - rewrite dyadic_zero, Hyw. cbn [fadd SFadd]. rewrite Z.add_0_r.
    replace (w * 4294967296) with (w * 2 ^ 32) by (change (2 ^ 32) with 4294967296; lia).
    assert (Hd : Zdigits2 (w * 2 ^ 32) = Zdigits2 w + 32)
      by (apply Zdigits2_mul_pow2; lia).
    rewrite (dyadic_exact (w * 2 ^ 32)); rewrite ?Hd;
      try (change (2 ^ 32) with 4294967296; lia).
    f_equal; [|lia]. f_equal.
    rewrite <- Z.mul_assoc, pow2_split by lia. do 2 f_equal. lia.
  - assert (Hdn : 0 < Zdigits2 n <= 48).
    { split; [apply Zdigits2_pos; lia|]. apply Zdigits2_le; lia. }
    rewrite (dyadic_exact n (-32)) by lia. rewrite Hyw, fadd_finite.
    pose proof (dyadic_mantissa n ltac:(lia) ltac:(lia)) as [HPn _].
    cbn [cond_Zopp]. rewrite HPw, HPn.
    set (dn := Zdigits2 n) in *. set (dw := Zdigits2 w) in *.
    set (ez := Z.min (0 - (53 - dw)) (-32 - (53 - dn))).
    assert (Hez : ez <= -37) by (subst ez; lia).
    assert (Hez' : -85 <= ez) by (subst ez; lia).
    replace (w * 2 ^ (53 - dw) * 2 ^ (0 - (53 - dw) - ez)
             + n * 2 ^ (53 - dn) * 2 ^ (-32 - (53 - dn) - ez))
      with ((w * 4294967296 + n) * 2 ^ (-32 - ez)).
    2:{ rewrite <- !Z.mul_assoc, !pow2_split by lia.
        replace (53 - dn + (-32 - (53 - dn) - ez)) with (-32 - ez) by lia.
        replace (53 - dw + (0 - (53 - dw) - ez)) with (32 + (-32 - ez)) by lia.
        rewrite <- (pow2_split 32 (-32 - ez)) by lia.
        change (2 ^ 32) with 4294967296. ring. }
    change (binary_normalize prec emax ((w * 4294967296 + n) * 2 ^ (-32 - ez)) ez false)
      with (dyadic ((w * 4294967296 + n) * 2 ^ (-32 - ez)) ez).
    rewrite dyadic_shift; [f_equal; lia | | lia |].
    + change (2 ^ 49) with 562949953421312 in Hsum. lia.
    + rewrite Z.abs_eq by lia. lia.
Qed.

(** Comparisons. *)
Lemma fle_dyadic_zero n e :
  Z.abs n < 2 ^ 53 -> -1021 <= Zdigits2 (Z.abs n) + e <= 1024 ->
  fle (dyadic n e) (of_Z 0) = (n <=? 0).
Proof.
  intros Hlt Hrange. change (of_Z 0) with (S754_zero false).
  destruct (Z.eq_dec n 0) as [->|Hn]; [reflexivity|].
  rewrite dyadic_signed by lia. unfold fle, SFleb, SFcompare.
  destruct (Z.ltb_spec n 0); destruct (Z.leb_spec n 0); try reflexivity; lia.
Qed.

Lemma flt_draw_finite k mc ec :
  0 <= k < 4294967296 -> Zdigits2 (Zpos mc) = 53 -> -85 <= ec <= -32 ->
  flt (dyadic k (-32)) (S754_finite false mc ec) = (k * 2 ^ (-32 - ec) <? Zpos mc)
  /\ fgt (dyadic k (-32)) (S754_finite false mc ec) = (Zpos mc <? k * 2 ^ (-32 - ec)).
Proof.
  intros Hk Hmc Hec.
  pose proof (Zdigits2_bounds (Zpos mc) ltac:(lia)) as Hb. rewrite Hmc in Hb.
  change (2 ^ (53 - 1)) with 4503599627370496 in Hb.
  change (2 ^ 53) with 9007199254740992 in Hb.
  destruct (Z.eq_dec k 0) as [->|Hk0].
  { rewrite dyadic_zero, Z.mul_0_l. split; reflexivity. }
  assert (Hk53 : k < 2 ^ 53) by (change (2 ^ 53) with 9007199254740992; lia).
  assert (Hdk : 0 < Zdigits2 k <= 32).
  { split; [apply Zdigits2_pos; lia|].
    apply Zdigits2_le; [lia | lia | change (2 ^ 32) with 4294967296; lia]. }
  pose proof (Zdigits2_bounds k ltac:(lia)) as Hkb.
  rewrite dyadic_exact by lia.
  pose proof (dyadic_mantissa k ltac:(lia) Hk53) as [HP _].
  set (dk := Zdigits2 k) in *.
  set (P := Z.to_pos (k * 2 ^ (53 - dk))) in *.
  unfold flt, fgt, SFltb, SFcompare.
  change (PosDef.Pos.compare_cont Eq P mc) with (Pos.compare P mc).
  change (PosDef.Pos.compare_cont Eq mc P) with (Pos.compare mc P).
  destruct (Z.compare_spec (-32 - (53 - dk)) ec) as [Heq|Hlt|Hgt].
  - rewrite Heq, Z.compare_refl.
    assert (Hexp : -32 - ec = 53 - dk) by lia. rewrite Hexp, <- HP.
    rewrite (Pos.compare_antisym P mc).
    rewrite !Pos2Z.inj_compare.
    destruct (Z.compare_spec (Zpos P) (Zpos mc)) as [E|L|G]; cbn [CompOpp]; split;
      symmetry; first [apply Z.ltb_lt; lia | apply Z.ltb_ge; lia].
  - assert (Hcmp : (ec ?= -32 - (53 - dk)) = Gt) by (apply Z.compare_gt_iff; lia).
    rewrite Hcmp.
    assert (Hval : k * 2 ^ (-32 - ec) < Zpos mc).
    { apply (Z.lt_le_trans _ (2 ^ dk * 2 ^ (-32 - ec))).
      - apply Z.mul_lt_mono_pos_r; [apply Z.pow_pos_nonneg; lia | lia].
      - rewrite pow2_split by lia.
        apply (Z.le_trans _ (2 ^ 52)); [apply Z.pow_le_mono_r; lia|].
        change (2 ^ 52) with 4503599627370496. lia. }
    split; symmetry; [apply Z.ltb_lt; lia | apply Z.ltb_ge; lia].
  - assert (Hcmp : (ec ?= -32 - (53 - dk)) = Lt) by (apply Z.compare_lt_iff; lia).
    rewrite Hcmp.
    assert (Hval : Zpos mc < k * 2 ^ (-32 - ec)).
    { apply (Z.lt_le_trans _ (2 ^ (dk - 1) * 2 ^ (-32 - ec))).
      - rewrite pow2_split by lia.
        apply (Z.lt_le_trans _ (2 ^ 53)); [change (2 ^ 53) with 9007199254740992; lia|].
        apply Z.pow_le_mono_r; lia.
      - apply Z.mul_le_mono_nonneg_r; [apply Z.pow_nonneg; lia | lia]. }
    split; symmetry; [apply Z.ltb_ge; lia | apply Z.ltb_lt; lia].
Qed.

End ExactFloatFacts.

Section DrawFacts.
Import PyStr PyFloat VINGenerator.

(** The comparison of a draw with a decimal literal decides as the
    comparison of the exact fractions does. *)
Ltac literal_threshold :=
  match goal with
  | Hk : 0 <= ?k < 4294967296 |- context [decimal ?n ?d] =>
      let c := eval vm_compute in (decimal n d) in
      lazymatch c with
      | S754_finite false ?mc ?ec =>
          let Hc := fresh "Hc" in
          assert (Hc : decimal n d = S754_finite false mc ec) by (vm_compute; reflexivity);
          rewrite Hc; clear Hc;
          let Hl := fresh "Hl" in
          let Hg := fresh "Hg" in
          destruct (flt_draw_finite k mc ec Hk eq_refl ltac:(lia)) as [Hl Hg];
          rewrite ?Hl, ?Hg; clear Hl Hg;
          match goal with
          | |- context [2 ^ ?j] =>
              let v := eval vm_compute in (2 ^ j) in change (2 ^ j) with v
          end;
          match goal with
          | |- (?a <? ?b) = (?a' <? ?b') =>
              destruct (Z.ltb_spec a b); destruct (Z.ltb_spec a' b');
              try reflexivity; lia
          end
      end
  end.

Lemma flt_draw_5 k :
  0 <= k < 4294967296 ->
  flt (dyadic k (-32)) (decimal 5 100) = (100 * k <? 5 * 4294967296).
Proof. intros Hk. literal_threshold. Qed.

Lemma flt_draw_20 k :
  0 <= k < 4294967296 ->
  flt (dyadic k (-32)) (decimal 20 100) = (100 * k <? 20 * 4294967296).
Proof. intros Hk. literal_threshold. Qed.

Lemma flt_draw_55 k :
  0 <= k < 4294967296 ->
  flt (dyadic k (-32)) (decimal 55 100) = (100 * k <? 55 * 4294967296).
Proof. intros Hk. literal_threshold. Qed.

Lemma flt_draw_85 k :
  0 <= k < 4294967296 ->
  flt (dyadic k (-32)) (decimal 85 100) = (100 * k <? 85 * 4294967296).
Proof. intros Hk. literal_threshold. Qed.

(** ** The loop of [generate_state] in integers *)

Lemma generate_state_loop_exact l : forall n,
  Forall (fun entry => 0 < snd entry) l ->
  fold_right Z.add 0 (map snd l) < 2048 ->
  - (2048 - fold_right Z.add 0 (map snd l)) * 4294967296 <= n < 2 ^ 43 ->
  match generate_state_loop l (dyadic n (-32)) with
  | Some code =>
      exists before weight after,
        l = (before ++ (code, weight) :: after)%list
        /\ n <= (fold_right Z.add 0 (map snd before) + weight) * 4294967296
        /\ (before <> [] -> fold_right Z.add 0 (map snd before) * 4294967296 < n)
  | None => l = [] \/ fold_right Z.add 0 (map snd l) * 4294967296 < n
  end.
Proof.
  assert (H43 : 2 ^ 43 = 8796093022208) by reflexivity.
  assert (H45 : 2 ^ 45 = 35184372088832) by reflexivity.
  assert (H53 : 2 ^ 53 = 9007199254740992) by reflexivity.
  induction l as [|[code w] l IH]; intros n Hpos Hsum Hn; [now left|].
  inversion Hpos as [|? ? Hw Hpos']; subst. cbn [snd] in Hw.
  cbn [map fold_right snd] in Hsum, Hn.
  assert (Hrest : 0 <= fold_right Z.add 0 (map snd l)).
  { clear -Hpos'. induction Hpos' as [|[c x] l Hx _ IHl]; cbn [map fold_right snd] in *; lia. }
  cbn [generate_state_loop]. change (of_Z w) with (dyadic w 0).
  rewrite fsub_draw_int by lia.
  rewrite fle_dyadic_zero.
  2:{ lia. }
  2:{ assert (Hd : 0 <= Zdigits2 (Z.abs (n - w * 4294967296)) <= 45).
      { split; [apply Zdigits2_nonneg|]. apply Zdigits2_le; lia. }
      lia. }
  destruct (Z.leb_spec (n - w * 4294967296) 0) as [Hle|Hgt].
  - exists [], w, l. split; [reflexivity|]. split; [cbn; lia | congruence].
  - specialize (IH (n - w * 4294967296) Hpos' ltac:(lia) ltac:(lia)).
    destruct (generate_state_loop l (dyadic (n - w * 4294967296) (-32))) as [code'|] eqn:Hl;
      rewrite ?Hl in IH; cbv beta iota in IH.
    + destruct IH as (before & w' & after & -> & Hle' & Hbefore).
      exists ((code, w) :: before), w', after.
      split; [reflexivity|]. cbn [map fold_right snd]. split; [lia|].
      intros _. destruct before as [|b before]; [cbn; lia|].
      specialize (Hbefore ltac:(discriminate)). lia.
    + right. cbn [map fold_right snd]. destruct IH as [->|IH]; [cbn; lia | lia].
Qed.

(** ** Signs *)

Lemma binary_round_aux_sign s m e l :
  match binary_round_aux prec emax s m e l with
  | S754_finite s' _ _ => s' = s
  | _ => True
  end.
Proof.
  unfold binary_round_aux.
  destruct (shr_fexp prec emax m e l) as [mrs e'].
  destruct (shr_fexp prec emax _ e' loc_Exact) as [mrs' e''].
  destruct (shr_m mrs'); [exact I | | exact I].
  destruct (_ <=? _); [reflexivity | exact I].
Qed.

Lemma finite_sign_has_sign s x n :
  match x with S754_finite s' _ _ => s' = s | _ => True end ->
  nice n x -> has_sign s x.
Proof. destruct x; cbn; tauto. Qed.

Lemma of_Z_sign z :
  match of_Z z with
  | S754_finite s' _ _ => s' = (z <? 0)
  | _ => True
  end.
Proof.
  unfold of_Z, dyadic. destruct z as [|p|p]; cbn [binary_normalize]; [exact I | |];
    unfold binary_round; destruct (shl_align _ _ _) as [mz ez];
    apply binary_round_aux_sign.
Qed.

Lemma fmul_has_sign sx sy x y a b n :
  nice a x -> nice b y -> nice n (fmul x y) ->
  has_sign sx x -> has_sign sy y -> has_sign (xorb sx sy) (fmul x y).
Proof.
  intros Hx Hy Hxy Hsx Hsy.
  destruct x as [s1| | |s1 m1 e1]; try contradiction;
    destruct y as [s2| | |s2 m2 e2]; try contradiction; try exact I.
  cbn [has_sign] in Hsx, Hsy. subst s1 s2.
  apply (finite_sign_has_sign _ _ n); [|exact Hxy].
  unfold fmul, SFmul. apply binary_round_aux_sign.
Qed.

Lemma int_of_float_sign s x m :
  has_sign s x -> int_of_float x = Ok m ->
  (s = false -> 0 <= m) /\ (s = true -> m <= 0).
Proof.
  destruct x as [s0| | |s0 m0 e0]; cbn [has_sign int_of_float]; try contradiction.
  - intros _ [= <-]. lia.
  - intros -> [= <-].
    assert (0 <= Z.shiftl (Zpos m0) e0) by (apply Z.shiftl_nonneg; lia).
    destruct s; split; intros; try discriminate; lia.
Qed.

Lemma mileage_rate_exact k :
  0 <= k < 4294967296 ->
  fadd (of_Z 5000) (fmul (dyadic k (-32)) (of_Z 7000))
  = dyadic (5000 * 4294967296 + k * 7000) (-32).
Proof.
  intros Hk. unfold of_Z.
  assert (H53 : 2 ^ 53 = 9007199254740992) by reflexivity.
  assert (H48 : 2 ^ 48 = 281474976710656) by reflexivity.
  rewrite fmul_dyadic by lia.
  replace (-32 + 0) with (-32) by lia.
  apply fadd_int_draw; lia.
Qed.

Lemma generate_mileage_signed year g :
  Z.abs (2025 - year) < 2 ^ 1000 ->
  exists m,
    generate_mileage year g = Ok (m, after_draws g [MileageRate; MileageRoll])
    /\ (year <= 2025 -> 0 <= m) /\ (2025 <= year -> m <= 0).
Proof.
  intros Hage.
  destruct (generate_mileage_ok year g Hage) as (m & Hm). exists m.
  split; [exact Hm|].
  pose proof (lcg_next_range (state g)) as Hk.
  unfold generate_mileage, bind, lift in Hm. rewrite seeded_random_eq in Hm.
  destruct (float_of_int_nice (2025 - year) 1000 Hage ltac:(lia)) as (age_f & Hf & Hage_f).
  rewrite Hf in Hm. rewrite seeded_random_eq in Hm.
  rewrite mileage_rate_exact in Hm by exact Hk.
  set (N := 5000 * 4294967296 + lcg_next (state g) * 7000) in *.
  assert (HN : 0 < N < 2 ^ 47) by (change (2 ^ 47) with 140737488355328; lia).
  assert (Havg : nice 16 (dyadic N (-32))) by (apply (dyadic_nice N (-32) 47 15); lia).
  assert (Havg_s : has_sign false (dyadic N (-32))).
  { assert (HdN : 0 < Zdigits2 N <= 47).
    { split; [apply Zdigits2_pos; lia|]. apply Zdigits2_le; lia. }
    rewrite dyadic_exact; [reflexivity | lia | | lia].
    apply (Z.lt_trans _ (2 ^ 47)); [lia | reflexivity]. }
  assert (Hage_s : forall s, (s = false -> year <= 2025) -> (s = true -> 2025 <= year) ->
                             has_sign s age_f).
  { intros s Hs1 Hs2. unfold float_of_int in Hf.
    destruct (is_infinity (of_Z (2025 - year))); [discriminate|]. injection Hf as <-.
    destruct (Z.eq_dec (2025 - year) 0) as [->|Hne]; [exact I|].
    pose proof (of_Z_sign (2025 - year)) as Hsg.
    destruct (of_Z (2025 - year)) as [s0| | |s0 m0 e0]; try contradiction; [exact I|].
    cbn [has_sign]. subst s0.
    destruct s; [specialize (Hs2 eq_refl) | specialize (Hs1 eq_refl)];
      destruct (Z.ltb_spec (2025 - year) 0); try reflexivity; lia. }
  pose proof (fmul_nice 1001 16 1017 _ _ Hage_f Havg ltac:(lia) ltac:(lia)) as Hbase.
  assert (Hband : forall n d m',
            niceb 2 (decimal n d) = true -> has_sign false (decimal n d) ->
            int_of_float (fmul (fmul age_f (dyadic N (-32))) (decimal n d)) = Ok m' ->
            (year <= 2025 -> 0 <= m') /\ (2025 <= year -> m' <= 0)).
  { intros n d m' Hnd Hsd Hm'.
    pose proof (niceb_nice _ _ Hnd) as Hc.
    pose proof (fmul_nice 1018 2 1020 _ _ Hbase Hc ltac:(lia) ltac:(lia)) as Hres.
    split; intros Hy.
    - assert (Hs : has_sign (xorb (xorb false false) false)
                     (fmul (fmul age_f (dyadic N (-32))) (decimal n d))).
      { eapply fmul_has_sign; [exact Hbase | exact Hc | exact Hres | | exact Hsd].
        eapply fmul_has_sign; [exact Hage_f | exact Havg | exact Hbase | | exact Havg_s].
        apply Hage_s; [intros _; exact Hy | discriminate]. }
      apply (int_of_float_sign _ _ _ Hs Hm'). reflexivity.
    - assert (Hs : has_sign (xorb (xorb true false) false)
                     (fmul (fmul age_f (dyadic N (-32))) (decimal n d))).
      { eapply fmul_has_sign; [exact Hbase | exact Hc | exact Hres | | exact Hsd].
        eapply fmul_has_sign; [exact Hage_f | exact Havg | exact Hbase | | exact Havg_s].
        apply Hage_s; [discriminate | intros _; exact Hy]. }
      apply (int_of_float_sign _ _ _ Hs Hm'). reflexivity. }
  repeat match type of Hm with
         | context [if ?b then _ else _] => destruct b
         end;
    match type of Hm with
    | context [fmul _ (decimal ?n ?d)] =>
        destruct (int_of_float (fmul (fmul age_f (dyadic N (-32))) (decimal n d)))
          as [m'|] eqn:Hi; [|discriminate Hm];
        injection Hm as <-;
        apply (Hband n d m' eq_refl); [vm_compute; reflexivity | exact Hi]
    end.
Qed.

End DrawFacts.

(** X27. The five tiers of [generate_condition] are cut exactly at 5, 20,
    55 and 85 hundredths of the [2^32] states: with [k] the state after the
    draw, the rating is 5 when [k / 2^32 < 5/100], 4 below 20/100, 3 below
    55/100, 2 below 85/100 and 1 from there on, the comparisons being those
    of exact fractions (the binary rounding of the decimal literals changes
    no decision). *)
Theorem generate_condition_cuts_at_the_percentages (g : VINGenerator.generator) :
  let k := VINGenerator.lcg_next (VINGenerator.state g) in
  exists c,
    VINGenerator.generate_condition g
    = Ok (c, VINGenerator.after_draw g VINGenerator.ConditionRoll)
    /\ In (VINGenerator.rating c, VINGenerator.description c)
         [(5, "Concours"); (4, "Excellent"); (3, "Good"); (2, "Fair"); (1, "Project")]
    /\ (VINGenerator.rating c = 5 <-> 100 * k < 5 * 4294967296)
    /\ (VINGenerator.rating c = 4
        <-> 5 * 4294967296 <= 100 * k < 20 * 4294967296)
    /\ (VINGenerator.rating c = 3
        <-> 20 * 4294967296 <= 100 * k < 55 * 4294967296)
    /\ (VINGenerator.rating c = 2
        <-> 55 * 4294967296 <= 100 * k < 85 * 4294967296)
    /\ (VINGenerator.rating c = 1 <-> 85 * 4294967296 <= 100 * k).
Proof.
  cbv zeta. pose proof (lcg_next_range (VINGenerator.state g)) as Hk.
  unfold VINGenerator.generate_condition, VINGenerator.bind.
  rewrite seeded_random_eq.
  rewrite flt_draw_5, flt_draw_20, flt_draw_55, flt_draw_85 by exact Hk.
  set (k := VINGenerator.lcg_next (VINGenerator.state g)) in *.
  destruct (Z.ltb_spec (100 * k) (5 * 4294967296));
    [|destruct (Z.ltb_spec (100 * k) (20 * 4294967296));
      [|destruct (Z.ltb_spec (100 * k) (55 * 4294967296));
        [|destruct (Z.ltb_spec (100 * k) (85 * 4294967296))]]];
    (eexists; split; [reflexivity|];
     cbn [VINGenerator.rating VINGenerator.description In];
     split; [tauto|]; repeat split; intros; try discriminate; lia).
Qed.

(** X28. [generate_state] walks the table by cumulative weight, in exact
    arithmetic: with [k] the state after the draw, it returns the first code
    whose cumulative weight [W] satisfies [49 * k / 2^32 <= W], 49 being the
    sum of the weights. Since [k < 2^32] the loop always returns, and the
    statement after the loop is never reached. *)
Theorem generate_state_follows_cumulative_weights (g : VINGenerator.generator) :
  let k := VINGenerator.lcg_next (VINGenerator.state g) in
  fold_right Z.add 0 (map snd VINGenerator.states) = 49
  /\ exists before code weight after,
       VINGenerator.states = (before ++ (code, weight) :: after)%list
       /\ VINGenerator.generate_state g
          = Ok (code, VINGenerator.after_draw g VINGenerator.StateRoll)
       /\ VINGenerator.generate_state_loop VINGenerator.states
            (PyFloat.fmul (PyFloat.dyadic k (-32)) (PyFloat.of_Z 49)) = Some code
       /\ 49 * k <= (fold_right Z.add 0 (map snd before) + weight) * 4294967296
       /\ (before <> [] -> fold_right Z.add 0 (map snd before) * 4294967296 < 49 * k).
Proof.
  cbv zeta. split; [reflexivity|].
  pose proof (lcg_next_range (VINGenerator.state g)) as Hk.
  set (k := VINGenerator.lcg_next (VINGenerator.state g)) in *.
  assert (Hroll : PyFloat.fmul (PyFloat.dyadic k (-32)) (PyFloat.of_Z 49)
                  = PyFloat.dyadic (k * 49) (-32)).
  { unfold PyFloat.of_Z. rewrite fmul_dyadic;
      try (change (2 ^ 53) with 9007199254740992; lia).
    f_equal. }
  pose proof (generate_state_loop_exact VINGenerator.states (k * 49)) as Hloop.
  assert (Hpos : Forall (fun entry : string * Z => 0 < snd entry) VINGenerator.states).
  { unfold VINGenerator.states. repeat constructor. }
  specialize (Hloop Hpos).
  change (fold_right Z.add 0 (map snd VINGenerator.states)) with 49 in Hloop.
  specialize (Hloop ltac:(lia) ltac:(change (2 ^ 43) with 8796093022208; lia)).
  unfold VINGenerator.generate_state, VINGenerator.bind. rewrite seeded_random_eq.
  fold k. change (fold_right Z.add 0 (map snd VINGenerator.states)) with 49.
  rewrite Hroll.
  destruct (VINGenerator.generate_state_loop VINGenerator.states
              (PyFloat.dyadic (k * 49) (-32))) as [code|] eqn:Hl;
    rewrite ?Hl in Hloop; cbv beta iota in Hloop.
  - destruct Hloop as (before & weight & after & Hsplit & Hle & Hgt).
    exists before, code, weight, after.
    split; [exact Hsplit|]. split; [reflexivity|]. split; [reflexivity|].
    split; [lia|]. intros Hne. specialize (Hgt Hne). lia.
  - destruct Hloop as [Hnil|Hlt]; [discriminate Hnil | lia].
Qed.

(** X29. [generate_mileage] returns, after two draws, for every model year
    within [2^1000] of 2025, and the sign of the mileage is the sign of the
    age [2025 - year]: never negative for a model year up to 2025, zero for
    2025, and never positive for a later model year. *)
Theorem generate_mileage_has_the_sign_of_the_age (year : Z) (g : VINGenerator.generator) :
  Z.abs (2025 - year) < 2 ^ 1000 ->
  exists m,
    VINGenerator.generate_mileage year g
    = Ok (m, VINGenerator.after_draws g
               [VINGenerator.MileageRate; VINGenerator.MileageRoll])
    /\ (year <= 2025 -> 0 <= m)
    /\ (2025 <= year -> m <= 0).
Proof. apply generate_mileage_signed. Qed.

Lemma generate_mileage_has_the_sign_of_the_age_witness :
  exists m,
    VINGenerator.generate_mileage 2031 (VINGenerator.init 12345)
    = Ok (m, VINGenerator.after_draws (VINGenerator.init 12345)
               [VINGenerator.MileageRate; VINGenerator.MileageRoll])
    /\ m <= 0.
Proof.
  destruct (generate_mileage_has_the_sign_of_the_age 2031 (VINGenerator.init 12345))
    as (m & H & _ & Hneg).
  - apply (Z.lt_le_trans _ (2 ^ 11)); [reflexivity | apply Z.pow_le_mono_r; lia].
  - exists m. split; [exact H | apply Hneg; lia].
Defined.


(* ===================================================================== *)
(** * The round-robin adjustment *)
(* ===================================================================== *)

Section RoundRobinFacts.
Import VINGenerator Distribution.

Lemma nth_error_insert {A : Type} (l : list A) : forall i x p,
  (i < length l)%nat ->
  nth_error (<[i := x]> l) p = if Nat.eqb p i then Some x else nth_error l p.
Proof.
  induction l as [|a l IH]; intros i x p Hi; [cbn in Hi; lia|].
  destruct i as [|i].
  - change (<[0%nat := x]> (a :: l)) with (x :: l). now destruct p.
  - change (<[S i := x]> (a :: l)) with (a :: <[i := x]> l).
    destruct p as [|p]; [reflexivity|]. cbn [nth_error Nat.eqb].
    apply IH. cbn in Hi. lia.
Qed.

Lemma add_vins_0 a : add_vins 0 a = a.
Proof. destruct a. unfold add_vins. cbn. f_equal. lia. Qed.

Lemma add_vins_add x y a : add_vins x (add_vins y a) = add_vins (y + x) a.
Proof. unfold add_vins. cbn. f_equal. lia. Qed.

(** The number of [i] below [x] with [i mod n = p] is [(x + n - 1 - p) / n]. *)
Lemma round_robin_step n p x :
  0 <= p < n -> 0 <= x ->
  (x + 1 + n - 1 - p) / n
  = (x + n - 1 - p) / n + (if p =? x mod n then 1 else 0).
Proof.
  intros Hp Hx.
  pose proof (Z.div_mod x n ltac:(lia)) as Hx'.
  pose proof (Z.mod_pos_bound x n ltac:(lia)) as Hr.
  set (q := x / n) in *. set (r := x mod n) in *.
  destruct (Z.eqb_spec p r) as [Heq|Hne].
  - rewrite <- (Z.div_unique (x + 1 + n - 1 - p) n (q + 1) 0) by lia.
    rewrite <- (Z.div_unique (x + n - 1 - p) n q (n - 1)) by lia. lia.
  - destruct (Z_lt_le_dec r p) as [Hlt|Hge].
    + rewrite <- (Z.div_unique (x + 1 + n - 1 - p) n q (r + n - p)) by lia.
      rewrite <- (Z.div_unique (x + n - 1 - p) n q (r + n - 1 - p)) by lia. lia.
    + rewrite <- (Z.div_unique (x + 1 + n - 1 - p) n (q + 1) (r - p)) by lia.
      rewrite <- (Z.div_unique (x + n - 1 - p) n (q + 1) (r - 1 - p)) by lia. lia.
Qed.

Lemma add_step_nth l i l' :
  0 <= i -> add_step l i = Ok l' ->
  length l' = length l
  /\ forall p a,
       nth_error l p = Some a ->
       nth_error l' p
       = Some (add_vins (if Z.of_nat p =? i mod len l then 1 else 0) a).
Proof.
  intros Hi. unfold add_step, rbind.
  destruct (py_mod i (len l)) as [j|] eqn:Hj; [|discriminate].
  pose proof Hj as Hj'. apply py_mod_inv in Hj' as [Hlen Hjr]; [|lia|unfold len; lia].
  assert (Hjeq : j = i mod len l).
  { unfold py_mod in Hj. destruct (len l =? 0); [discriminate|]. now injection Hj as <-. }
  destruct (py_index l j) as [d|] eqn:Hd; [|discriminate].
  apply py_index_inv in Hd; [|lia]. intros [= <-].
  assert (Hjl : (Z.to_nat j < length l)%nat) by (unfold len in Hjr; lia).
  split; [apply length_insert|].
  intros p a Hp. rewrite nth_error_insert by exact Hjl. rewrite <- Hjeq.
  destruct (Nat.eqb_spec p (Z.to_nat j)) as [->|Hne].
  - rewrite Z2Nat.id by lia. rewrite Z.eqb_refl. congruence.
  - destruct (Z.eqb_spec (Z.of_nat p) j) as [Heq|_]; [lia|].
    now rewrite add_vins_0.
Qed.

Lemma for_range_add_nth m : forall start l l',
  0 <= start -> for_range add_step m start l = Ok l' ->
  length l' = length l
  /\ forall p a,
       nth_error l p = Some a ->
       nth_error l' p
       = Some (add_vins ((start + Z.of_nat m + len l - 1 - Z.of_nat p) / len l
                         - (start + len l - 1 - Z.of_nat p) / len l) a).
Proof.
  induction m as [|m IH]; intros start l l' Hs H.
  - injection H as <-. split; [reflexivity|]. intros p a Hp.
    replace (start + Z.of_nat 0 + len l - 1 - Z.of_nat p) with (start + len l - 1 - Z.of_nat p)
      by lia.
    rewrite Z.sub_diag, add_vins_0. exact Hp.
  - cbn [for_range] in H. unfold rbind in H.
    destruct (add_step l start) as [l1|] eqn:H1; [|discriminate].
    destruct (add_step_nth _ _ _ Hs H1) as [Hlen1 Hnth1].
    destruct (IH (start + 1) l1 l' ltac:(lia) H) as [Hlen' Hnth'].
    split; [congruence|]. intros p a Hp.
    assert (Hpl : (p < length l)%nat) by (apply nth_error_Some; congruence).
    rewrite (Hnth' p _ (Hnth1 p a Hp)), add_vins_add.
    assert (Hl1 : len l1 = len l) by (unfold len; now rewrite Hlen1).
    rewrite Hl1. do 2 f_equal.
    pose proof (round_robin_step (len l) (Z.of_nat p) start ltac:(unfold len; lia) Hs) as Hstep.
    replace (start + 1 + Z.of_nat m + len l - 1 - Z.of_nat p)
      with (start + Z.of_nat (S m) + len l - 1 - Z.of_nat p) by lia.
    replace (start + 1 + len l - 1 - Z.of_nat p) with (start + 1 + len l - 1 - Z.of_nat p)
      by lia.
    lia.
Qed.

End RoundRobinFacts.

(** X30. When the proportional allocations sum to less than the target, the
    missing VINs are dealt out one at a time over the sorted list, largest
    vehicle first, wrapping around: with [n] vehicles and [diff] missing, the
    vehicle at sorted position [p] gets [(diff + n - 1 - p) div n] more,
    which is [diff div n] or one more than that. *)
Theorem additions_go_round_robin
    (vehicles : list VINGenerator.vehicle) (target : Z)
    (d0 d : list Distribution.allocation) (p : nat) (a : Distribution.allocation) :
  Distribution.proportional vehicles target (Distribution.total_instances_of vehicles)
  = Ok d0 ->
  Distribution.total_vins d0 < target ->
  Distribution.distribute_vins_across_vehicles vehicles target = Ok d ->
  nth_error (Distribution.sort_desc d0) p = Some a ->
  let n := VINGenerator.len d0 in
  let diff := target - Distribution.total_vins d0 in
  let more := (diff + n - 1 - Z.of_nat p) / n in
  nth_error d p = Some (Distribution.add_vins more a)
  /\ diff / n <= more <= diff / n + 1.
Proof.
  intros Hprop Hlt H Hp. cbv zeta.
  unfold Distribution.distribute_vins_across_vehicles in H. rewrite Hprop in H.
  cbn [rbind] in H.
  destruct (Z.eqb_spec (Distribution.total_vins d0) target) as [Heq|Hne]; [lia|].
  assert (Hpos : (0 <? target - Distribution.total_vins d0) = true) by (apply Z.ltb_lt; lia).
  rewrite Hpos in H.
  destruct (for_range_add_nth _ 0 _ _ ltac:(lia) H) as [_ Hnth].
  specialize (Hnth p a Hp).
  assert (Hlen : VINGenerator.len (Distribution.sort_desc d0) = VINGenerator.len d0).
  { unfold VINGenerator.len. f_equal. apply Permutation_length, sort_desc_perm. }
  rewrite Hlen in Hnth.
  assert (Hpn : 0 <= Z.of_nat p < VINGenerator.len d0).
  { rewrite <- Hlen. unfold VINGenerator.len.
    assert (p < length (Distribution.sort_desc d0))%nat
      by (apply nth_error_Some; congruence). lia. }
  rewrite Z2Nat.id in Hnth by lia.
  assert (Hzero : (0 + VINGenerator.len d0 - 1 - Z.of_nat p) / VINGenerator.len d0 = 0)
    by (apply Z.div_small; lia).
  rewrite Hzero, Z.sub_0_r in Hnth.
  replace (0 + (target - Distribution.total_vins d0) + VINGenerator.len d0 - 1 - Z.of_nat p)
    with (target - Distribution.total_vins d0 + VINGenerator.len d0 - 1 - Z.of_nat p)
    in Hnth by lia.
  split; [exact Hnth|].
  clear -Hpn Hlt. Z.to_euclidean_division_equations. nia.
Qed.

Lemma additions_go_round_robin_witness :
  exists d0 d a,
    Distribution.proportional
      [Distribution.vehicle_of_count 10; Distribution.vehicle_of_count 20;
       Distribution.vehicle_of_count 30] 100 60 = Ok d0
    /\ nth_error (Distribution.sort_desc d0) 0 = Some a
    /\ Distribution.vin_count a = 50
    /\ nth_error d 0 = Some (Distribution.add_vins 1 a).
Proof.
  set (vehicles := [Distribution.vehicle_of_count 10; Distribution.vehicle_of_count 20;
                    Distribution.vehicle_of_count 30]).
  let p := eval vm_compute in (Distribution.proportional vehicles 100 60) in
  let q := eval vm_compute in (Distribution.distribute_vins_across_vehicles vehicles 100) in
  lazymatch p with
  | Ok ?D0 =>
      lazymatch q with
      | Ok ?D =>
          let s := eval vm_compute in (nth_error (Distribution.sort_desc D0) 0) in
          lazymatch s with
          | Some ?A =>
              exists D0, D, A; split; [vm_compute; reflexivity|];
              split; [vm_compute; reflexivity|]; split; [reflexivity|];
              exact (proj1 (additions_go_round_robin vehicles 100 D0 D 0%nat A
                              ltac:(vm_compute; reflexivity) ltac:(vm_compute; reflexivity)
                              ltac:(vm_compute; reflexivity) ltac:(vm_compute; reflexivity)))
          end
      end
  end.
Defined.
